(** * The ex command line of vimb (src/ex.c)

    A shallow embedding of the command-line interpreter of [src/ex.c]:
    the command table, the parser of ex commands ([parse] and the functions
    it calls), the run loop [ex_run_string], the handlers of the commands,
    the completion entry point [complete] with its callback
    [completion_select], and the history stepper [history].

    Conventions of the embedding.
    - A [char] is an [ascii]; a buffer is a [list ascii] ([bytes]).
    - The cursor (the [input] argument of the parse functions) is the
      list of the bytes stored from the cursor onwards.  A C string is
      its characters followed by the
      terminator ["000"]; where the list ends, memory reads as ["000"] from
      there on.  Bytes that follow a terminator in memory can be written
      out in the list, and the functions below read them exactly where the
      C code reads past the terminator.
    - A [GString] is the list of its bytes ([len] is its length, [str] read
      as a C string is [cstr] of it).
    - [int] arithmetic is done in [Z] with the 32-bit wrap written out.
    - Everything outside ex.c (the input box, the web view, the stores, the
      completion widget) is a collaborator acting on a state of type [E]. *)

From Stdlib Require Import ZArith List Ascii String Bool Arith Lia DecimalString.
Import ListNotations.

(* ------------------------------------------------------------------ *)
(** ** Characters, C strings and GStrings *)

Definition bytes := list ascii.

Definition NUL : ascii := "000"%char.

(** A string literal as the bytes of a C string, terminator left off. *)
Definition str (s : string) : bytes := list_ascii_of_string s.

(** the character under the cursor *)
Definition peek (input : bytes) : ascii := hd NUL input.

(** the cursor moved on by one character *)
Definition advance (input : bytes) : bytes := tl input.

Definition ch_eq (c d : ascii) : bool := Ascii.eqb c d.

(** A buffer read as a C string: the bytes before the first terminator. *)
Fixpoint cstr (b : bytes) : bytes :=
  match b with
  | [] => []
  | c :: r => if ch_eq c NUL then [] else c :: cstr r
  end.

(** [isdigit] of ctype.h in the C locale. *)
Definition isdigit (c : ascii) : bool :=
  (48 <=? nat_of_ascii c) && (nat_of_ascii c <=? 57).

(** [c - '0'] *)
Definition digit_value (c : ascii) : Z := (Z.of_nat (nat_of_ascii c) - 48)%Z.

(** An [int] result, wrapped to 32 bits two's complement. *)
Definition int_wrap (z : Z) : Z :=
  ((z + 2147483648) mod 4294967296 - 2147483648)%Z.

(** [strncmp(a, b, n) == 0]: the strings agree on their first [n]
    characters, the comparison ending at a common terminator. *)
Fixpoint strncmp_eq (a b : bytes) (n : nat) : bool :=
  match n with
  | O => true
  | S k =>
      if ch_eq (peek a) (peek b)
      then (if ch_eq (peek a) NUL then true
            else strncmp_eq (advance a) (advance b) k)
      else false
  end.

(** [strcmp(a, b) == 0] on buffers read as C strings. *)
Definition strcmp_eq (a b : bytes) : bool :=
  if list_eq_dec ascii_dec (cstr a) (cstr b) then true else false.

(* ------------------------------------------------------------------ *)
(** ** The command table *)

Inductive ExCode : Set :=
| EX_BMA | EX_BMR | EX_EVAL | EX_HARDCOPY | EX_CMAP | EX_CNOREMAP | EX_IMAP
| EX_NMAP | EX_NNOREMAP | EX_CUNMAP | EX_IUNMAP | EX_INOREMAP | EX_NUNMAP
| EX_NORMAL | EX_OPEN
| EX_QCLEAR | EX_QPOP | EX_QPUSH | EX_QUNSHIFT   (* #ifdef FEATURE_QUEUE *)
| EX_QUIT | EX_SAVE | EX_SCA | EX_SCD | EX_SCR | EX_SET | EX_SHELLCMD
| EX_TABOPEN.

Definition ExCode_eq_dec (a b : ExCode) : {a = b} + {a <> b}.
Proof. decide equality. Defined.

(** The handler a table entry points to ([ExFunc]). *)
Inductive ExFunc : Set :=
| F_bookmark | F_eval | F_hardcopy | F_map | F_unmap | F_normal | F_open
| F_queue | F_quit | F_save | F_set | F_shellcmd | F_shortcut.

Definition EX_FLAG_NONE : Z := 0.
Definition EX_FLAG_BANG : Z := 1.   (* 0x001 *)
Definition EX_FLAG_LHS  : Z := 2.   (* 0x002 *)
Definition EX_FLAG_RHS  : Z := 4.   (* 0x004 *)
Definition EX_FLAG_EXP  : Z := 8.   (* 0x008 *)

(** [flags & f] as a C condition *)
Definition has_flag (flags f : Z) : bool := negb (Z.land flags f =? 0)%Z.

Record ExInfo : Set := mkExInfo {
  cmd_name  : bytes;
  cmd_code  : ExCode;
  cmd_func  : ExFunc;
  cmd_flags : Z
}.

Record ExArg : Set := mkExArg {
  count : Z;        (* commands count *)
  idx   : nat;      (* index in commands array *)
  name  : bytes;    (* name of the command *)
  code  : ExCode;   (* id of the command *)
  bang  : bool;     (* if the command was called with a bang ! *)
  lhs   : bytes;    (* left hand side of the command - single word *)
  rhs   : bytes;    (* right hand side of the command - multiple words *)
  flags : Z         (* flags for the already parsed command *)
}.

Definition cmd (n : string) (c : ExCode) (f : ExFunc) (fl : Z) : ExInfo :=
  mkExInfo (str n) c f fl.

(** [static ExInfo commands[]]; the build option FEATURE_QUEUE of config.h
    is a parameter of the table. *)
Definition commands (FEATURE_QUEUE : bool) : list ExInfo :=
  [ cmd "bma"              EX_BMA       F_bookmark EX_FLAG_RHS;
    cmd "bmr"              EX_BMR       F_bookmark EX_FLAG_RHS;
    cmd "cmap"             EX_CMAP      F_map      (Z.lor EX_FLAG_LHS EX_FLAG_RHS);
    cmd "cnoremap"         EX_CNOREMAP  F_map      (Z.lor EX_FLAG_LHS EX_FLAG_RHS);
    cmd "cunmap"           EX_CUNMAP    F_unmap    EX_FLAG_LHS;
    cmd "hardcopy"         EX_HARDCOPY  F_hardcopy EX_FLAG_NONE;
    cmd "eval"             EX_EVAL      F_eval     EX_FLAG_RHS;
    cmd "imap"             EX_IMAP      F_map      (Z.lor EX_FLAG_LHS EX_FLAG_RHS);
    cmd "inoremap"         EX_INOREMAP  F_map      (Z.lor EX_FLAG_LHS EX_FLAG_RHS);
    cmd "iunmap"           EX_IUNMAP    F_unmap    EX_FLAG_LHS;
    cmd "nmap"             EX_NMAP      F_map      (Z.lor EX_FLAG_LHS EX_FLAG_RHS);
    cmd "nnoremap"         EX_NNOREMAP  F_map      (Z.lor EX_FLAG_LHS EX_FLAG_RHS);
    cmd "normal"           EX_NORMAL    F_normal   (Z.lor EX_FLAG_BANG EX_FLAG_LHS);
    cmd "nunmap"           EX_NUNMAP    F_unmap    EX_FLAG_LHS;
    cmd "open"             EX_OPEN      F_open     EX_FLAG_RHS;
    cmd "quit"             EX_QUIT      F_quit     EX_FLAG_NONE ]
  ++ (if FEATURE_QUEUE then
  [ cmd "qunshift"         EX_QUNSHIFT  F_queue    EX_FLAG_RHS;
    cmd "qclear"           EX_QCLEAR    F_queue    EX_FLAG_RHS;
    cmd "qpop"             EX_QPOP      F_queue    EX_FLAG_NONE;
    cmd "qpush"            EX_QPUSH     F_queue    EX_FLAG_RHS ]
  else [])
  ++
  [ cmd "save"             EX_SAVE      F_save     (Z.lor EX_FLAG_RHS EX_FLAG_EXP);
    cmd "set"              EX_SET       F_set      EX_FLAG_RHS;
    cmd "shellcmd"         EX_SHELLCMD  F_shellcmd (Z.lor EX_FLAG_RHS EX_FLAG_EXP);
    cmd "shortcut-add"     EX_SCA       F_shortcut EX_FLAG_RHS;
    cmd "shortcut-default" EX_SCD       F_shortcut EX_FLAG_RHS;
    cmd "shortcut-remove"  EX_SCR       F_shortcut EX_FLAG_RHS;
    cmd "tabopen"          EX_TABOPEN   F_open     EX_FLAG_RHS ].

(** Stands for an entry outside the table (no index parse_command_name
    stores is outside it). *)
Definition no_command : ExInfo := mkExInfo [] EX_BMA F_bookmark 0.

(** [g_new0(ExArg, 1)] with the two GStrings set to the empty string. *)
Definition arg0 : ExArg :=
  mkExArg 0 0 [] EX_BMA false [] [] 0.

(** [char cmd[20]] of parse_command_name *)
Definition CMD_LENGTH : nat := 20.

(* ------------------------------------------------------------------ *)
(** ** Collaborators *)

Inductive MessageType : Set := VB_MSG_NORMAL | VB_MSG_ERROR.

(** [VbInputType], as far as ex.c names it *)
Inductive VbInputType : Set :=
| VB_INPUT_COMMAND | VB_INPUT_SEARCH_FORWARD.

(** [HISTORY_URL] and [HISTORY_SEARCH] of history.h *)
Inductive HistoryType : Set := HISTORY_URL | HISTORY_SEARCH.

(** What ex.c calls outside itself.  [E] is the state those callees own
    (input box, web view, bookmark, history and setting stores, completion
    widget, mode flags); a callee that changes it returns the new state.
    A [char*] result that may be NULL is an [option].  The static variables
    of ex.c ([excomp], [exhist]) are not part of [E]: no callee can reach
    them except through the callback it is handed. *)
Set Implicit Arguments.

Record Collab (E : Type) : Type := mkCollab {
  vb_echo : MessageType -> bool -> bytes -> E -> E;
  vb_echo_force : MessageType -> bool -> bytes -> E -> E;
  GET_URI : E -> option bytes;
  g_get_home_dir : E -> bytes;
  webkit_web_view_get_title : E -> option bytes;
  bookmark_remove : option bytes -> E -> bool * E;
  bookmark_add : option bytes -> option bytes -> bytes -> E -> bool * E;
  (* the handlers other than ex_bookmark: each only calls collaborators *)
  other_handler : ExFunc -> ExArg -> E -> bool * E;
  vb_get_input_text : E -> bytes;
  vb_set_input_text : bytes -> E -> E;
  history_get_list : VbInputType -> bytes -> E -> list bytes;
  (* vb.mode->flags & FLAG_COMPLETION *)
  in_completion : E -> bool;
  completion_clean : E -> E;
  (* completion_next and completion_create hand the matches they select
     to the callback they were given; the matches are returned in order *)
  completion_next : bool -> E -> E * list bytes;
  completion_create : list bytes -> bool -> E -> E * list bytes;
  bookmark_fill_completion : bytes -> E -> bool * list bytes;
  history_fill_completion : HistoryType -> bytes -> E -> bool * list bytes;
  setting_fill_completion : bytes -> E -> bool * list bytes;
  bookmark_fill_tag_completion : bytes -> E -> bool * list bytes;
  (* gtk_tree_sortable_set_sort_column_id (..., GTK_SORT_ASCENDING) *)
  sort_store : list bytes -> list bytes
}.

Unset Implicit Arguments.

(* ------------------------------------------------------------------ *)
(** ** The parser *)

Definition set_count (arg : ExArg) (n : Z) : ExArg :=
  mkExArg n (idx arg) (name arg) (code arg) (bang arg) (lhs arg) (rhs arg)
          (flags arg).

Definition set_bang (arg : ExArg) (b : bool) : ExArg :=
  mkExArg (count arg) (idx arg) (name arg) (code arg) b (lhs arg) (rhs arg)
          (flags arg).

Definition set_lhs (arg : ExArg) (l : bytes) : ExArg :=
  mkExArg (count arg) (idx arg) (name arg) (code arg) (bang arg) l (rhs arg)
          (flags arg).

Definition set_rhs (arg : ExArg) (r : bytes) : ExArg :=
  mkExArg (count arg) (idx arg) (name arg) (code arg) (bang arg) (lhs arg) r
          (flags arg).

(** The four assignments that end parse_command_name. *)
Definition set_command (arg : ExArg) (first : nat) (ci : ExInfo) : ExArg :=
  mkExArg (count arg) first (cmd_name ci) (cmd_code ci) (bang arg) (lhs arg)
          (rhs arg) (cmd_flags ci).

(** skip_whitespace: only the space character is skipped. *)
Fixpoint skip_whitespace (input : bytes) : bytes :=
  match input with
  | c :: rest =>
      if negb (ch_eq c NUL) && ch_eq c " " then skip_whitespace rest else input
  | [] => input
  end.

(** The first loop of parse: leading colons and spaces. *)
Fixpoint skip_prompt (input : bytes) : bytes :=
  match input with
  | c :: rest =>
      if negb (ch_eq c NUL) && (ch_eq c ":" || ch_eq c " ")
      then skip_prompt rest else input
  | [] => input
  end.

(** The do-while of parse_count.  It is entered on a digit, so testing
    before each round is the same loop: the count is multiplied up from
    the value the field holds on entry. *)
Fixpoint parse_count_loop (input : bytes) (n : Z) : bytes * Z :=
  match input with
  | c :: rest =>
      if isdigit c
      then parse_count_loop rest (int_wrap (n * 10 + digit_value c))
      else (input, n)
  | [] => (input, n)
  end.

Definition parse_count (input : bytes) (arg : ExArg) : bytes * ExArg :=
  if negb (isdigit (peek input)) then (input, set_count arg 0)
  else let '(input', n) := parse_count_loop input (count arg) in
       (input', set_count arg n).

(** The for loop inside parse_command_name: the table is walked from
    index [i] ([cmds] is the table from there on) for the entries whose
    character at [len - 1] is [c]; the walk breaks at the first entry that
    differs from [buf] in its first [len - 1] characters.  Returns [first]
    and [matches]. *)
Fixpoint scan (cmds : list ExInfo) (i : nat) (buf : bytes) (len : nat)
         (c : ascii) (first matches : nat) : nat * nat :=
  match cmds with
  | [] => (first, matches)
  | ci :: more =>
      if (1 <? len) && negb (strncmp_eq (cmd_name ci) buf (len - 1))
      then (first, matches)
      else if ch_eq (nth (len - 1) (cmd_name ci) NUL) c
           then scan more (S i) buf len c
                     (if matches =? 0 then i else first) (S matches)
           else scan more (S i) buf len c first matches
  end.

(** The do-while of parse_command_name.  [c] is the character under the
    cursor and [rest] what follows it, [buf] the characters copied to the
    array [cmd] so far ([len] is its length).  Returns [matches], [first],
    the array and the cursor. *)
Fixpoint name_loop (table : list ExInfo) (c : ascii) (rest : bytes)
         (buf : bytes) (first : nat) : nat * nat * bytes * bytes :=
  let buf' := buf ++ [c] in
  let '(first', matches) :=
    scan (skipn first table) first buf' (List.length buf') c first 0 in
  match rest with
  | c' :: rest' =>
      if (0 <? matches) && negb (ch_eq c' NUL) && negb (ch_eq c' " ")
         && negb (ch_eq c' "!")
      then name_loop table c' rest' buf' first'
      else (matches, first', buf', rest)
  | [] => (matches, first', buf', rest)
  end.

(** The for loop of the failure branch: it copies up to the next space or
    until the array is full.  Its guard tests the pointer, not the
    character, so it does not stop at the terminator. *)
Fixpoint error_token (room : nat) (input buf : bytes) : bytes * bytes :=
  match room with
  | O => (input, buf)
  | S k =>
      if ch_eq (peek input) " " then (input, buf)
      else error_token k (advance input) (buf ++ [peek input])
  end.

Section Parser.

Context {E : Type} (C : Collab E).
Variable FEATURE_QUEUE : bool.

Definition parse_command_name (input : bytes) (arg : ExArg) (w : E)
  : bool * bytes * ExArg * E :=
  let table := commands FEATURE_QUEUE in
  let '(matches, first, buf, input1) :=
    name_loop table (peek input) (advance input) [] 0 in
  if matches =? 0 then
    let '(input2, buf2) := error_token (CMD_LENGTH - List.length buf) input1 buf in
    (false, input2, arg,
     vb_echo C VB_MSG_ERROR true (str "Unknown command: " ++ cstr buf2) w)
  else
    (true, input1,
     set_command arg first (nth first table no_command), w).

Definition parse_bang (input : bytes) (arg : ExArg) : bytes * ExArg :=
  if ch_eq (peek input) "!" then (advance input, set_bang arg true)
  else (input, arg).

(** The while loop of parse_lhs, [out] being the GString [arg->lhs].
    After a backslash the C code tests the pointer ([!*input]), which is
    never NULL, so the next character is read whatever it is: a space is
    kept alone, any other character (the terminator too) is appended
    after the backslash, and the cursor moves past it. *)
Fixpoint parse_lhs_loop (input : bytes) (out : bytes) : bytes * bytes :=
  match input with
  | [] => (input, out)
  | c :: rest =>
      if ch_eq c NUL || ch_eq c " " then (input, out)
      else if ch_eq c "\" then
        match rest with
        | c2 :: rest2 =>
            if ch_eq c2 " " then parse_lhs_loop rest2 (out ++ [c2])
            else parse_lhs_loop rest2 (out ++ ["\"%char; c2])
        | [] => ([], out ++ ["\"%char; NUL])
        end
      else parse_lhs_loop rest (out ++ [c])
  end.

Definition parse_lhs (input : bytes) (arg : ExArg) : bool * bytes * ExArg :=
  if ch_eq (peek input) NUL then (false, input, arg)
  else let '(input', out) := parse_lhs_loop input (lhs arg) in
       (true, input', set_lhs arg out).

(** expand_input is folded into the loop of parse_rhs: for [%] the
    address of the page is appended when there is one; for [~] the
    cursor moves on, and the home directory and the slash are appended
    when the next character is a slash.  In both cases parse_rhs then
    moves the cursor on by one more character. *)
Fixpoint parse_rhs_loop (uri : option bytes) (home : bytes) (fl : Z)
         (input : bytes) (out : bytes) : bytes * bytes :=
  match input with
  | [] => (input, out)
  | c :: rest =>
      if ch_eq c NUL || ch_eq c "010" || ch_eq c "|" then (input, out)
      else if ch_eq c "\" then
        match rest with
        | c2 :: rest2 =>
            if ch_eq c2 "|" then parse_rhs_loop uri home fl rest2 (out ++ [c2])
            else parse_rhs_loop uri home fl rest2 (out ++ ["\"%char; c2])
        | [] => ([], out ++ ["\"%char; NUL])
        end
      else if has_flag fl EX_FLAG_EXP && (ch_eq c "%" || ch_eq c "~") then
        if ch_eq c "%" then
          parse_rhs_loop uri home fl rest
            (match uri with Some u => out ++ u | None => out end)
        else
          match rest with
          | c2 :: rest2 =>
              parse_rhs_loop uri home fl rest2
                (if ch_eq c2 "/" then out ++ home ++ [c2] else out)
          | [] => ([], out)
          end
      else parse_rhs_loop uri home fl rest (out ++ [c])
  end.

Definition parse_rhs (input : bytes) (arg : ExArg) (w : E)
  : bool * bytes * ExArg :=
  if ch_eq (peek input) NUL then (false, input, arg)
  else let '(input', out) :=
         parse_rhs_loop (GET_URI C w) (g_get_home_dir C w) (flags arg)
                        input (rhs arg) in
       (true, input', set_rhs arg out).

(** parse, from the truncation of the two GStrings to the parsing of
    the right hand side. *)
Definition parse_args (input : bytes) (arg : ExArg) (w : E)
  : bool * bytes * ExArg * E :=
  let arg := set_rhs (set_lhs arg []) [] in
  let input := skip_prompt input in
  let '(input, arg) := parse_count input arg in
  let input := skip_whitespace input in
  let '(ok, input, arg, w) := parse_command_name input arg w in
  if negb ok then (false, input, arg, w)
  else
    let '(input, arg) :=
      if has_flag (flags arg) EX_FLAG_BANG then parse_bang input arg
      else (input, arg) in
    let input := skip_whitespace input in
    let '(input, arg) :=
      if has_flag (flags arg) EX_FLAG_LHS
      then let '(_, i, a) := parse_lhs input arg in (i, a)
      else (input, arg) in
    let input := skip_whitespace input in
    let '(input, arg) :=
      if has_flag (flags arg) EX_FLAG_RHS
      then let '(_, i, a) := parse_rhs input arg w in (i, a)
      else (input, arg) in
    (true, input, arg, w).

(** The last statement of parse: one character is stepped over unless
    the cursor is on the terminator. *)
Definition step_over (input : bytes) : bytes :=
  if negb (ch_eq (peek input) NUL) then advance input else input.

Definition parse (input : bytes) (arg : ExArg) (w : E)
  : bool * bytes * ExArg * E :=
  if ch_eq (peek input) NUL then (false, input, arg, w)
  else
    let '(ok, input, arg, w) := parse_args input arg w in
    if negb ok then (false, input, arg, w)
    else (true, step_over input, arg, w).

End Parser.

(* ------------------------------------------------------------------ *)
(** ** Handlers and the run loop *)

Section Run.

Context {E : Type} (C : Collab E).
Variable FEATURE_QUEUE : bool.

(** ex_bookmark.  [*arg->rhs->str ? arg->rhs->str : GET_URI()] reads
    the right hand side as a C string. *)
Definition ex_bookmark (arg : ExArg) (w : E) : bool * E :=
  if ExCode_eq_dec (code arg) EX_BMR then
    let target :=
      if negb (ch_eq (peek (rhs arg)) NUL) then Some (cstr (rhs arg))
      else GET_URI C w in
    let '(removed, w1) := bookmark_remove C target w in
    if removed
    then (true, vb_echo_force C VB_MSG_NORMAL false (str "  Bookmark removed") w1)
    else (false, w1)
  else
    let '(added, w1) :=
      bookmark_add C (GET_URI C w) (webkit_web_view_get_title C w)
                   (cstr (rhs arg)) w in
    if added
    then (true, vb_echo_force C VB_MSG_NORMAL false (str "  Bookmark added") w1)
    else (false, w1).

(** execute: the handler of the table entry [arg->idx] is called. *)
Definition execute (arg : ExArg) (w : E) : bool * E :=
  match cmd_func (nth (idx arg) (commands FEATURE_QUEUE)
                      no_command) with
  | F_bookmark => ex_bookmark arg w
  | f => other_handler C f arg w
  end.

(** The while loop of ex_run_string.  One [ExArg] serves all the
    commands of the line.  [fuel] bounds the number of rounds; [None]
    is the bound reached. *)
Fixpoint run_loop (fuel : nat) (input : bytes) (arg : ExArg) (w : E)
  : option (bool * E) :=
  match fuel with
  | O => None
  | S k =>
      if ch_eq (peek input) NUL then Some (true, w)
      else
        let '(ok, input', arg', w1) := parse C FEATURE_QUEUE input arg w in
        if negb ok then Some (false, w1)
        else
          let '(done, w2) := execute arg' w1 in
          if negb done then Some (false, w2)
          else run_loop k input' arg' w2
  end.

Definition ex_run_string (input : bytes) (w : E) : option (bool * E) :=
  run_loop (S (List.length input)) input arg0 w.

End Run.

(* ------------------------------------------------------------------ *)
(** ** The static state of ex.c: completion and history *)

(** [static struct {...} excomp] *)
Record ExComp : Set := mkExComp {
  excomp_count   : Z;
  excomp_prefix  : option bytes;  (* completion prefix like :, ? and / *)
  excomp_current : option bytes   (* the current written input box content *)
}.

(** A [GList*]: the node pointed to, with the nodes reached by [prev]
    (nearest first) and by [next]. *)
Record GList : Set := mkGList {
  g_before : list bytes;
  g_data   : bytes;
  g_after  : list bytes
}.

(** [static struct {...} exhist]; NULL is [None]. *)
Record ExHist : Set := mkExHist {
  exhist_prefix : option bytes;
  exhist_query  : option bytes;
  exhist_active : option GList
}.

Set Implicit Arguments.

Record State (E : Type) : Type := mkState {
  ext    : E;
  excomp : ExComp;
  exhist : ExHist
}.

Unset Implicit Arguments.

Arguments mkState {E} _ _ _.

(** The pointer a collaborator returns for a list: its first node. *)
Definition g_list_of (l : list bytes) : option GList :=
  match l with
  | [] => None
  | x :: xs => Some (mkGList [] x xs)
  end.

Definition g_list_next (n : GList) : option GList :=
  match g_after n with
  | [] => None
  | y :: ys => Some (mkGList (g_data n :: g_before n) y ys)
  end.

Definition g_list_previous (n : GList) : option GList :=
  match g_before n with
  | [] => None
  | y :: ys => Some (mkGList ys y (g_data n :: g_after n))
  end.

(** [g_strconcat(prefix, s, NULL)] where the prefix is set. *)
Definition concat_prefix (prefix : option bytes) (s : bytes) : bytes :=
  match prefix with
  | Some p => p ++ s
  | None => s
  end.

(** ["%d"] of a count *)
Definition decimal (z : Z) : bytes :=
  str (DecimalString.NilZero.string_of_int (Z.to_int z)).

(** [g_str_has_prefix(s, p)] *)
Fixpoint g_str_has_prefix (s p : bytes) : bool :=
  match p with
  | [] => true
  | c :: p' =>
      match s with
      | [] => false
      | d :: s' => ch_eq c d && g_str_has_prefix s' p'
      end
  end.

Section Sessions.

Context {E : Type} (C : Collab E).
Variable FEATURE_QUEUE : bool.

Definition set_ext (st : State E) (w : E) : State E :=
  mkState w (excomp st) (exhist st).

(** history_rewind *)
Definition history_rewind (st : State E) : State E :=
  match exhist_active (exhist st) with
  | Some _ =>
      mkState (ext st) (excomp st)
              (mkExHist None (exhist_query (exhist st)) None)
  | None => st
  end.

(** The block of history that creates the list when no session is
    active: the first character after the spaces is the prefix and
    selects the type; the list comes from history_get_list, asked with
    the text after the prefix.  [None] is the jump to [failed]. *)
Definition history_fetch (input : bytes) (st : State E)
  : option (State E * GList) :=
  let i := skip_whitespace input in
  let prefix := cstr [peek i] in
  let type :=
    if ch_eq (peek i) ":" then Some VB_INPUT_COMMAND
    else if ch_eq (peek i) "/" || ch_eq (peek i) "?"
         then Some VB_INPUT_SEARCH_FORWARD
         else None in
  match type with
  | None => None
  | Some t =>
      match g_list_of (history_get_list C t (cstr (advance i)) (ext st)) with
      | None => None
      | Some node =>
          Some (mkState (ext st) (excomp st)
                        (mkExHist (Some prefix) (exhist_query (exhist st))
                                  (Some node)),
                node)
      end
  end.

(** The move of the list pointer: to the next node for [prev], to the
    previous one otherwise, and nowhere when there is none. *)
Definition history_move (prev : bool) (node : GList) : GList :=
  if prev
  then match g_list_next node with Some n => n | None => node end
  else match g_list_previous node with Some n => n | None => node end.

(** history.  The entry is written to the input box by vb_echo_force. *)
Definition history (prev : bool) (st : State E) : bool * State E :=
  let input := vb_get_input_text C (ext st) in
  let st1 :=
    match exhist_active (exhist st) with
    | Some node =>
        let current := concat_prefix (exhist_prefix (exhist st)) (g_data node) in
        if negb (strcmp_eq input current) then history_rewind st else st
    | None => st
    end in
  let started :=
    match exhist_active (exhist st1) with
    | Some node => Some (st1, node)
    | None => history_fetch input st1
    end in
  match started with
  | None => (false, st1)
  | Some (st2, node) =>
      let node' := history_move prev node in
      (true,
       mkState (vb_echo_force C VB_MSG_NORMAL false
                  (concat_prefix (exhist_prefix (exhist st2)) (g_data node'))
                  (ext st2))
               (excomp st2)
               (mkExHist (exhist_prefix (exhist st2))
                         (exhist_query (exhist st2)) (Some node')))
  end.

(** completion_select, the callback handed to the completion widget. *)
Definition completion_select (m : bytes) (st : State E) : State E :=
  let c := excomp st in
  let current :=
    if negb (excomp_count c =? 0)%Z
    then concat_prefix (excomp_prefix c) (decimal (excomp_count c) ++ m)
    else concat_prefix (excomp_prefix c) m in
  mkState (vb_set_input_text C current (ext st))
          (mkExComp (excomp_count c) (excomp_prefix c) (Some current))
          (exhist st).

(** The widget calls the callback for the matches it selects. *)
Definition run_callbacks (ms : list bytes) (st : State E) : State E :=
  fold_left (fun s m => completion_select m s) ms st.

(** ex_fill_completion: the names of the table that start with the
    input, all of them when it is empty. *)
Definition ex_fill_completion (input : bytes) : bool * list bytes :=
  if ch_eq (peek input) NUL
  then (true, map cmd_name (commands FEATURE_QUEUE))
  else
    let found :=
      filter (fun n => g_str_has_prefix n (cstr input))
             (map cmd_name (commands FEATURE_QUEUE)) in
    (negb (Nat.eqb (List.length found) 0), found).

Definition set_excomp_prefix (st : State E) (p : bytes) : State E :=
  mkState (ext st)
          (mkExComp (excomp_count (excomp st)) (Some p)
                    (excomp_current (excomp st)))
          (exhist st).

Definition set_excomp_count (st : State E) (n : Z) : State E :=
  mkState (ext st)
          (mkExComp n (excomp_prefix (excomp st))
                    (excomp_current (excomp st)))
          (exhist st).

(** The part of complete that builds the store for a new completion:
    returns [found], [sort], the store and the state. *)
Definition complete_fill (input : bytes) (st : State E)
  : bool * bool * list bytes * State E :=
  if ch_eq (peek input) ":" then
    let i := skip_whitespace (advance input) in
    let '(before_cmdname, arg) := parse_count i arg0 in
    let '(ok, i, arg', w) :=
      parse_command_name C FEATURE_QUEUE before_cmdname arg (ext st) in
    let st := set_ext st w in
    if ok && ch_eq (peek i) " " then
      let st :=
        set_excomp_prefix st
          (cstr (firstn (List.length input - List.length i + 1) input)) in
      let i := skip_whitespace i in
      match code arg' with
      | EX_OPEN | EX_TABOPEN =>
          let '(found, store) :=
            if ch_eq (peek i) "!"
            then bookmark_fill_completion C (cstr (advance i)) (ext st)
            else history_fill_completion C HISTORY_URL (cstr i) (ext st) in
          (found, false, store, st)
      | EX_SET =>
          let '(found, store) := setting_fill_completion C (cstr i) (ext st) in
          (found, true, store, st)
      | EX_BMA =>
          let '(found, store) :=
            bookmark_fill_tag_completion C (cstr i) (ext st) in
          (found, true, store, st)
      | _ => (false, false, [], st)
      end
    else
      let st := set_excomp_count st (count arg') in
      let '(found, store) := ex_fill_completion before_cmdname in
      if found then (true, false, store, set_excomp_prefix st (str ":"))
      else (false, false, store, st)
  else if ch_eq (peek input) "/" || ch_eq (peek input) "?" then
    let '(found, store) :=
      history_fill_completion C HISTORY_SEARCH (cstr (advance input)) (ext st) in
    if found
    then (true, true, store, set_excomp_prefix st (cstr (firstn 1 input)))
    else (false, false, store, st)
  else (false, false, [], st).

(** complete *)
Definition complete (direction : Z) (st : State E) : bool * State E :=
  if (direction =? 0)%Z then (true, set_ext st (completion_clean C (ext st)))
  else
    let input := vb_get_input_text C (ext st) in
    let stepping :=
      in_completion C (ext st) &&
      match excomp_current (excomp st) with
      | Some cur => strcmp_eq input cur
      | None => false
      end in
    if stepping then
      let '(w, ms) := completion_next C (direction <? 0)%Z (ext st) in
      (true, run_callbacks ms (set_ext st w))
    else
      let st :=
        if in_completion C (ext st)
        then set_ext st (completion_clean C (ext st)) else st in
      let '(found, sort, store, st) := complete_fill input st in
      let store := if sort then sort_store C store else store in
      if found then
        let '(w, ms) := completion_create C store (direction <? 0)%Z (ext st) in
        (true, run_callbacks ms (set_ext st w))
      else (true, st).

End Sessions.

(* ------------------------------------------------------------------ *)
(** ** A concrete set of collaborators

    Used to run the functions above on concrete input lines. *)

(** What the concrete collaborators keep. *)
Record Demo : Set := mkDemo {
  d_input     : bytes;                              (* text of the input box *)
  d_uri       : option bytes;                       (* address of the page *)
  d_echoes    : list (MessageType * bool * bytes);  (* messages shown *)
  d_calls     : list ExArg;                         (* handlers called *)
  d_bookmarks : list bytes;
  d_history   : list bytes;                         (* past entries *)
  d_completing : bool;                              (* FLAG_COMPLETION *)
  d_store     : list bytes;                         (* rows of the widget *)
  d_selected  : nat
}.

Definition demo_echo (t : MessageType) (hide : bool) (m : bytes) (w : Demo) : Demo :=
  mkDemo (d_input w) (d_uri w) (d_echoes w ++ [(t, hide, m)]) (d_calls w)
         (d_bookmarks w) (d_history w) (d_completing w) (d_store w)
         (d_selected w).

Definition demo_set_input (m : bytes) (w : Demo) : Demo :=
  mkDemo m (d_uri w) (d_echoes w) (d_calls w) (d_bookmarks w) (d_history w)
         (d_completing w) (d_store w) (d_selected w).

Definition demo_widget (on : bool) (store : list bytes) (sel : nat) (w : Demo) : Demo :=
  mkDemo (d_input w) (d_uri w) (d_echoes w) (d_calls w) (d_bookmarks w)
         (d_history w) on store sel.

Definition bytes_eqb (a b : bytes) : bool :=
  if list_eq_dec ascii_dec a b then true else false.

Definition demo_matching (q : bytes) (w : Demo) : list bytes :=
  filter (fun h => g_str_has_prefix h q) (d_history w).

(** Modelled from the spec: the collaborators of section 6, which are not
    part of ex.c.  The notify-user sink records the message, and the
    forced variant also writes it to the input box; the bookmark store
    removes an address it holds; the history collaborator lists the past
    entries that start with the filter text; the candidate-presentation
    collaborator holds the rows, selects the first (or, backwards, the
    last) on creation, cycles on next and reports each selection to the
    callback; the remaining handlers record the invocation they get. *)
Definition demo : Collab Demo :=
  mkCollab
    demo_echo
    (fun t hide m w => demo_set_input m (demo_echo t hide m w))
    d_uri
    (fun _ => str "/home/user")
    (fun _ => None)
    (fun target w =>
       match target with
       | Some u =>
           (existsb (bytes_eqb u) (d_bookmarks w),
            mkDemo (d_input w) (d_uri w) (d_echoes w) (d_calls w)
                   (filter (fun b => negb (bytes_eqb u b)) (d_bookmarks w))
                   (d_history w) (d_completing w) (d_store w) (d_selected w))
       | None => (false, w)
       end)
    (fun uri _ _ w =>
       match uri with
       | Some u =>
           (true,
            mkDemo (d_input w) (d_uri w) (d_echoes w) (d_calls w)
                   (u :: d_bookmarks w) (d_history w) (d_completing w)
                   (d_store w) (d_selected w))
       | None => (false, w)
       end)
    (fun _ arg w =>
       (true,
        mkDemo (d_input w) (d_uri w) (d_echoes w) (d_calls w ++ [arg])
               (d_bookmarks w) (d_history w) (d_completing w) (d_store w)
               (d_selected w)))
    d_input
    demo_set_input
    (fun _ q w => demo_matching q w)
    d_completing
    (demo_widget false [] 0)
    (fun back w =>
       let n := List.length (d_store w) in
       let sel := if back then (d_selected w + n - 1) mod n
                  else (d_selected w + 1) mod n in
       (demo_widget true (d_store w) sel w, firstn 1 (skipn sel (d_store w))))
    (fun store back w =>
       let sel := if back then List.length store - 1 else 0 in
       (demo_widget true store sel w, firstn 1 (skipn sel store)))
    (fun _ _ => (false, []))
    (fun _ q w => (negb (Nat.eqb (List.length (demo_matching q w)) 0),
                   demo_matching q w))
    (fun _ _ => (false, []))
    (fun _ _ => (false, []))
    (fun store => store).

(** A page is shown, nothing typed, nothing stored. *)
Definition demo0 : Demo :=
  mkDemo [] (Some (str "http://example.org/")) [] [] [] [] false [] 0.

(* ------------------------------------------------------------------ *)
(** ** Notions the specification uses *)

(** A character that can stand inside a command name where one was
    matched: not the terminator, the space or the bang, at which the name
    loop stops. *)
Definition nonsep (c : ascii) : bool :=
  negb (ch_eq c NUL || ch_eq c " " || ch_eq c "!").

(** The text at the cursor starts with a character that ends a name. *)
Definition ends_name (tail : bytes) : bool := negb (nonsep (peek tail)).

(** Specification: the earliest entry, in table order, whose name starts
    with the typed characters [p]; [i] is the index of the head of
    [table]. *)
Fixpoint earliest_with_prefix (table : list ExInfo) (i : nat) (p : bytes)
  : option (nat * ExInfo) :=
  match table with
  | [] => None
  | ci :: more =>
      if g_str_has_prefix (cmd_name ci) p then Some (i, ci)
      else earliest_with_prefix more (S i) p
  end.

(** The characters up to the next space. *)
Fixpoint until_space (s : bytes) : bytes :=
  match s with
  | [] => []
  | c :: r => if ch_eq c " " then [] else c :: until_space r
  end.

(** The characters of a command name as typed: up to the end of the
    input, a space or a bang. *)
Fixpoint typed_name (s : bytes) : bytes :=
  match s with
  | [] => []
  | c :: r =>
      if nonsep c then c :: typed_name r else []
  end.

(** Specification: the token of the "Unknown command" message for the
    text [s] at the cursor: its first word, cut to the size of the name
    array and read as a C string. *)
Definition unknown_token (s : bytes) : bytes :=
  cstr (firstn CMD_LENGTH (until_space s)).

(** The entries of a history list, first to last, whatever node is
    pointed to. *)
Definition g_list_all (n : GList) : list bytes :=
  rev (g_before n) ++ g_data n :: g_after n.

(** The position of the node pointed to. *)
Definition g_list_position (n : GList) : nat := List.length (g_before n).

Definition ExInfo_eq_dec (a b : ExInfo) : {a = b} + {a <> b}.
Proof.
  decide equality.
  - apply Z.eq_dec.
  - decide equality.
  - apply ExCode_eq_dec.
  - apply (list_eq_dec ascii_dec).
Defined.

(** The check behind first-defined-wins, for the first [k] characters
    of the name of entry [X]: the name loop consumes them all, ends with
    a match, and its [first] is the earliest entry with that prefix;
    when the characters are the whole name, that entry is [X]. *)
Definition resolves_first (table : list ExInfo) (X : ExInfo) (k : nat) : bool :=
  let p := firstn k (cmd_name X) in
  match earliest_with_prefix table 0 p,
        name_loop table (peek p) (advance p) [] 0 with
  | Some (i, A), (m, f, _, r) =>
      (0 <? m) && Nat.eqb f i
      && match r with [] => true | _ :: _ => false end
      && (if bytes_eqb p (cmd_name X)
          then (if ExInfo_eq_dec A X then true else false)
          else true)
  | None, _ => false
  end.

Definition table_resolves (table : list ExInfo) : bool :=
  forallb (fun X =>
             forallb (resolves_first table X)
                     (seq 1 (List.length (cmd_name X))))
          table.

(** Names of the table: not empty, at most 16 characters, none of them
    a terminator, a space or a bang. *)
Definition name_ok (n : bytes) : bool :=
  negb (Nat.eqb (List.length n) 0) && (List.length n <=? 16)
  && forallb nonsep n.

(** The text at which parse looks for the command name: the input after
    the prompt characters, the count and the spaces. *)
Definition cursor_at_name (input : bytes) : bytes :=
  skip_whitespace (fst (parse_count (skip_prompt input) arg0)).

(** Reading a result of parse. *)
Definition parsed {E : Type} (r : bool * bytes * ExArg * E) : ExArg :=
  snd (fst r).

Definition cursor {E : Type} (r : bool * bytes * ExArg * E) : bytes :=
  snd (fst (fst r)).

Definition succeeded {E : Type} (r : bool * bytes * ExArg * E) : bool :=
  fst (fst (fst r)).

(** The digits [ds] read onto the value [n]. *)
Definition decimal_onto (ds : bytes) (n : Z) : Z :=
  fold_left (fun a c => (a * 10 + digit_value c)%Z) ds n.

(** The characters at which the loop of parse_rhs stops. *)
Definition ends_rhs (c : ascii) : bool :=
  ch_eq c NUL || ch_eq c "010" || ch_eq c "|".

(** A session of command history started on [:abc], stepped once, after
    which the user edits the input box to [:ab]. *)
Definition typed_abc : State Demo :=
  mkState (mkDemo (str ":abc") None [] [] []
                  [str "abc1"; str "abc2"; str "abd"] false [] 0)
          (mkExComp 0 None None) (mkExHist None None None).

Definition edited_after_step : State Demo :=
  let st := snd (history demo true typed_abc) in
  set_ext st (demo_set_input (str ":ab") (ext st)).

(* ------------------------------------------------------------------ *)
(** ** The other handlers *)

(** [VB_TARGET_CURRENT] and [VB_TARGET_NEW] of main.h *)
Inductive VbTarget : Set := VB_TARGET_CURRENT | VB_TARGET_NEW.

(** The [COMMAND_QUEUE_*] values of command.h *)
Inductive QueueAction : Set :=
| COMMAND_QUEUE_PUSH | COMMAND_QUEUE_UNSHIFT | COMMAND_QUEUE_POP
| COMMAND_QUEUE_CLEAR.

Set Implicit Arguments.

(** What the handlers other than ex_bookmark call outside ex.c.  What
    ex_shellcmd does after the test of its right hand side (the command
    line built from SHELL_CMD, the subprocess and the message shown) is
    kept whole as one collaborator. *)
Record Handlers (E : Type) : Type := mkHandlers {
  vb_eval_script : bytes -> E -> bool * bytes * E;
  webkit_web_frame_print : E -> E;
  map_insert : bytes -> bytes -> ascii -> bool -> E -> E;
  map_delete : bytes -> ascii -> E -> E;
  mode_enter : ascii -> E -> E;
  map_handle_string : bytes -> bool -> E -> E;
  vb_load_uri : VbTarget -> bytes -> E -> bool * E;
  command_queue : QueueAction -> option bytes -> E -> bool * E;
  vb_quit : E -> E;
  command_save : bytes -> E -> bool * E;
  setting_run : bytes -> option bytes -> E -> bool * E;
  shortcut_add : bytes -> bytes -> E -> bool * E;
  shortcut_remove : bytes -> E -> bool * E;
  shortcut_set_default : bytes -> E -> bool * E;
  run_shellcmd : ExArg -> E -> bool * E
}.

Unset Implicit Arguments.

(** [p = strchr(s, c)] followed by [*p++ = 0]: the C string before the
    first [c] and the bytes after it; [None] when [c] does not occur
    before the terminator. *)
Fixpoint strchr_split (s : bytes) (c : ascii) : option (bytes * bytes) :=
  match s with
  | [] => None
  | d :: r =>
      if ch_eq d NUL then None
      else if ch_eq d c then Some ([], r)
      else match strchr_split r c with
           | Some (a, b) => Some (d :: a, b)
           | None => None
           end
  end.

Section Handlers.

Context {E : Type} (C : Collab E) (H : Handlers E).

(** ex_eval *)
Definition ex_eval (arg : ExArg) (w : E) : bool * E :=
  if Nat.eqb (List.length (rhs arg)) 0 then (false, w)
  else
    let '(success, value, w1) := vb_eval_script H (cstr (rhs arg)) w in
    if success then (true, vb_echo C VB_MSG_NORMAL false value w1)
    else (false, vb_echo C VB_MSG_ERROR true value w1).

(** ex_hardcopy *)
Definition ex_hardcopy (arg : ExArg) (w : E) : bool * E :=
  (true, webkit_web_frame_print H w).

(** ex_map: the first character of the command name is the mode, the
    second tells whether the mapping is a noremap. *)
Definition ex_map (arg : ExArg) (w : E) : bool * E :=
  if Nat.eqb (List.length (lhs arg)) 0 || Nat.eqb (List.length (rhs arg)) 0
  then (false, w)
  else (true,
        map_insert H (cstr (lhs arg)) (cstr (rhs arg)) (nth 0 (name arg) NUL)
                   (negb (ch_eq (nth 1 (name arg) NUL) "n")) w).

(** ex_unmap *)
Definition ex_unmap (arg : ExArg) (w : E) : bool * E :=
  if Nat.eqb (List.length (lhs arg)) 0 then (false, w)
  else
    (true,
     if ExCode_eq_dec (code arg) EX_NUNMAP
     then map_delete H (cstr (lhs arg)) "n" w
     else if ExCode_eq_dec (code arg) EX_CUNMAP
          then map_delete H (cstr (lhs arg)) "c" w
          else map_delete H (cstr (lhs arg)) "i" w).

(** ex_normal *)
Definition ex_normal (arg : ExArg) (w : E) : bool * E :=
  (true,
   map_handle_string H (cstr (lhs arg)) (negb (bang arg)) (mode_enter H "n" w)).

(** ex_open *)
Definition ex_open (arg : ExArg) (w : E) : bool * E :=
  if ExCode_eq_dec (code arg) EX_TABOPEN
  then vb_load_uri H VB_TARGET_NEW (cstr (rhs arg)) w
  else vb_load_uri H VB_TARGET_CURRENT (cstr (rhs arg)) w.

(** ex_queue (FEATURE_QUEUE): without right hand side the address is
    left NULL. *)
Definition ex_queue (arg : ExArg) (w : E) : bool * E :=
  let action :=
    match code arg with
    | EX_QPUSH => Some COMMAND_QUEUE_PUSH
    | EX_QUNSHIFT => Some COMMAND_QUEUE_UNSHIFT
    | EX_QPOP => Some COMMAND_QUEUE_POP
    | EX_QCLEAR => Some COMMAND_QUEUE_CLEAR
    | _ => None
    end in
  match action with
  | None => (false, w)
  | Some a =>
      command_queue H a
        (if negb (Nat.eqb (List.length (rhs arg)) 0)
         then Some (cstr (rhs arg)) else None) w
  end.

(** ex_quit *)
Definition ex_quit (arg : ExArg) (w : E) : bool * E := (true, vb_quit H w).

(** ex_save *)
Definition ex_save (arg : ExArg) (w : E) : bool * E :=
  command_save H (cstr (rhs arg)) w.

(** ex_set: the right hand side is cut at its first [=]. *)
Definition ex_set (arg : ExArg) (w : E) : bool * E :=
  if Nat.eqb (List.length (rhs arg)) 0 then (false, w)
  else match strchr_split (rhs arg) "=" with
       | Some (param, value) => setting_run H param (Some (cstr value)) w
       | None => setting_run H (cstr (rhs arg)) None w
       end.

(** ex_shellcmd: without a right hand side nothing is run. *)
Definition ex_shellcmd (arg : ExArg) (w : E) : bool * E :=
  if ch_eq (peek (rhs arg)) NUL then (false, w)
  else run_shellcmd H arg w.

(** ex_shortcut *)
Definition ex_shortcut (arg : ExArg) (w : E) : bool * E :=
  match code arg with
  | EX_SCA =>
      if negb (Nat.eqb (List.length (rhs arg)) 0) then
        match strchr_split (rhs arg) "=" with
        | Some (key, uri) => shortcut_add H key (cstr uri) w
        | None => (false, w)
        end
      else (false, w)
  | EX_SCR => shortcut_remove H (cstr (rhs arg)) w
  | EX_SCD => shortcut_set_default H (cstr (rhs arg)) w
  | _ => (false, w)
  end.

(** The handler a table entry names. *)
Definition handler_of (f : ExFunc) (arg : ExArg) (w : E) : bool * E :=
  match f with
  | F_bookmark => ex_bookmark C arg w
  | F_eval => ex_eval arg w
  | F_hardcopy => ex_hardcopy arg w
  | F_map => ex_map arg w
  | F_unmap => ex_unmap arg w
  | F_normal => ex_normal arg w
  | F_open => ex_open arg w
  | F_queue => ex_queue arg w
  | F_quit => ex_quit arg w
  | F_save => ex_save arg w
  | F_set => ex_set arg w
  | F_shellcmd => ex_shellcmd arg w
  | F_shortcut => ex_shortcut arg w
  end.

(** The collaborators [C] with the handlers above in the place of
    [other_handler]: execute then calls the handlers of ex.c. *)
Definition with_handlers : Collab E :=
  mkCollab (vb_echo C) (vb_echo_force C) (GET_URI C) (g_get_home_dir C)
           (webkit_web_view_get_title C) (bookmark_remove C) (bookmark_add C)
           handler_of
           (vb_get_input_text C) (vb_set_input_text C) (history_get_list C)
           (in_completion C) (completion_clean C) (completion_next C)
           (completion_create C) (bookmark_fill_completion C)
           (history_fill_completion C) (setting_fill_completion C)
           (bookmark_fill_tag_completion C) (sort_store C).

End Handlers.

(** Calls that reach the collaborators, as the recording collaborators
    below keep them. *)
Inductive Call : Set :=
| Echo (t : MessageType) (hide : bool) (m : bytes)
| EvalScript (script : bytes)
| Print
| MapInsert (l r : bytes) (mode : ascii) (remap : bool)
| MapDelete (l : bytes) (mode : ascii)
| ModeEnter (mode : ascii)
| MapHandleString (keys : bytes) (use_map : bool)
| LoadUri (t : VbTarget) (uri : bytes)
| Queue (a : QueueAction) (uri : option bytes)
| Quit
| Save (path : bytes)
| SettingRun (param : bytes) (value : option bytes)
| ShortcutAdd (key uri : bytes)
| ShortcutRemove (key : bytes)
| ShortcutSetDefault (key : bytes)
| Shellcmd (line : bytes)
| BookmarkRemove (uri : option bytes)
| BookmarkAdd (uri : option bytes) (tags : bytes).

(** Collaborators that append each call to a log and succeed; the page
    is http://example.org/ and nothing completes. *)
Definition recording : Collab (list Call) :=
  mkCollab
    (fun t hide m w => w ++ [Echo t hide m])
    (fun t hide m w => w ++ [Echo t hide m])
    (fun _ => Some (str "http://example.org/"))
    (fun _ => str "/home/user")
    (fun _ => None)
    (fun u w => (true, w ++ [BookmarkRemove u]))
    (fun u _ tags w => (true, w ++ [BookmarkAdd u tags]))
    (fun _ _ w => (true, w))
    (fun _ => [])
    (fun _ w => w)
    (fun _ _ _ => [])
    (fun _ => false)
    (fun w => w)
    (fun _ w => (w, []))
    (fun _ _ w => (w, []))
    (fun _ _ => (false, []))
    (fun _ _ _ => (false, []))
    (fun _ _ => (false, []))
    (fun _ _ => (false, []))
    (fun store => store).

Definition recording_handlers : Handlers (list Call) :=
  mkHandlers
    (fun s w => (true, s, w ++ [EvalScript s]))
    (fun w => w ++ [Print])
    (fun l r m remap w => w ++ [MapInsert l r m remap])
    (fun l m w => w ++ [MapDelete l m])
    (fun m w => w ++ [ModeEnter m])
    (fun k u w => w ++ [MapHandleString k u])
    (fun t u w => (true, w ++ [LoadUri t u]))
    (fun a u w => (true, w ++ [Queue a u]))
    (fun w => w ++ [Quit])
    (fun p w => (true, w ++ [Save p]))
    (fun p v w => (true, w ++ [SettingRun p v]))
    (fun k u w => (true, w ++ [ShortcutAdd k u]))
    (fun k w => (true, w ++ [ShortcutRemove k]))
    (fun k w => (true, w ++ [ShortcutSetDefault k]))
    (fun arg w => (true, w ++ [Shellcmd (cstr (rhs arg))])).

(** ex.c run on the recording collaborators. *)
Definition recorded : Collab (list Call) :=
  with_handlers recording recording_handlers.

(** Text that the loop of parse_rhs copies as it is: no terminator, no
    newline, no bar, no backslash and, where the entry is marked
    expandable, no placeholder. *)
Definition plain_rhs (fl : Z) (c : ascii) : bool :=
  negb (ends_rhs c) && negb (ch_eq c "\")
  && negb (has_flag fl EX_FLAG_EXP && (ch_eq c "%" || ch_eq c "~")).

(** Text that the loop of parse_lhs copies as it is. *)
Definition plain_lhs (c : ascii) : bool :=
  negb (ch_eq c NUL || ch_eq c " ") && negb (ch_eq c "\").

(** The array of parse_command_name where the failure branch stores the
    closing terminator at [cmd[len]]. *)
Definition unknown_array (fq : bool) (input : bytes) : bytes :=
  let '(_, _, buf, input1) :=
    name_loop (commands fq) (peek input) (advance input) [] 0 in
  snd (error_token (CMD_LENGTH - List.length buf) input1 buf).

(** The mode a map command works on, by its code. *)
Definition map_mode (c : ExCode) : ascii :=
  match c with
  | EX_CMAP | EX_CNOREMAP | EX_CUNMAP => "c"
  | EX_IMAP | EX_INOREMAP | EX_IUNMAP => "i"
  | _ => "n"
  end.

(** Whether the map command of that code lets the mapped keys be mapped
    again. *)
Definition map_remaps (c : ExCode) : bool :=
  match c with
  | EX_CNOREMAP | EX_INOREMAP | EX_NNOREMAP => false
  | _ => true
  end.

(** The commands whose handler returns false, before any call, when the
    argument it needs is empty: eval, the map and unmap commands, set,
    shellcmd and shortcut-add. *)
Definition needs_argument (X : ExInfo) : bool :=
  match cmd_func X with
  | F_eval | F_map | F_unmap | F_set | F_shellcmd => true
  | F_shortcut => if ExCode_eq_dec (cmd_code X) EX_SCA then true else false
  | _ => false
  end.

(** Names start with a character that is no prompt character, no space,
    no digit and no terminator. *)
Definition plain_start (n : bytes) : bool :=
  negb (ch_eq (peek n) ":") && negb (ch_eq (peek n) " ")
  && negb (isdigit (peek n)) && negb (ch_eq (peek n) NUL).

(** The fields of the invocation that a step leaves alone. *)
Definition same_but_count (a b : ExArg) : Prop :=
  idx a = idx b /\ name a = name b /\ code a = code b /\ bang a = bang b
  /\ lhs a = lhs b /\ rhs a = rhs b /\ flags a = flags b.

(** Specification: what the text [t] of an expandable right hand side
    stands for, read from left to right, with the page at [uri] and the
    home directory [home].  A backslash is kept with the character after
    it, or dropped before a bar; a [%] stands for the address of the
    page (for nothing when there is none); a [~] before a slash stands
    for the home directory, and before any other character it is taken
    away together with that character. *)
Fixpoint expanded (uri : option bytes) (home : bytes) (t : bytes) : bytes :=
  match t with
  | [] => []
  | c :: r =>
      if ch_eq c "\" then
        match r with
        | c2 :: r2 =>
            (if ch_eq c2 "|" then [c2] else [c; c2]) ++ expanded uri home r2
        | [] => [c]
        end
      else if ch_eq c "%" then
        match uri with Some u => u | None => [] end ++ expanded uri home r
      else if ch_eq c "~" then
        match r with
        | c2 :: r2 =>
            (if ch_eq c2 "/" then home ++ [c2] else []) ++ expanded uri home r2
        | [] => []
        end
      else c :: expanded uri home r
  end.

(** Text of a right hand side that the loop of parse_rhs reads to its
    end and no further: it holds no terminator, and read from left to
    right no newline or bar stands where a character is looked at, and
    every backslash and every [~] that is looked at has a character
    after it. *)
Fixpoint closed_text (t : bytes) : bool :=
  match t with
  | [] => true
  | c :: r =>
      negb (ends_rhs c)
      && if ch_eq c "\" || ch_eq c "~"
         then match r with
              | c2 :: r2 => negb (ch_eq c2 NUL) && closed_text r2
              | [] => false
              end
         else closed_text r
  end.


(** A character of a line on which the cursor cannot leave the string:
    not the terminator, and neither a backslash nor a [~], after which
    parse_lhs, parse_rhs and expand_input move on without a look at
    what they step over. *)
Definition harmless (c : ascii) : bool :=
  negb (ch_eq c NUL) && negb (ch_eq c "\") && negb (ch_eq c "~").

(* ------------------------------------------------------------------ *)
(** ** Characters and prefixes *)

Arguments ch_eq : simpl never.
Arguments isdigit : simpl never.
Arguments digit_value : simpl never.
Arguments int_wrap : simpl never.

Lemma ch_eq_true (c d : ascii) : ch_eq c d = true <-> c = d.
Proof. apply Ascii.eqb_eq. Qed.

Lemma ch_eq_refl (c : ascii) : ch_eq c c = true.
Proof. apply Ascii.eqb_refl. Qed.

Lemma has_prefix_firstn (p : bytes) : forall s,
  g_str_has_prefix s p = true ->
  p = firstn (List.length p) s /\ List.length p <= List.length s.
Proof.
  induction p as [|c p IH]; intros s H; simpl in *.
  - split; [reflexivity | lia].
  - destruct s as [|d s]; [discriminate|].
    apply andb_prop in H. destruct H as [Hc Hp].
    apply ch_eq_true in Hc. subst d.
    destruct (IH _ Hp) as [Heq Hlen]. simpl.
    split; [f_equal; exact Heq | lia].
Qed.

(* ------------------------------------------------------------------ *)
(** ** Command names: first defined wins (C2) *)

Lemma earliest_with_prefix_spec (p : bytes) (table : list ExInfo) :
  forall base i A,
    earliest_with_prefix table base p = Some (i, A) ->
    base <= i /\ nth_error table (i - base) = Some A
    /\ g_str_has_prefix (cmd_name A) p = true
    /\ (forall j Y, j < i - base -> nth_error table j = Some Y ->
                    g_str_has_prefix (cmd_name Y) p = false).
Proof.
  induction table as [|ci more IH]; intros base i A H; simpl in H.
  - discriminate.
  - destruct (g_str_has_prefix (cmd_name ci) p) eqn:Hp.
    + inversion H; subst. rewrite Nat.sub_diag. simpl.
      repeat split; auto. intros j Y Hj. lia.
    + apply IH in H. destruct H as (Hle & Hnth & HA & Hmin).
      replace (i - base) with (S (i - S base)) by lia. simpl.
      repeat split; auto; try lia.
      intros [|j] Y Hj HY; simpl in HY.
      * inversion HY; subst. exact Hp.
      * apply (Hmin j Y); [lia | exact HY].
Qed.

Lemma name_loop_nil (table : list ExInfo) (c : ascii) (buf : bytes) (first : nat) :
  name_loop table c [] buf first =
  let '(first', matches) :=
    scan (skipn first table) first (buf ++ [c]) (List.length (buf ++ [c])) c
         first 0 in
  (matches, first', buf ++ [c], []).
Proof. reflexivity. Qed.

Lemma name_loop_cons (table : list ExInfo) (c c' : ascii) (rest buf : bytes)
      (first : nat) :
  name_loop table c (c' :: rest) buf first =
  let '(first', matches) :=
    scan (skipn first table) first (buf ++ [c]) (List.length (buf ++ [c])) c
         first 0 in
  if (0 <? matches) && negb (ch_eq c' NUL) && negb (ch_eq c' " ")
     && negb (ch_eq c' "!")
  then name_loop table c' rest (buf ++ [c]) first'
  else (matches, first', buf ++ [c], c' :: rest).
Proof. reflexivity. Qed.

(** What follows the name does not change the loop when it starts with
    a character that ends a name. *)
Lemma name_loop_app (table : list ExInfo) (tail : bytes) (rest : bytes) :
  ends_name tail = true ->
  forall c buf first,
    name_loop table c (rest ++ tail) buf first =
    let '(m, f, b, r) := name_loop table c rest buf first in
    (m, f, b, r ++ tail).
Proof.
  intros Ht. induction rest as [|c' rest IH]; intros c buf first.
  - rewrite name_loop_nil. simpl app.
    destruct tail as [|t tail'].
    + rewrite name_loop_nil. destruct (scan _ _ _ _ _ _ _); reflexivity.
    + rewrite name_loop_cons. destruct (scan _ _ _ _ _ _ _) as [f m].
      unfold ends_name, nonsep in Ht. simpl in Ht.
      destruct (ch_eq t NUL), (ch_eq t " "), (ch_eq t "!");
        simpl in Ht; try discriminate;
        rewrite ?andb_false_r; reflexivity.
  - simpl app. rewrite !name_loop_cons.
    destruct (scan _ _ _ _ _ _ _) as [f m].
    destruct ((0 <? m) && negb (ch_eq c' NUL) && negb (ch_eq c' " ")
              && negb (ch_eq c' "!")).
    + apply IH.
    + reflexivity.
Qed.

Lemma table_resolves_ok (fq : bool) : table_resolves (commands fq) = true.
Proof. destruct fq; vm_compute; reflexivity. Qed.

Lemma resolves_first_ok (fq : bool) (X : ExInfo) (p : bytes) :
  In X (commands fq) -> g_str_has_prefix (cmd_name X) p = true -> p <> [] ->
  resolves_first (commands fq) X (List.length p) = true
  /\ firstn (List.length p) (cmd_name X) = p.
Proof.
  intros HX Hp Hne.
  destruct (has_prefix_firstn _ _ Hp) as [Heq Hlen].
  split; [|symmetry; exact Heq].
  pose proof (table_resolves_ok fq) as Hall.
  unfold table_resolves in Hall.
  rewrite forallb_forall in Hall. specialize (Hall X HX).
  rewrite forallb_forall in Hall. apply Hall.
  apply in_seq. destruct p; [congruence | simpl in *; lia].
Qed.

(** C2.  Resolution of a command name is first-defined-wins.  Let [p] be
    the characters typed, not empty, followed by a character that ends a
    name (end of input, space or bang), and let [p] start the name of
    some entry [X] of the table.  Then parse_command_name succeeds, shows
    no message, leaves the cursor right after [p] and resolves to the
    entry [A] at the least index [i] among the entries whose name starts
    with [p]: the invocation it returns holds [i] as index and the name,
    the code and the flags of [A], its other fields being as they were.
    When [p] is the whole name of [X], that entry is [X] itself,
    whatever longer names come after it.  (A bar or a newline
    does not end a name: the name loop stops only at the end of the
    input, a space or a bang.) *)
Theorem command_name_first_defined_wins
        {E : Type} (C : Collab E) (fq : bool) (X : ExInfo) (p tail : bytes)
        (arg : ExArg) (w : E) :
  In X (commands fq) ->
  g_str_has_prefix (cmd_name X) p = true ->
  p <> [] ->
  ends_name tail = true ->
  exists i A,
    nth_error (commands fq) i = Some A
    /\ g_str_has_prefix (cmd_name A) p = true
    /\ (forall j Y, j < i -> nth_error (commands fq) j = Some Y ->
                    g_str_has_prefix (cmd_name Y) p = false)
    /\ parse_command_name C fq (p ++ tail) arg w
       = (true, tail,
          mkExArg (count arg) i (cmd_name A) (cmd_code A) (bang arg)
                  (lhs arg) (rhs arg) (cmd_flags A),
          w)
    /\ (p = cmd_name X -> A = X).
Proof.
  intros HX Hp Hne Ht.
  destruct (resolves_first_ok fq X p HX Hp Hne) as [Hr Hfirst].
  unfold resolves_first in Hr. rewrite Hfirst in Hr.
  destruct (earliest_with_prefix (commands fq) 0 p) as [[i A]|] eqn:He;
    [|discriminate].
  destruct (name_loop (commands fq) (peek p) (advance p) [] 0)
    as [[[m f] b] r] eqn:Hl.
  apply andb_prop in Hr. destruct Hr as [Hr Hsame].
  apply andb_prop in Hr. destruct Hr as [Hr Hnil].
  apply andb_prop in Hr. destruct Hr as [Hm Hf].
  apply Nat.eqb_eq in Hf. subst f.
  destruct r as [|? ?]; [|discriminate].
  apply earliest_with_prefix_spec in He.
  destruct He as (_ & Hnth & HA & Hmin). rewrite Nat.sub_0_r in Hnth, Hmin.
  exists i, A. repeat split; auto.
  - destruct p as [|c p']; [congruence|].
    unfold parse_command_name. simpl peek in *. simpl advance in *.
    rewrite (name_loop_app _ _ _ Ht). rewrite Hl.
    apply Nat.ltb_lt in Hm.
    destruct (Nat.eqb_spec m 0) as [Hz|_]; [lia|].
    rewrite (nth_error_nth _ _ _ Hnth). reflexivity.
  - intros Hwhole. unfold bytes_eqb in Hsame.
    destruct (list_eq_dec ascii_dec p (cmd_name X)); [|contradiction].
    destruct (ExInfo_eq_dec A X); [assumption | discriminate].
Qed.

(** C2 at ["qp x"] with the queue commands built in: qpop, defined
    before qpush, is the entry found. *)
Lemma command_name_first_defined_wins_witness :
  exists i A,
    nth_error (commands true) i = Some A
    /\ g_str_has_prefix (cmd_name A) (str "qp") = true
    /\ (forall j Y, j < i -> nth_error (commands true) j = Some Y ->
                    g_str_has_prefix (cmd_name Y) (str "qp") = false)
    /\ parse_command_name demo true (str "qp" ++ str " x") arg0 demo0
       = (true, str " x",
          mkExArg (count arg0) i (cmd_name A) (cmd_code A) (bang arg0)
                  (lhs arg0) (rhs arg0) (cmd_flags A),
          demo0)
    /\ (str "qp" = cmd_name (cmd "qpush" EX_QPUSH F_queue EX_FLAG_RHS) ->
        A = cmd "qpush" EX_QPUSH F_queue EX_FLAG_RHS).
Proof.
  apply (@command_name_first_defined_wins Demo demo true
           (cmd "qpush" EX_QPUSH F_queue EX_FLAG_RHS) (str "qp") (str " x")
           arg0 demo0).
  - simpl. tauto.
  - reflexivity.
  - discriminate.
  - reflexivity.
Defined.

(* ------------------------------------------------------------------ *)
(** ** Unknown command names (C6) *)

Lemma nonsep_not_NUL (c : ascii) : nonsep c = true -> ch_eq c NUL = false.
Proof.
  unfold nonsep. destruct (ch_eq c NUL); [discriminate | reflexivity].
Qed.

Lemma nonsep_not_space (c : ascii) : nonsep c = true -> ch_eq c " " = false.
Proof.
  unfold nonsep. destruct (ch_eq c NUL), (ch_eq c " "); simpl;
    try discriminate; reflexivity.
Qed.

Lemma in_skipn {A : Type} (x : A) : forall n l, In x (skipn n l) -> In x l.
Proof.
  induction n as [|n IH]; intros [|a l] H; simpl in *; auto.
Qed.

Lemma cstr_absorbs (b x : bytes) : cstr (b ++ NUL :: x) = cstr b.
Proof.
  induction b as [|c b IH]; simpl.
  - reflexivity.
  - destruct (ch_eq c NUL); [reflexivity | f_equal; exact IH].
Qed.

(** What one walk over the table found. *)
Lemma scan_sound (buf : bytes) (len : nat) (c : ascii) :
  forall cmds i first m f' m',
    scan cmds i buf len c first m = (f', m') ->
    m <= m'
    /\ (m < m' ->
        exists X, In X cmds
          /\ ((1 <? len) = false
              \/ strncmp_eq (cmd_name X) buf (len - 1) = true)
          /\ ch_eq (nth (len - 1) (cmd_name X) NUL) c = true).
Proof.
  induction cmds as [|ci more IH]; intros i first m f' m' H; simpl in H.
  - inversion H; subst. split; lia.
  - destruct ((1 <? len) && negb (strncmp_eq (cmd_name ci) buf (len - 1)))
      eqn:Hbreak.
    + inversion H; subst. split; lia.
    + destruct (ch_eq (nth (len - 1) (cmd_name ci) NUL) c) eqn:Hc.
      * apply IH in H. destruct H as [Hle _]. split; [lia|].
        intros _. exists ci. split; [left; reflexivity|]. split; [|exact Hc].
        destruct (1 <? len); [right | left; reflexivity].
        simpl in Hbreak. destruct (strncmp_eq _ _ _); [reflexivity|discriminate].
      * apply IH in H. destruct H as [Hle Hex]. split; [exact Hle|].
        intros Hlt. destruct (Hex Hlt) as (X & HX & Hrest).
        exists X. split; [right; exact HX | exact Hrest].
Qed.

Lemma strncmp_eq_firstn (buf : bytes) : forall n extra,
  forallb nonsep buf = true ->
  strncmp_eq n (buf ++ extra) (List.length buf) = true ->
  firstn (List.length buf) n = buf.
Proof.
  induction buf as [|a buf IH]; intros n extra Hb H; simpl in *.
  - reflexivity.
  - apply andb_prop in Hb. destruct Hb as [Ha Hb].
    apply nonsep_not_NUL in Ha.
    destruct n as [|d n]; simpl in H.
    + unfold ch_eq in *. rewrite Ascii.eqb_sym in Ha. rewrite Ha in H.
      discriminate.
    + destruct (ch_eq d a) eqn:Hd; [|discriminate].
      apply ch_eq_true in Hd. subst d. rewrite Ha in H.
      f_equal. eapply IH; eauto.
Qed.

Lemma prefix_build (c : ascii) (buf : bytes) : forall n,
  firstn (List.length buf) n = buf ->
  ch_eq (nth (List.length buf) n NUL) c = true ->
  ch_eq c NUL = false ->
  g_str_has_prefix n (buf ++ [c]) = true.
Proof.
  induction buf as [|a buf IH]; intros n Hf Hn Hc; simpl in *.
  - destruct n as [|d n]; simpl in Hn.
    + unfold ch_eq in *. rewrite Ascii.eqb_sym in Hn. congruence.
    + apply ch_eq_true in Hn. subst d. cbn [g_str_has_prefix].
      rewrite ch_eq_refl. destruct n; reflexivity.
  - destruct n as [|d n]; [discriminate|].
    inversion Hf. cbn [g_str_has_prefix]. rewrite ch_eq_refl. simpl.
    rewrite H1. apply IH; auto.
Qed.

Section NameLoop.

Variable table : list ExInfo.
Hypothesis table_ok : forallb name_ok (map cmd_name table) = true.

Lemma table_name_ok (X : ExInfo) : In X table -> name_ok (cmd_name X) = true.
Proof.
  intros HX. rewrite forallb_forall in table_ok.
  apply table_ok. apply in_map. exact HX.
Qed.

(** A round of the name loop that ends with a match: the character read
    can stand in a name, and what was copied so far starts the name of
    an entry. *)
Lemma scan_match (buf : bytes) (c : ascii) (first f' m : nat) :
  forallb nonsep buf = true ->
  buf = [] \/ nonsep c = true ->
  scan (skipn first table) first (buf ++ [c]) (List.length (buf ++ [c])) c
       first 0 = (f', m) ->
  0 < m ->
  nonsep c = true
  /\ exists X, In X table /\ g_str_has_prefix (cmd_name X) (buf ++ [c]) = true.
Proof.
  intros Hbuf Hc Hscan Hm.
  apply scan_sound in Hscan. destruct Hscan as [_ Hex].
  destruct (Hex Hm) as (X & HX & Hcmp & Hnth). clear Hex.
  apply in_skipn in HX.
  pose proof (table_name_ok X HX) as Hok. unfold name_ok in Hok.
  apply andb_prop in Hok. destruct Hok as [Hok Hchars].
  apply andb_prop in Hok. destruct Hok as [Hne _].
  rewrite length_app in Hcmp, Hnth. simpl in Hcmp, Hnth.
  replace (List.length buf + 1 - 1) with (List.length buf) in * by lia.
  assert (Hc' : nonsep c = true).
  { destruct Hc as [Hnil | Hc]; [|exact Hc]. subst buf. simpl in Hnth.
    destruct (cmd_name X) as [|d n]; [discriminate|]. simpl in *.
    apply andb_prop in Hchars. destruct Hchars as [Hd _].
    apply ch_eq_true in Hnth. subst d. exact Hd. }
  split; [exact Hc'|]. exists X. split; [exact HX|].
  apply prefix_build; [|exact Hnth|apply nonsep_not_NUL, Hc'].
  destruct Hcmp as [Hlen | Hcmp].
  - apply Nat.ltb_ge in Hlen.
    destruct buf; [reflexivity | simpl in Hlen; lia].
  - eapply strncmp_eq_firstn; eauto.
Qed.

Lemma prefix_length_16 (X : ExInfo) (b : bytes) :
  In X table -> g_str_has_prefix (cmd_name X) b = true -> List.length b <= 16.
Proof.
  intros HX Hp. apply has_prefix_firstn in Hp. destruct Hp as [_ Hlen].
  pose proof (table_name_ok X HX) as Hok. unfold name_ok in Hok.
  apply andb_prop in Hok. destruct Hok as [Hok _].
  apply andb_prop in Hok. destruct Hok as [_ Hle].
  apply Nat.leb_le in Hle. lia.
Qed.

(** The name loop, whatever its outcome: the array holds at most 17
    characters, and the array followed by the rest of the word under the
    cursor is the word the loop started on.  When it ends with a match,
    the array holds the name as typed, and an entry starts with it. *)
Lemma name_loop_inv (rest : bytes) : forall c buf first m f b r,
  forallb nonsep buf = true ->
  List.length buf <= 16 ->
  buf = [] \/ nonsep c = true ->
  name_loop table c rest buf first = (m, f, b, r) ->
  List.length b <= 17
  /\ b ++ until_space r = buf ++ c :: until_space rest
  /\ (0 < m ->
      b = buf ++ typed_name (c :: rest)
      /\ nonsep c = true
      /\ exists X, In X table /\ g_str_has_prefix (cmd_name X) b = true).
Proof.
  induction rest as [|c' rest IH]; intros c buf first m f b r Hbuf Hlen Hc H.
  - rewrite name_loop_nil in H.
    destruct (scan _ _ _ _ _ _ _) as [f1 m1] eqn:Hscan.
    inversion H; subst. clear H.
    split; [rewrite length_app; simpl; lia|].
    split; [rewrite <- app_assoc; reflexivity|].
    intros Hm. destruct (scan_match _ _ _ _ _ Hbuf Hc Hscan Hm) as [Hc' HX].
    simpl. rewrite Hc'. auto.
  - rewrite name_loop_cons in H.
    destruct (scan _ _ _ _ _ _ _) as [f1 m1] eqn:Hscan.
    destruct ((0 <? m1) && negb (ch_eq c' NUL) && negb (ch_eq c' " ")
              && negb (ch_eq c' "!")) eqn:Hgo.
    + apply andb_prop in Hgo. destruct Hgo as [Hgo Hbang].
      apply andb_prop in Hgo. destruct Hgo as [Hgo Hspace].
      apply andb_prop in Hgo. destruct Hgo as [Hm1 Hnul].
      apply Nat.ltb_lt in Hm1.
      destruct (scan_match _ _ _ _ _ Hbuf Hc Hscan Hm1) as [Hc' (X & HX & HpX)].
      assert (Hc2 : nonsep c' = true).
      { unfold nonsep. destruct (ch_eq c' NUL), (ch_eq c' " "), (ch_eq c' "!");
          simpl in *; congruence. }
      apply IH in H.
      * destruct H as (Hb & Happ & Hmatch).
        split; [exact Hb|]. split.
        { rewrite Happ, <- app_assoc. simpl.
          rewrite (nonsep_not_space _ Hc2). reflexivity. }
        intros Hm. destruct (Hmatch Hm) as (Hbeq & _ & HY).
        split; [|split; [exact Hc'|exact HY]].
        rewrite Hbeq, <- app_assoc. simpl. rewrite Hc', Hc2. reflexivity.
      * rewrite forallb_app, Hbuf. simpl. rewrite Hc'. reflexivity.
      * apply (prefix_length_16 X); assumption.
      * right. exact Hc2.
    + inversion H; subst. clear H.
      split; [rewrite length_app; simpl; lia|].
      split; [rewrite <- app_assoc; reflexivity|].
      intros Hm. destruct (scan_match _ _ _ _ _ Hbuf Hc Hscan Hm) as [Hc' HX].
      split; [|split; [exact Hc'|exact HX]].
      simpl. rewrite Hc'.
      apply Nat.ltb_lt in Hm. rewrite Hm in Hgo. simpl in Hgo.
      unfold nonsep.
      destruct (ch_eq c' NUL), (ch_eq c' " "), (ch_eq c' "!");
        simpl in *; congruence.
Qed.

End NameLoop.

Lemma commands_names_ok (fq : bool) :
  forallb name_ok (map cmd_name (commands fq)) = true.
Proof. destruct fq; vm_compute; reflexivity. Qed.

(** The copy loop of the failure branch, read as a C string. *)
Lemma error_token_cstr : forall room input buf i' b',
  error_token room input buf = (i', b') ->
  cstr b' = cstr (firstn (List.length buf + room) (buf ++ until_space input)).
Proof.
  induction room as [|k IH]; intros input buf i' b' H; simpl in H.
  - inversion H; subst. rewrite Nat.add_0_r, firstn_app, Nat.sub_diag.
    rewrite firstn_all. simpl. rewrite app_nil_r. reflexivity.
  - destruct (ch_eq (peek input) " ") eqn:Hsp.
    + injection H as Hi Hb. subst i' b'.
      destruct input as [|c rest]; [discriminate|].
      simpl in Hsp. simpl. rewrite Hsp, app_nil_r.
      rewrite firstn_all2 by lia. reflexivity.
    + apply IH in H. rewrite H. rewrite length_app. simpl.
      replace (List.length buf + 1 + k) with (List.length buf + S k) by lia.
      destruct input as [|c rest]; simpl in *.
      * rewrite !app_nil_r.
        rewrite firstn_all2 by (rewrite length_app; simpl; lia).
        rewrite firstn_all2 by lia.
        apply (cstr_absorbs buf []).
      * rewrite Hsp, <- app_assoc. reflexivity.
Qed.

Lemma typed_name_peek (i : bytes) : typed_name (peek i :: advance i) = typed_name i.
Proof. destruct i; reflexivity. Qed.

Lemma until_space_peek (i : bytes) :
  ch_eq (peek i) " " = false ->
  cstr (firstn CMD_LENGTH (peek i :: until_space (advance i))) = unknown_token i.
Proof.
  unfold unknown_token. destruct i as [|c r]; simpl; intros H.
  - reflexivity.
  - rewrite H. reflexivity.
Qed.

Lemma skip_whitespace_no_space (i : bytes) :
  ch_eq (peek (skip_whitespace i)) " " = false.
Proof.
  induction i as [|c r IH]; simpl.
  - reflexivity.
  - destruct (ch_eq c NUL) eqn:Hn; simpl.
    + apply ch_eq_true in Hn. subst c. reflexivity.
    + destruct (ch_eq c " ") eqn:Hs; [exact IH | exact Hs].
Qed.

Lemma parse_count_loop_cursor (i : bytes) : forall n n',
  fst (parse_count_loop i n) = fst (parse_count_loop i n').
Proof.
  induction i as [|c r IH]; intros n n'; simpl.
  - reflexivity.
  - destruct (isdigit c); [apply IH | reflexivity].
Qed.

Lemma parse_count_cursor (i : bytes) (a a' : ExArg) :
  fst (parse_count i a) = fst (parse_count i a').
Proof.
  unfold parse_count. destruct (negb (isdigit (peek i))); [reflexivity|].
  pose proof (parse_count_loop_cursor i (count a) (count a')) as H.
  destruct (parse_count_loop i (count a)), (parse_count_loop i (count a')).
  exact H.
Qed.

(** parse_command_name on a name that no entry starts with, or on no
    name at all: it fails, leaves the invocation as it was and shows the
    message with the first word at the cursor as token. *)
Lemma parse_command_name_unknown
      {E : Type} (C : Collab E) (fq : bool) (i : bytes) (arg : ExArg) (w : E) :
  ch_eq (peek i) " " = false ->
  (typed_name i = []
   \/ forall X, In X (commands fq) ->
                g_str_has_prefix (cmd_name X) (typed_name i) = false) ->
  exists i',
    parse_command_name C fq i arg w
    = (false, i', arg,
       vb_echo C VB_MSG_ERROR true
               (str "Unknown command: " ++ unknown_token i) w).
Proof.
  intros Hsp Hno. unfold parse_command_name.
  destruct (name_loop (commands fq) (peek i) (advance i) [] 0)
    as [[[m f] b] r] eqn:Hl.
  destruct (name_loop_inv (commands fq) (commands_names_ok fq) _ _ _ _ _ _ _ _
              (eq_refl : forallb nonsep [] = true) (Nat.le_0_l 16)
              (or_introl eq_refl) Hl) as (Hlen & Happ & Hmatch).
  assert (Hm : m = 0).
  { destruct m as [|m']; [reflexivity | exfalso].
    destruct (Hmatch (Nat.lt_0_succ m')) as (Hb & Hc & X & HX & Hp).
    rewrite typed_name_peek in Hb. cbn [app] in Hb.
    destruct Hno as [Hnil | Hno].
    - rewrite <- (typed_name_peek i) in Hnil. simpl in Hnil.
      rewrite Hc in Hnil. discriminate.
    - rewrite Hb, (Hno X HX) in Hp. discriminate. }
  subst m. cbn [Nat.eqb].
  destruct (error_token (CMD_LENGTH - List.length b) r b) as [i2 b2] eqn:Het.
  exists i2. apply error_token_cstr in Het.
  rewrite Het, Happ.
  replace (List.length b + (CMD_LENGTH - List.length b)) with CMD_LENGTH
    by (unfold CMD_LENGTH; lia).
  cbn [app]. rewrite (until_space_peek i Hsp). reflexivity.
Qed.

(** C6.  A command whose name no entry of the table starts with (or
    that has no name at all) makes the parse fail; the user is shown
    "Unknown command: " followed by the first word at the cursor, read
    up to the next space or the end of the input and cut to the size of
    the name array; and ex_run_string returns false at once: no handler
    is called and nothing that follows on the line is processed.  The
    message is the only effect. *)
Theorem unknown_command_aborts_line
        {E : Type} (C : Collab E) (fq : bool) (fuel : nat) (input : bytes)
        (arg : ExArg) (w : E) :
  ch_eq (peek input) NUL = false ->
  (typed_name (cursor_at_name input) = []
   \/ forall X, In X (commands fq) ->
                g_str_has_prefix (cmd_name X) (typed_name (cursor_at_name input))
                = false) ->
  fst (fst (fst (parse C fq input arg w))) = false
  /\ run_loop C fq (S fuel) input arg w
     = Some (false,
             vb_echo C VB_MSG_ERROR true
                     (str "Unknown command: "
                      ++ cstr (firstn CMD_LENGTH
                                 (until_space (cursor_at_name input)))) w).
Proof.
  intros Hin Hno.
  assert (Hparse : exists i' a',
    parse C fq input arg w
    = (false, i', a',
       vb_echo C VB_MSG_ERROR true
               (str "Unknown command: " ++ unknown_token (cursor_at_name input)) w)).
  { unfold parse. rewrite Hin. unfold parse_args.
    pose proof (parse_count_cursor (skip_prompt input)
                  (set_rhs (set_lhs arg []) []) arg0) as Hcur.
    destruct (parse_count (skip_prompt input) (set_rhs (set_lhs arg []) []))
      as [i1 a1] eqn:Hpc.
    simpl in Hcur.
    destruct (parse_command_name_unknown C fq (skip_whitespace i1) a1 w
                (skip_whitespace_no_space i1)) as [i' Hi'].
    { unfold cursor_at_name in Hno. rewrite <- Hcur in Hno. exact Hno. }
    rewrite Hi'. simpl. exists i', a1.
    unfold cursor_at_name. rewrite <- Hcur. reflexivity. }
  destruct Hparse as (i' & a' & Hparse).
  split.
  - rewrite Hparse. reflexivity.
  - simpl. rewrite Hin, Hparse. reflexivity.
Qed.

(** C6 at [frobnicate x|quit]: the token is [frobnicate], and the quit
    that follows is not run. *)
Lemma unknown_command_aborts_line_witness :
  fst (fst (fst (parse demo true (str "frobnicate x|quit") arg0 demo0))) = false
  /\ ex_run_string demo true (str "frobnicate x|quit") demo0
     = Some (false,
             demo_echo VB_MSG_ERROR true (str "Unknown command: frobnicate") demo0).
Proof.
  apply (@unknown_command_aborts_line Demo demo true
           (List.length (str "frobnicate x|quit")) (str "frobnicate x|quit")
           arg0 demo0).
  - reflexivity.
  - right. intros X HX. simpl in HX.
    repeat (destruct HX as [HX | HX]; [subst X; reflexivity|]).
    contradiction.
Defined.

(** [:frobnicate] as submitted: the token is [frobnicate], also when
    other bytes follow the terminator in memory. *)
Lemma unknown_frobnicate_example (fq : bool) (junk : bytes) :
  ex_run_string demo fq (str "frobnicate") demo0
  = Some (false,
          demo_echo VB_MSG_ERROR true (str "Unknown command: frobnicate") demo0)
  /\ unknown_token (str "frobnicate" ++ NUL :: junk) = str "frobnicate".
Proof. split; [destruct fq|]; reflexivity. Qed.

(* ------------------------------------------------------------------ *)
(** ** The count (C3) *)

Lemma digit_value_range (c : ascii) :
  isdigit c = true -> (0 <= digit_value c <= 9)%Z.
Proof.
  unfold isdigit, digit_value. intros H.
  apply andb_prop in H. destruct H as [H1 H2].
  apply Nat.leb_le in H1. apply Nat.leb_le in H2. lia.
Qed.

Lemma decimal_onto_ge (ds : bytes) : forall n,
  forallb isdigit ds = true -> (0 <= n)%Z -> (n <= decimal_onto ds n)%Z.
Proof.
  induction ds as [|c ds IH]; intros n Hd Hn; simpl in *.
  - lia.
  - apply andb_prop in Hd. destruct Hd as [Hc Hd].
    pose proof (digit_value_range c Hc).
    specialize (IH (n * 10 + digit_value c)%Z Hd). lia.
Qed.

(** parse_count reads a digit run onto the count the field holds: with
    the field at [n] and no overflow, the digits [ds] give
    [decimal_onto ds n], which is their decimal value only when [n] is 0. *)
Lemma parse_count_loop_onto (ds : bytes) : forall n rest,
  forallb isdigit ds = true ->
  isdigit (peek rest) = false ->
  (0 <= n)%Z ->
  (decimal_onto ds n < 2147483648)%Z ->
  parse_count_loop (ds ++ rest) n = (rest, decimal_onto ds n).
Proof.
  induction ds as [|c ds IH]; intros n rest Hd Hr Hn Hmax; simpl in *.
  - destruct rest as [|d rest]; [reflexivity|]. simpl in Hr. simpl.
    rewrite Hr. reflexivity.
  - apply andb_prop in Hd. destruct Hd as [Hc Hd]. rewrite Hc.
    pose proof (digit_value_range c Hc) as Hv.
    pose proof (decimal_onto_ge ds (n * 10 + digit_value c)%Z Hd) as Hge.
    assert (Hw : int_wrap (n * 10 + digit_value c) = (n * 10 + digit_value c)%Z).
    { unfold int_wrap. rewrite Z.mod_small; lia. }
    rewrite Hw. apply IH; auto; lia.
Qed.

(** C3, the failing input.  On the line [2open a|3open b] the first
    command is parsed with count 2, and the second, whose own digit run
    is 3, with count 23: parse_count multiplies up the count left by the
    command before it.  Run with the recording collaborators, the two
    open handlers are called with the counts 2 and 23. *)
Theorem count_carried_into_next_command
        {E : Type} (C : Collab E) (fq : bool) (w : E) :
  exists a1 a2,
    parse C fq (str "2open a|3open b") arg0 w = (true, str "3open b", a1, w)
    /\ count a1 = 2%Z
    /\ parse C fq (str "3open b") a1 w = (true, [], a2, w)
    /\ code a2 = EX_OPEN /\ rhs a2 = str "b"
    /\ count a2 = 23%Z
    /\ option_map (fun r => map (fun a => (count a, rhs a)) (d_calls (snd r)))
                  (ex_run_string demo fq (str "2open a|3open b") demo0)
       = Some [(2%Z, str "a"); (23%Z, str "b")].
Proof.
  destruct fq; do 2 eexists; repeat split; reflexivity.
Qed.

(** The first command of a line: [25o example.com] gives the count 25,
    the open command and the right hand side [example.com]. *)
Lemma count_of_first_command {E : Type} (C : Collab E) (fq : bool) (w : E) :
  let r := parse C fq (str "25o example.com") arg0 w in
  succeeded r = true /\ count (parsed r) = 25%Z
  /\ code (parsed r) = EX_OPEN /\ rhs (parsed r) = str "example.com".
Proof. destruct fq; repeat split; reflexivity. Qed.

(* ------------------------------------------------------------------ *)
(** ** Backslash in the arguments (C4) *)

Lemma lhs_escaped_space (rest out : bytes) :
  parse_lhs_loop ("\"%char :: " "%char :: rest) out
  = parse_lhs_loop rest (out ++ [" "%char]).
Proof. reflexivity. Qed.

Lemma lhs_escaped_other (c : ascii) (rest out : bytes) :
  ch_eq c " " = false ->
  parse_lhs_loop ("\"%char :: c :: rest) out
  = parse_lhs_loop rest (out ++ ["\"%char; c]).
Proof. intros H. cbn [parse_lhs_loop]. rewrite H. reflexivity. Qed.

Lemma rhs_escaped_bar (uri : option bytes) (home : bytes) (fl : Z)
      (rest out : bytes) :
  parse_rhs_loop uri home fl ("\"%char :: "|"%char :: rest) out
  = parse_rhs_loop uri home fl rest (out ++ ["|"%char]).
Proof. reflexivity. Qed.

Lemma rhs_escaped_other (uri : option bytes) (home : bytes) (fl : Z)
      (c : ascii) (rest out : bytes) :
  ch_eq c "|" = false ->
  parse_rhs_loop uri home fl ("\"%char :: c :: rest) out
  = parse_rhs_loop uri home fl rest (out ++ ["\"%char; c]).
Proof. intros H. cbn [parse_rhs_loop]. rewrite H. reflexivity. Qed.

(** C4, the failing input.  A backslash that is the last character of
    the input does not give a single backslash: the terminator is
    appended after it, so the argument is two bytes long, and the cursor
    moves past the terminator, so that the bytes that follow it in memory
    ([junk]) are parsed as more of the argument, and after it as more
    commands: with [|quit] behind the terminator of [nmap a \], the quit
    handler is called. *)
Theorem trailing_backslash_takes_terminator
        {E : Type} (C : Collab E) (fq : bool) (w : E) :
  (forall out, parse_lhs_loop ["\"%char] out = ([], out ++ ["\"%char; NUL]))
  /\ (forall out junk,
         parse_lhs_loop ("\"%char :: NUL :: junk) out
         = parse_lhs_loop junk (out ++ ["\"%char; NUL]))
  /\ (forall uri home fl out,
         parse_rhs_loop uri home fl ["\"%char] out
         = ([], out ++ ["\"%char; NUL]))
  /\ (forall uri home fl out junk,
         parse_rhs_loop uri home fl ("\"%char :: NUL :: junk) out
         = parse_rhs_loop uri home fl junk (out ++ ["\"%char; NUL]))
  /\ rhs (parsed (parse C fq (str "nmap a \") arg0 w)) = ["\"%char; NUL]
  /\ rhs (parsed (parse C fq (str "nmap a \" ++ NUL :: str "xy") arg0 w))
     = ["\"%char; NUL; "x"%char; "y"%char]
  /\ lhs (parsed (parse C fq (str "cunmap a\") arg0 w))
     = ["a"%char; "\"%char; NUL]
  /\ option_map (fun r => map name (d_calls (snd r)))
                (ex_run_string demo fq
                   (str "nmap a \" ++ NUL :: str "|quit") demo0)
     = Some [str "nmap"; str "quit"].
Proof.
  repeat split; try reflexivity; destruct fq; reflexivity.
Qed.

(* ------------------------------------------------------------------ *)
(** ** Placeholders in the right hand side: the claims as made (C1, C5) *)


(** C5 as claimed fails: the [~/] of [:save a ~/b] does not lead the
    argument and is replaced all the same, and [:save ~user] does not
    keep its text: the right hand side is [ser]. *)
Lemma tilde_is_expanded_anywhere_and_eats_a_character :
  rhs (parsed (parse demo false (str ":save a ~/b") arg0 demo0))
  = str "a /home/user/b"
  /\ rhs (parsed (parse demo false (str ":save ~user") arg0 demo0)) = str "ser"
  /\ str "ser" <> str "~user".
Proof. repeat split; try reflexivity. discriminate. Qed.

(* ------------------------------------------------------------------ *)
(** ** The bookmark handler (C10) *)

(** C10.  The bookmark-remove command with an empty right hand side
    asks the bookmark collaborator to remove the address of the current
    page; the handler returns what the removal returned, and shows
    "Bookmark removed" exactly when it succeeded.  [:bmr] without
    argument is such an invocation, and it is dispatched to this
    handler. *)
Theorem bmr_without_argument_removes_current_page
        {E : Type} (C : Collab E) (fq : bool) (arg : ExArg) (w : E) :
  code arg = EX_BMR ->
  rhs arg = [] ->
  ex_bookmark C arg w
  = (fst (bookmark_remove C (GET_URI C w) w),
     if fst (bookmark_remove C (GET_URI C w) w)
     then vb_echo_force C VB_MSG_NORMAL false (str "  Bookmark removed")
                        (snd (bookmark_remove C (GET_URI C w) w))
     else snd (bookmark_remove C (GET_URI C w) w))
  /\ (let a := parsed (parse C fq (str "bmr") arg0 w) in
      succeeded (parse C fq (str "bmr") arg0 w) = true
      /\ code a = EX_BMR /\ rhs a = []
      /\ execute C fq a w = ex_bookmark C a w).
Proof.
  intros Hcode Hrhs. split.
  - unfold ex_bookmark. rewrite Hcode, Hrhs. simpl.
    destruct (bookmark_remove C (GET_URI C w) w) as [[|] w1]; reflexivity.
  - destruct fq; repeat split; reflexivity.
Qed.

(** C10 with the recording collaborators, once with the page
    bookmarked. *)
Lemma bmr_without_argument_removes_current_page_witness :
  let w := mkDemo [] (Some (str "http://example.org/")) [] []
                  [str "http://example.org/"] [] false [] 0 in
  let arg := parsed (parse demo true (str "bmr") arg0 w) in
  ex_bookmark demo arg w
  = (fst (bookmark_remove demo (GET_URI demo w) w),
     if fst (bookmark_remove demo (GET_URI demo w) w)
     then vb_echo_force demo VB_MSG_NORMAL false (str "  Bookmark removed")
                        (snd (bookmark_remove demo (GET_URI demo w) w))
     else snd (bookmark_remove demo (GET_URI demo w) w))
  /\ (let a := parsed (parse demo true (str "bmr") arg0 w) in
      succeeded (parse demo true (str "bmr") arg0 w) = true
      /\ code a = EX_BMR /\ rhs a = []
      /\ execute demo true a w = ex_bookmark demo a w).
Proof.
  apply (@bmr_without_argument_removes_current_page Demo demo true
           (parsed (parse demo true (str "bmr") arg0
                      (mkDemo [] (Some (str "http://example.org/")) [] []
                              [str "http://example.org/"] [] false [] 0)))
           (mkDemo [] (Some (str "http://example.org/")) [] []
                   [str "http://example.org/"] [] false [] 0)).
  - reflexivity.
  - reflexivity.
Defined.

(* ------------------------------------------------------------------ *)
(** ** The end of a command (C7) *)

(** Induction for loops that consume one or two characters a round. *)
Lemma bytes_ind2 (P : bytes -> Prop) :
  P [] -> (forall c, P [c]) ->
  (forall c d l, P l -> P (d :: l) -> P (c :: d :: l)) ->
  forall l, P l.
Proof.
  intros H0 H1 H2 l.
  assert (H : P l /\ forall c, P (c :: l)); [|exact (proj1 H)].
  induction l as [|d l [IHl IHc]]; split; auto.
Qed.

Lemma parse_rhs_loop_stops (uri : option bytes) (home : bytes) (fl : Z)
      (input : bytes) :
  forall out,
    ends_rhs (peek (fst (parse_rhs_loop uri home fl input out))) = true.
Proof.
  induction input as [| c | c d l IHl IHdl] using bytes_ind2; intros out.
  - reflexivity.
  - cbn [parse_rhs_loop].
    destruct (ch_eq c NUL || ch_eq c "010" || ch_eq c "|") eqn:Hstop;
      [exact Hstop|].
    destruct (ch_eq c "\"); [reflexivity|].
    destruct (has_flag fl EX_FLAG_EXP && (ch_eq c "%" || ch_eq c "~"));
      [destruct (ch_eq c "%")|]; reflexivity.
  - cbn [parse_rhs_loop].
    destruct (ch_eq c NUL || ch_eq c "010" || ch_eq c "|") eqn:Hstop;
      [exact Hstop|].
    destruct (ch_eq c "\"); [destruct (ch_eq d "|"); apply IHl|].
    destruct (has_flag fl EX_FLAG_EXP && (ch_eq c "%" || ch_eq c "~"));
      [destruct (ch_eq c "%"); [apply IHdl | apply IHl] | apply IHdl].
Qed.

(** Where the arguments of a command with a right hand side end. *)
Lemma parse_args_rhs_cursor
      {E : Type} (C : Collab E) (fq : bool) (input : bytes) (arg : ExArg)
      (w : E) (mid : bytes) (arg' : ExArg) (w' : E) :
  parse_args C fq input arg w = (true, mid, arg', w') ->
  has_flag (flags arg') EX_FLAG_RHS = true ->
  ends_rhs (peek mid) = true.
Proof.
  unfold parse_args. intros H Hflag.
  destruct (parse_count (skip_prompt input) (set_rhs (set_lhs arg []) []))
    as [i1 a1].
  destruct (parse_command_name C fq (skip_whitespace i1) a1 w)
    as [[[ok i2] a2] w2].
  destruct ok; [|discriminate]. cbn [negb] in H.
  destruct (if has_flag (flags a2) EX_FLAG_BANG then parse_bang i2 a2
            else (i2, a2)) as [i3 a3].
  destruct (if has_flag (flags a3) EX_FLAG_LHS
            then let '(_, i, a) := parse_lhs (skip_whitespace i3) a3 in (i, a)
            else (skip_whitespace i3, a3)) as [i4 a4].
  destruct (has_flag (flags a4) EX_FLAG_RHS) eqn:Hr.
  - unfold parse_rhs in H.
    destruct (ch_eq (peek (skip_whitespace i4)) NUL) eqn:Hnul.
    + injection H as <- _ _. unfold ends_rhs. rewrite Hnul. reflexivity.
    + pose proof (parse_rhs_loop_stops (GET_URI C w2) (g_get_home_dir C w2)
                    (flags a4) (skip_whitespace i4) (rhs a4)) as Hstop.
      destruct (parse_rhs_loop (GET_URI C w2) (g_get_home_dir C w2) (flags a4)
                               (skip_whitespace i4) (rhs a4)) as [i5 out].
      injection H as <- _ _. exact Hstop.
  - injection H as _ <- _. rewrite Hr in Hflag. discriminate.
Qed.

(** C7 as claimed fails: after [:hardcopy xy] the arguments end with
    the cursor on [xy]; parse then steps over the [x], which is neither
    a newline nor a bar, and leaves the cursor on [y]. *)
Lemma step_over_takes_any_character :
  cursor (parse_args demo false (str ":hardcopy xy") arg0 demo0) = str "xy"
  /\ succeeded (parse demo false (str ":hardcopy xy") arg0 demo0) = true
  /\ code (parsed (parse demo false (str ":hardcopy xy") arg0 demo0))
     = EX_HARDCOPY
  /\ cursor (parse demo false (str ":hardcopy xy") arg0 demo0) = str "y".
Proof. repeat split; reflexivity. Qed.

(** C7, amended.  After the arguments of a command have been parsed,
    parse steps over exactly one character unless the cursor is at the
    end of the input, and over nothing else.  For a command with a right
    hand side that character is always a newline or a bar; for a command
    without one it is whatever the cursor is on. *)
Theorem parse_steps_over_one_character
        {E : Type} (C : Collab E) (fq : bool) (input : bytes) (arg : ExArg)
        (w : E) (rest : bytes) (arg' : ExArg) (w' : E) :
  parse C fq input arg w = (true, rest, arg', w') ->
  exists mid,
    parse_args C fq input arg w = (true, mid, arg', w')
    /\ ((rest = mid /\ ch_eq (peek mid) NUL = true)
        \/ (exists c, mid = c :: rest /\ ch_eq c NUL = false
                      /\ (has_flag (flags arg') EX_FLAG_RHS = true ->
                          c = "010"%char \/ c = "|"%char))).
Proof.
  unfold parse. intros H.
  destruct (ch_eq (peek input) NUL); [discriminate|].
  destruct (parse_args C fq input arg w) as [[[ok mid] a] w1] eqn:Hargs.
  destruct ok; [|discriminate]. cbn [negb] in H.
  injection H as <- <- <-. exists mid. split; [reflexivity|].
  unfold step_over.
  destruct (ch_eq (peek mid) NUL) eqn:Hnul; cbn [negb].
  - left. split; reflexivity.
  - right. destruct mid as [|c tail]; [discriminate|].
    exists c. split; [reflexivity|]. split; [exact Hnul|].
    intros Hflag.
    pose proof (parse_args_rhs_cursor C fq input arg w _ _ _ Hargs Hflag) as He.
    unfold ends_rhs in He. cbn [peek hd] in *. rewrite Hnul in He.
    destruct (ch_eq c "010") eqn:Hn.
    + left. apply ch_eq_true. exact Hn.
    + right. apply ch_eq_true. exact He.
Qed.

(** C7, amended, on [:open a|quit]: the bar is stepped over. *)
Lemma parse_steps_over_one_character_witness :
  exists mid,
    parse_args demo true (str ":open a|quit") arg0 demo0
    = (true, mid, parsed (parse demo true (str ":open a|quit") arg0 demo0),
       demo0)
    /\ ((str "quit" = mid /\ ch_eq (peek mid) NUL = true)
        \/ (exists c, mid = c :: str "quit" /\ ch_eq c NUL = false
              /\ (has_flag
                    (flags (parsed (parse demo true (str ":open a|quit")
                                          arg0 demo0)))
                    EX_FLAG_RHS = true ->
                  c = "010"%char \/ c = "|"%char))).
Proof.
  apply (@parse_steps_over_one_character Demo demo true (str ":open a|quit")
           arg0 demo0 (str "quit")
           (parsed (parse demo true (str ":open a|quit") arg0 demo0)) demo0).
  reflexivity.
Defined.

(* ------------------------------------------------------------------ *)
(** ** ex_run_string returns *)

Lemma skip_whitespace_length (i : bytes) :
  List.length (skip_whitespace i) <= List.length i.
Proof.
  induction i as [|c r IH]; simpl; [lia|].
  destruct (negb (ch_eq c NUL) && ch_eq c " "); simpl; lia.
Qed.

Lemma skip_prompt_length (i : bytes) :
  List.length (skip_prompt i) <= List.length i.
Proof.
  induction i as [|c r IH]; simpl; [lia|].
  destruct (negb (ch_eq c NUL) && (ch_eq c ":" || ch_eq c " ")); simpl; lia.
Qed.

Lemma parse_count_loop_length (i : bytes) : forall n,
  List.length (fst (parse_count_loop i n)) <= List.length i.
Proof.
  induction i as [|c r IH]; intros n; simpl; [lia|].
  destruct (isdigit c); simpl; [specialize (IH (int_wrap (n * 10 + digit_value c)))|];
    lia.
Qed.

Lemma parse_count_length (i : bytes) (a : ExArg) :
  List.length (fst (parse_count i a)) <= List.length i.
Proof.
  unfold parse_count. destruct (negb (isdigit (peek i))); simpl; [lia|].
  pose proof (parse_count_loop_length i (count a)).
  destruct (parse_count_loop i (count a)). simpl in *. lia.
Qed.

Lemma name_loop_length (table : list ExInfo) (rest : bytes) :
  forall c buf first,
    List.length (snd (name_loop table c rest buf first)) <= List.length rest.
Proof.
  induction rest as [|c' rest IH]; intros c buf first.
  - rewrite name_loop_nil. destruct (scan _ _ _ _ _ _ _). simpl. lia.
  - rewrite name_loop_cons. destruct (scan _ _ _ _ _ _ _) as [f m].
    destruct ((0 <? m) && negb (ch_eq c' NUL) && negb (ch_eq c' " ")
              && negb (ch_eq c' "!")).
    + specialize (IH c' (buf ++ [c]) f). simpl. lia.
    + simpl. lia.
Qed.

Lemma parse_command_name_length
      {E : Type} (C : Collab E) (fq : bool) (i : bytes) (a : ExArg) (w : E) :
  succeeded (parse_command_name C fq i a w) = true ->
  List.length (cursor (parse_command_name C fq i a w))
  <= List.length (advance i).
Proof.
  unfold parse_command_name, succeeded, cursor.
  pose proof (name_loop_length (commands fq) (advance i) (peek i) [] 0) as H.
  destruct (name_loop (commands fq) (peek i) (advance i) [] 0)
    as [[[m f] b] r].
  destruct (m =? 0).
  - destruct (error_token _ _ _). simpl. discriminate.
  - simpl in *. intros _. exact H.
Qed.

Lemma parse_lhs_loop_length (input : bytes) : forall out,
  List.length (fst (parse_lhs_loop input out)) <= List.length input.
Proof.
  induction input as [| c | c d l IHl IHdl] using bytes_ind2; intros out.
  - simpl. lia.
  - cbn [parse_lhs_loop].
    destruct (ch_eq c NUL || ch_eq c " "); [simpl; lia|].
    destruct (ch_eq c "\"); simpl; lia.
  - cbn [parse_lhs_loop].
    destruct (ch_eq c NUL || ch_eq c " "); [simpl; lia|].
    destruct (ch_eq c "\").
    + destruct (ch_eq d " ");
        [specialize (IHl (out ++ [d])) | specialize (IHl (out ++ ["\"%char; d]))];
        simpl; lia.
    + specialize (IHdl (out ++ [c])). simpl in *. lia.
Qed.

Lemma parse_rhs_loop_length (uri : option bytes) (home : bytes) (fl : Z)
      (input : bytes) :
  forall out,
    List.length (fst (parse_rhs_loop uri home fl input out)) <= List.length input.
Proof.
  induction input as [| c | c d l IHl IHdl] using bytes_ind2; intros out.
  - simpl. lia.
  - cbn [parse_rhs_loop].
    destruct (ch_eq c NUL || ch_eq c "010" || ch_eq c "|"); [simpl; lia|].
    destruct (ch_eq c "\"); [simpl; lia|].
    destruct (has_flag fl EX_FLAG_EXP && (ch_eq c "%" || ch_eq c "~"));
      [destruct (ch_eq c "%")|]; simpl; lia.
  - cbn [parse_rhs_loop].
    destruct (ch_eq c NUL || ch_eq c "010" || ch_eq c "|"); [simpl; lia|].
    destruct (ch_eq c "\").
    { destruct (ch_eq d "|");
        [specialize (IHl (out ++ [d])) | specialize (IHl (out ++ ["\"%char; d]))];
        simpl; lia. }
    destruct (has_flag fl EX_FLAG_EXP && (ch_eq c "%" || ch_eq c "~")).
    + destruct (ch_eq c "%").
      * specialize (IHdl (match uri with Some u => out ++ u | None => out end)).
        simpl in *. lia.
      * specialize (IHl (if ch_eq d "/" then out ++ home ++ [d] else out)).
        simpl in *. lia.
    + specialize (IHdl (out ++ [c])). simpl in *. lia.
Qed.

(** A command that parses takes at least one character of the input. *)
Lemma parse_consumes
      {E : Type} (C : Collab E) (fq : bool) (input : bytes) (arg : ExArg)
      (w : E) :
  succeeded (parse C fq input arg w) = true ->
  List.length (cursor (parse C fq input arg w)) < List.length input.
Proof.
  unfold parse, succeeded, cursor.
  destruct (ch_eq (peek input) NUL) eqn:Hnul; [simpl; discriminate|].
  assert (Hne : 0 < List.length input).
  { destruct input; [discriminate | simpl; lia]. }
  unfold parse_args.
  pose proof (skip_prompt_length input) as H1.
  pose proof (parse_count_length (skip_prompt input)
                (set_rhs (set_lhs arg []) [])) as H2.
  destruct (parse_count (skip_prompt input) (set_rhs (set_lhs arg []) []))
    as [i1 a1]. simpl in H2.
  pose proof (skip_whitespace_length i1) as H3.
  pose proof (parse_command_name_length C fq (skip_whitespace i1) a1 w) as H4.
  unfold succeeded, cursor in H4.
  destruct (parse_command_name C fq (skip_whitespace i1) a1 w)
    as [[[ok i2] a2] w2].
  destruct ok; [|simpl; discriminate]. simpl in H4. specialize (H4 eq_refl).
  assert (H5 : List.length i2 < List.length input).
  { destruct (skip_whitespace i1); simpl in *; lia. }
  cbn [negb].
  assert (H6 : forall i3 a3,
             (if has_flag (flags a2) EX_FLAG_BANG then parse_bang i2 a2
              else (i2, a2)) = (i3, a3) ->
             List.length i3 <= List.length i2).
  { intros i3 a3. destruct (has_flag (flags a2) EX_FLAG_BANG).
    - unfold parse_bang. destruct (ch_eq (peek i2) "!"); intros Heq;
        injection Heq as <- _; [destruct i2; simpl; lia | lia].
    - intros Heq. injection Heq as <- _. lia. }
  destruct (if has_flag (flags a2) EX_FLAG_BANG then parse_bang i2 a2
            else (i2, a2)) as [i3 a3].
  specialize (H6 i3 a3 eq_refl).
  pose proof (skip_whitespace_length i3) as H7.
  assert (H8 : forall i4 a4,
             (if has_flag (flags a3) EX_FLAG_LHS
              then let '(_, i, a) := parse_lhs (skip_whitespace i3) a3 in (i, a)
              else (skip_whitespace i3, a3)) = (i4, a4) ->
             List.length i4 <= List.length (skip_whitespace i3)).
  { intros i4 a4. destruct (has_flag (flags a3) EX_FLAG_LHS).
    - unfold parse_lhs. destruct (ch_eq (peek (skip_whitespace i3)) NUL).
      + intros Heq. injection Heq as <- _. lia.
      + pose proof (parse_lhs_loop_length (skip_whitespace i3) (lhs a3)) as Hl.
        destruct (parse_lhs_loop (skip_whitespace i3) (lhs a3)).
        intros Heq. injection Heq as <- _. exact Hl.
    - intros Heq. injection Heq as <- _. lia. }
  destruct (if has_flag (flags a3) EX_FLAG_LHS
            then let '(_, i, a) := parse_lhs (skip_whitespace i3) a3 in (i, a)
            else (skip_whitespace i3, a3)) as [i4 a4].
  specialize (H8 i4 a4 eq_refl).
  pose proof (skip_whitespace_length i4) as H9.
  assert (H10 : forall i5 a5,
             (if has_flag (flags a4) EX_FLAG_RHS
              then let '(_, i, a) := parse_rhs C (skip_whitespace i4) a4 w2 in
                   (i, a)
              else (skip_whitespace i4, a4)) = (i5, a5) ->
             List.length i5 <= List.length (skip_whitespace i4)).
  { intros i5 a5. destruct (has_flag (flags a4) EX_FLAG_RHS).
    - unfold parse_rhs. destruct (ch_eq (peek (skip_whitespace i4)) NUL).
      + intros Heq. injection Heq as <- _. lia.
      + pose proof (parse_rhs_loop_length (GET_URI C w2) (g_get_home_dir C w2)
                      (flags a4) (skip_whitespace i4) (rhs a4)) as Hl.
        destruct (parse_rhs_loop (GET_URI C w2) (g_get_home_dir C w2)
                                 (flags a4) (skip_whitespace i4) (rhs a4)).
        intros Heq. injection Heq as <- _. exact Hl.
    - intros Heq. injection Heq as <- _. lia. }
  destruct (if has_flag (flags a4) EX_FLAG_RHS
            then let '(_, i, a) := parse_rhs C (skip_whitespace i4) a4 w2 in
                 (i, a)
            else (skip_whitespace i4, a4)) as [i5 a5].
  specialize (H10 i5 a5 eq_refl).
  simpl. intros _. unfold step_over.
  destruct (negb (ch_eq (peek i5) NUL)); [destruct i5; simpl in *; lia | lia].
Qed.

(** The run loop never reaches its bound: ex_run_string returns. *)
Lemma run_loop_returns
      {E : Type} (C : Collab E) (fq : bool) (fuel : nat) :
  forall input arg w,
    List.length input < fuel ->
    exists r, run_loop C fq fuel input arg w = Some r.
Proof.
  induction fuel as [|k IH]; intros input arg w Hlen; [lia|].
  simpl. destruct (ch_eq (peek input) NUL); [eexists; reflexivity|].
  pose proof (parse_consumes C fq input arg w) as Hc.
  unfold succeeded, cursor in Hc.
  destruct (parse C fq input arg w) as [[[ok i'] a'] w1]. simpl in Hc.
  destruct ok; cbn [negb]; [|eexists; reflexivity].
  destruct (execute C fq a' w1) as [[|] w2]; cbn [negb];
    [|eexists; reflexivity].
  apply IH. specialize (Hc eq_refl). lia.
Qed.

Lemma ex_run_string_returns
      {E : Type} (C : Collab E) (fq : bool) (input : bytes) (w : E) :
  exists r, ex_run_string C fq input w = Some r.
Proof. apply run_loop_returns. lia. Qed.

(* ------------------------------------------------------------------ *)
(** ** History stepping after an edit (C8) *)

Lemma history_after_rewind
      {E : Type} (C : Collab E) (prev : bool) (st : State E) (node : GList) :
  exhist_active (exhist st) = Some node ->
  strcmp_eq (vb_get_input_text C (ext st))
            (concat_prefix (exhist_prefix (exhist st)) (g_data node)) = false ->
  history C prev st = history C prev (history_rewind st).
Proof.
  intros Hact Hdiff.
  assert (Hnone : exhist_active (exhist (history_rewind st)) = None).
  { unfold history_rewind. rewrite Hact. reflexivity. }
  assert (Hext : ext (history_rewind st) = ext st).
  { unfold history_rewind. rewrite Hact. reflexivity. }
  unfold history. cbv zeta. rewrite Hact, Hdiff. cbn [negb].
  rewrite Hnone. cbv beta iota. rewrite Hnone, Hext. reflexivity.
Qed.

(** The other case, for contrast: while the input box still shows the
    prefix and the entry of [node], the step moves on from [node] and
    nothing is fetched. *)
Lemma history_continues
      {E : Type} (C : Collab E) (prev : bool) (st : State E) (node : GList) :
  exhist_active (exhist st) = Some node ->
  strcmp_eq (vb_get_input_text C (ext st))
            (concat_prefix (exhist_prefix (exhist st)) (g_data node)) = true ->
  history C prev st
  = (true,
     mkState (vb_echo_force C VB_MSG_NORMAL false
                (concat_prefix (exhist_prefix (exhist st))
                               (g_data (history_move prev node)))
                (ext st))
             (excomp st)
             (mkExHist (exhist_prefix (exhist st)) (exhist_query (exhist st))
                       (Some (history_move prev node)))).
Proof.
  intros Hact Hsame. unfold history. cbv zeta.
  rewrite Hact, Hsame. cbn [negb]. rewrite Hact. reflexivity.
Qed.

(** C8.  A history session is active on [node], and the text of the
    input box is not the prefix followed by the entry of [node].  Then
    the next step first ends the session (the list pointer and the prefix
    are cleared) and goes on exactly as a step taken with no session.
    When the text starts, after spaces, with a sigil, the list is fetched
    anew, filtered by the text after the sigil; when the fetch brings
    entries, the new session holds exactly these, its position is counted
    from their head (one step on for [prev] if there is a second entry),
    and the entry at that position is written to the input box after the
    sigil.  When the step fails, no session is left. *)
Theorem history_divergence_restarts
        {E : Type} (C : Collab E) (prev : bool) (st : State E) (node : GList) :
  exhist_active (exhist st) = Some node ->
  strcmp_eq (vb_get_input_text C (ext st))
            (concat_prefix (exhist_prefix (exhist st)) (g_data node)) = false ->
  exhist_active (exhist (history_rewind st)) = None
  /\ exhist_prefix (exhist (history_rewind st)) = None
  /\ history C prev st = history C prev (history_rewind st)
  /\ (forall sigil query t x fresh,
         skip_whitespace (vb_get_input_text C (ext st)) = sigil :: query ->
         (sigil = ":"%char /\ t = VB_INPUT_COMMAND
          \/ (sigil = "/"%char \/ sigil = "?"%char)
             /\ t = VB_INPUT_SEARCH_FORWARD) ->
         history_get_list C t (cstr query) (ext st) = x :: fresh ->
         exists node',
           history C prev st
           = (true,
              mkState (vb_echo_force C VB_MSG_NORMAL false
                         ([sigil] ++ g_data node') (ext st))
                      (excomp st)
                      (mkExHist (Some [sigil]) (exhist_query (exhist st))
                                (Some node')))
           /\ g_list_all node' = x :: fresh
           /\ g_list_position node'
              = (if prev then Nat.min 1 (List.length fresh) else 0))
  /\ (forall st', history C prev st = (false, st') ->
                  st' = history_rewind st
                  /\ exhist_active (exhist st') = None).
Proof.
  intros Hact Hdiff.
  assert (Hnone : exhist_active (exhist (history_rewind st)) = None).
  { unfold history_rewind. rewrite Hact. reflexivity. }
  split; [exact Hnone|]. split.
  { unfold history_rewind. rewrite Hact. reflexivity. }
  split; [apply (history_after_rewind C prev st node Hact Hdiff)|].
  rewrite (history_after_rewind C prev st node Hact Hdiff).
  assert (Hext : ext (history_rewind st) = ext st).
  { unfold history_rewind. rewrite Hact. reflexivity. }
  assert (Hcomp : excomp (history_rewind st) = excomp st).
  { unfold history_rewind. rewrite Hact. reflexivity. }
  assert (Hq : exhist_query (exhist (history_rewind st))
               = exhist_query (exhist st)).
  { unfold history_rewind. rewrite Hact. reflexivity. }
  split.
  - intros sigil query t x fresh Hin Ht Hfetch.
    unfold history, history_fetch, history_move. cbv zeta.
    rewrite Hnone. cbv beta iota.
    rewrite Hnone, Hext, Hin.
    cbn [peek hd advance tl].
    assert (Htype :
              (if ch_eq sigil ":" then Some VB_INPUT_COMMAND
               else if ch_eq sigil "/" || ch_eq sigil "?"
                    then Some VB_INPUT_SEARCH_FORWARD else None) = Some t
              /\ cstr [sigil] = [sigil]).
    { destruct Ht as [[-> ->] | [[-> | ->] ->]]; split; reflexivity. }
    destruct Htype as [Htype Hsig]. rewrite Htype, Hsig, Hfetch.
    cbn [g_list_of]. rewrite Hcomp, Hq.
    destruct prev.
    + destruct fresh as [|y ys].
      * exists (mkGList [] x []). repeat split; reflexivity.
      * exists (mkGList [x] y ys). repeat split; reflexivity.
    + exists (mkGList [] x fresh). repeat split; reflexivity.
  - intros st' Hfail. unfold history in Hfail. cbv zeta in Hfail.
    rewrite Hnone in Hfail. cbv beta iota in Hfail. rewrite Hnone in Hfail.
    destruct (history_fetch C (vb_get_input_text C (ext (history_rewind st)))
                            (history_rewind st)) as [[st2 n]|];
      [discriminate|].
    injection Hfail as <-. split; [reflexivity | exact Hnone].
Qed.

(** C8 on that state: the session that showed [:abc2] is dropped, the
    list is fetched for [ab], and the new session holds its three
    entries. *)
Lemma history_divergence_restarts_witness :
  exhist_active (exhist (history_rewind edited_after_step)) = None
  /\ exhist_prefix (exhist (history_rewind edited_after_step)) = None
  /\ history demo true edited_after_step
     = history demo true (history_rewind edited_after_step)
  /\ (forall sigil query t x fresh,
         skip_whitespace (vb_get_input_text demo (ext edited_after_step))
         = sigil :: query ->
         (sigil = ":"%char /\ t = VB_INPUT_COMMAND
          \/ (sigil = "/"%char \/ sigil = "?"%char)
             /\ t = VB_INPUT_SEARCH_FORWARD) ->
         history_get_list demo t (cstr query) (ext edited_after_step)
         = x :: fresh ->
         exists node',
           history demo true edited_after_step
           = (true,
              mkState (vb_echo_force demo VB_MSG_NORMAL false
                         ([sigil] ++ g_data node') (ext edited_after_step))
                      (excomp edited_after_step)
                      (mkExHist (Some [sigil])
                                (exhist_query (exhist edited_after_step))
                                (Some node')))
           /\ g_list_all node' = x :: fresh
           /\ g_list_position node' = Nat.min 1 (List.length fresh))
  /\ (forall st', history demo true edited_after_step = (false, st') ->
                  st' = history_rewind edited_after_step
                  /\ exhist_active (exhist st') = None).
Proof.
  apply (@history_divergence_restarts Demo demo true edited_after_step
           (mkGList [str "abc1"] (str "abc2") [])).
  - reflexivity.
  - reflexivity.
Defined.

(** The state the step after the edit leaves. *)
Lemma history_after_edit_example :
  exhist_active (exhist edited_after_step)
  = Some (mkGList [str "abc1"] (str "abc2") [])
  /\ exhist_active (exhist (snd (history demo true edited_after_step)))
     = Some (mkGList [str "abc1"] (str "abc2") [str "abd"])
  /\ d_input (ext (snd (history demo true edited_after_step))) = str ":abc2".
Proof. repeat split; reflexivity. Qed.

(* ------------------------------------------------------------------ *)
(** ** Completion and history side by side (C9) *)









(* ------------------------------------------------------------------ *)
(** ** More on the run loop and the count *)

(** X1.  A command that parses takes at least one character: after a
    successful parse the cursor is strictly nearer to the end of the
    input than before. *)
Theorem parse_makes_progress
        {E : Type} (C : Collab E) (fq : bool) (input : bytes) (arg : ExArg)
        (w : E) :
  succeeded (parse C fq input arg w) = true ->
  List.length (cursor (parse C fq input arg w)) < List.length input.
Proof. apply parse_consumes. Qed.

(** X1 on [q|q]: the first quit leaves one character. *)
Lemma parse_makes_progress_witness :
  List.length (cursor (parse demo false (str "q |q") arg0 demo0))
  < List.length (str "q |q").
Proof.
  apply (@parse_makes_progress Demo demo false (str "q |q") arg0 demo0).
  reflexivity.
Defined.

Lemma run_loop_fuel
      {E : Type} (C : Collab E) (fq : bool) (fuel : nat) :
  forall fuel' input arg w,
    List.length input < fuel -> List.length input < fuel' ->
    run_loop C fq fuel input arg w = run_loop C fq fuel' input arg w.
Proof.
  induction fuel as [|k IH]; intros fuel' input arg w H1 H2; [lia|].
  destruct fuel' as [|k']; [lia|]. simpl.
  destruct (ch_eq (peek input) NUL); [reflexivity|].
  pose proof (parse_consumes C fq input arg w) as Hc.
  unfold succeeded, cursor in Hc.
  destruct (parse C fq input arg w) as [[[ok i'] a'] w1]. simpl in Hc.
  destruct ok; cbn [negb]; [|reflexivity].
  destruct (execute C fq a' w1) as [[|] w2]; cbn [negb]; [|reflexivity].
  specialize (Hc eq_refl). apply IH; lia.
Qed.

(* ------------------------------------------------------------------ *)
(** ** What stands behind the terminator *)

Lemma peek_behind (s junk : bytes) : peek (s ++ NUL :: junk) = peek s.
Proof. destruct s; reflexivity. Qed.

Lemma skip_prompt_behind (s junk : bytes) :
  skip_prompt (s ++ NUL :: junk) = skip_prompt s ++ NUL :: junk.
Proof.
  induction s as [|c s IH]; [reflexivity|].
  cbn [app skip_prompt].
  destruct (negb (ch_eq c NUL) && (ch_eq c ":" || ch_eq c " "));
    [exact IH | reflexivity].
Qed.

Lemma skip_prompt_keeps (P : ascii -> bool) (s : bytes) :
  forallb P s = true -> forallb P (skip_prompt s) = true.
Proof.
  induction s as [|c s IH]; intros H; [reflexivity|].
  cbn [skip_prompt].
  destruct (negb (ch_eq c NUL) && (ch_eq c ":" || ch_eq c " "));
    [|exact H].
  cbn [forallb] in H. apply andb_prop in H. apply IH, H.
Qed.

Lemma skip_whitespace_behind (s junk : bytes) :
  skip_whitespace (s ++ NUL :: junk) = skip_whitespace s ++ NUL :: junk.
Proof.
  induction s as [|c s IH]; [reflexivity|].
  cbn [app skip_whitespace].
  destruct (negb (ch_eq c NUL) && ch_eq c " "); [exact IH | reflexivity].
Qed.

Lemma skip_whitespace_keeps (P : ascii -> bool) (s : bytes) :
  forallb P s = true -> forallb P (skip_whitespace s) = true.
Proof.
  induction s as [|c s IH]; intros H; [reflexivity|].
  cbn [skip_whitespace].
  destruct (negb (ch_eq c NUL) && ch_eq c " "); [|exact H].
  cbn [forallb] in H. apply andb_prop in H. apply IH, H.
Qed.

Lemma parse_count_loop_behind (s junk : bytes) : forall n,
  parse_count_loop (s ++ NUL :: junk) n
  = (fst (parse_count_loop s n) ++ NUL :: junk, snd (parse_count_loop s n)).
Proof.
  induction s as [|c s IH]; intros n; [reflexivity|].
  cbn [app parse_count_loop]. destruct (isdigit c); [apply IH | reflexivity].
Qed.

Lemma parse_count_loop_keeps (P : ascii -> bool) (s : bytes) : forall n,
  forallb P s = true -> forallb P (fst (parse_count_loop s n)) = true.
Proof.
  induction s as [|c s IH]; intros n H; [reflexivity|].
  cbn [parse_count_loop]. destruct (isdigit c); [|exact H].
  cbn [forallb] in H. apply andb_prop in H. apply IH, H.
Qed.

Lemma parse_count_behind (s junk : bytes) (arg : ExArg) :
  parse_count (s ++ NUL :: junk) arg
  = (fst (parse_count s arg) ++ NUL :: junk, snd (parse_count s arg)).
Proof.
  unfold parse_count. rewrite peek_behind.
  destruct (negb (isdigit (peek s))); [reflexivity|].
  rewrite parse_count_loop_behind.
  destruct (parse_count_loop s (count arg)). reflexivity.
Qed.

Lemma parse_count_keeps (P : ascii -> bool) (s : bytes) (arg : ExArg) :
  forallb P s = true -> forallb P (fst (parse_count s arg)) = true.
Proof.
  intros H. unfold parse_count.
  destruct (negb (isdigit (peek s))); [exact H|].
  pose proof (parse_count_loop_keeps P s (count arg) H) as K.
  destruct (parse_count_loop s (count arg)). exact K.
Qed.

Lemma name_loop_keeps (P : ascii -> bool) (table : list ExInfo) (rest : bytes) :
  forall c buf first,
    forallb P rest = true ->
    forallb P (snd (name_loop table c rest buf first)) = true.
Proof.
  induction rest as [|c' rest IH]; intros c buf first H.
  - rewrite name_loop_nil. destruct (scan _ _ _ _ _ _ _). reflexivity.
  - rewrite name_loop_cons. destruct (scan _ _ _ _ _ _ _) as [f m].
    destruct ((0 <? m) && negb (ch_eq c' NUL) && negb (ch_eq c' " ")
              && negb (ch_eq c' "!")).
    + cbn [forallb] in H. apply andb_prop in H. apply IH, H.
    + exact H.
Qed.

Lemma cstr_firstn_behind (y z : bytes) : forall k,
  cstr (firstn k (y ++ NUL :: z)) = cstr (firstn k y).
Proof.
  induction y as [|c y IH]; intros [|k]; try reflexivity.
  cbn [app firstn cstr]. rewrite IH. reflexivity.
Qed.

Lemma until_space_behind (r junk : bytes) :
  exists x,
    until_space (r ++ NUL :: junk) = until_space r ++ x
    /\ (x = [] \/ exists z, x = NUL :: z).
Proof.
  induction r as [|c r (x & IH & Hx)].
  - exists (NUL :: until_space junk). split; [reflexivity|].
    right. eexists. reflexivity.
  - cbn [app until_space]. destruct (ch_eq c " ").
    + exists []. split; [reflexivity | left; reflexivity].
    + exists x. rewrite IH. split; [reflexivity | exact Hx].
Qed.

(** The token of the message does not depend on what stands behind the
    terminator. *)
Lemma error_token_behind (room : nat) (r b junk : bytes) :
  cstr (snd (error_token room (r ++ NUL :: junk) b))
  = cstr (snd (error_token room r b)).
Proof.
  destruct (error_token room (r ++ NUL :: junk) b) as [i1 b1] eqn:H1.
  destruct (error_token room r b) as [i2 b2] eqn:H2.
  apply error_token_cstr in H1, H2. cbn [snd]. rewrite H1, H2.
  destruct (until_space_behind r junk) as (x & Hu & [Hx | (z & Hx)]).
  - rewrite Hu, Hx, app_nil_r. reflexivity.
  - rewrite Hu, Hx, app_assoc. apply cstr_firstn_behind.
Qed.

(** parse_command_name with and without bytes behind the terminator:
    the same outcome, invocation and message, and on success the same
    cursor. *)
Lemma parse_command_name_behind
      {E : Type} (C : Collab E) (fq : bool) (s junk : bytes) (arg : ExArg)
      (w : E) :
  succeeded (parse_command_name C fq (s ++ NUL :: junk) arg w)
  = succeeded (parse_command_name C fq s arg w)
  /\ parsed (parse_command_name C fq (s ++ NUL :: junk) arg w)
     = parsed (parse_command_name C fq s arg w)
  /\ snd (parse_command_name C fq (s ++ NUL :: junk) arg w)
     = snd (parse_command_name C fq s arg w)
  /\ (succeeded (parse_command_name C fq s arg w) = true ->
      cursor (parse_command_name C fq (s ++ NUL :: junk) arg w)
      = cursor (parse_command_name C fq s arg w) ++ NUL :: junk).
Proof.
  unfold parse_command_name, succeeded, parsed, cursor.
  destruct s as [|c s'].
  - cbn [app peek hd advance tl].
    destruct (name_loop (commands fq) NUL junk [] 0)
      as [[[m1 f1] b1] r1] eqn:H1.
    destruct (name_loop (commands fq) NUL [] [] 0)
      as [[[m2 f2] b2] r2] eqn:H2.
    destruct (name_loop_inv (commands fq) (commands_names_ok fq) _ _ _ _ _ _ _ _
                (eq_refl : forallb nonsep [] = true) (Nat.le_0_l 16)
                (or_introl eq_refl) H1) as (Hl1 & Ha1 & Hm1).
    destruct (name_loop_inv (commands fq) (commands_names_ok fq) _ _ _ _ _ _ _ _
                (eq_refl : forallb nonsep [] = true) (Nat.le_0_l 16)
                (or_introl eq_refl) H2) as (Hl2 & Ha2 & Hm2).
    assert (Hz1 : m1 = 0).
    { destruct m1; [reflexivity|].
      destruct (Hm1 (Nat.lt_0_succ _)) as (_ & Hc & _). discriminate Hc. }
    assert (Hz2 : m2 = 0).
    { destruct m2; [reflexivity|].
      destruct (Hm2 (Nat.lt_0_succ _)) as (_ & Hc & _). discriminate Hc. }
    subst m1 m2. cbn [Nat.eqb].
    destruct (error_token (CMD_LENGTH - List.length b1) r1 b1)
      as [i1 e1] eqn:He1.
    destruct (error_token (CMD_LENGTH - List.length b2) r2 b2)
      as [i2 e2] eqn:He2.
    apply error_token_cstr in He1, He2.
    cbn [fst snd]. rewrite He1, He2, Ha1, Ha2.
    assert (K1 : List.length b1 + (CMD_LENGTH - List.length b1)
                 = S (CMD_LENGTH - 1)) by (unfold CMD_LENGTH; lia).
    assert (K2 : List.length b2 + (CMD_LENGTH - List.length b2)
                 = S (CMD_LENGTH - 1)) by (unfold CMD_LENGTH; lia).
    rewrite K1, K2. cbn [app firstn cstr]. rewrite ch_eq_refl.
    repeat split. discriminate.
  - cbn [app peek hd advance tl].
    rewrite (name_loop_app (commands fq) (NUL :: junk) s' eq_refl).
    destruct (name_loop (commands fq) c s' [] 0) as [[[m f] b] r].
    destruct (m =? 0).
    + pose proof (error_token_behind (CMD_LENGTH - List.length b) r b junk)
        as Hmsg.
      destruct (error_token (CMD_LENGTH - List.length b) (r ++ NUL :: junk) b)
        as [i1 e1].
      destruct (error_token (CMD_LENGTH - List.length b) r b) as [i2 e2].
      cbn [fst snd] in *. rewrite Hmsg. repeat split. discriminate.
    + cbn [fst snd]. repeat split.
Qed.

Lemma parse_command_name_keeps
      {E : Type} (C : Collab E) (fq : bool) (P : ascii -> bool) (s : bytes)
      (arg : ExArg) (w : E) :
  forallb P s = true ->
  succeeded (parse_command_name C fq s arg w) = true ->
  forallb P (cursor (parse_command_name C fq s arg w)) = true.
Proof.
  intros H. unfold parse_command_name, succeeded, cursor.
  pose proof (name_loop_keeps P (commands fq) (advance s) (peek s) [] 0) as K.
  destruct (name_loop (commands fq) (peek s) (advance s) [] 0)
    as [[[m f] b] r].
  destruct (m =? 0).
  - destruct (error_token _ _ _). cbn [fst]. discriminate.
  - intros _. cbn [fst snd] in *. apply K.
    destruct s as [|c s']; [reflexivity|].
    cbn [forallb] in H. apply andb_prop in H. apply H.
Qed.

Lemma parse_bang_behind (s junk : bytes) (arg : ExArg) :
  parse_bang (s ++ NUL :: junk) arg
  = (fst (parse_bang s arg) ++ NUL :: junk, snd (parse_bang s arg)).
Proof.
  unfold parse_bang. rewrite peek_behind.
  destruct (ch_eq (peek s) "!") eqn:Hb; [|reflexivity].
  destruct s as [|c s']; [discriminate Hb | reflexivity].
Qed.

Lemma parse_bang_keeps (P : ascii -> bool) (s : bytes) (arg : ExArg) :
  forallb P s = true -> forallb P (fst (parse_bang s arg)) = true.
Proof.
  intros H. unfold parse_bang. destruct (ch_eq (peek s) "!"); [|exact H].
  destruct s as [|c s']; [reflexivity|].
  cbn [forallb] in H. apply andb_prop in H. apply H.
Qed.

(** The loops of parse_lhs and parse_rhs on a harmless line stop inside
    the string. *)
Lemma parse_lhs_loop_behind (s junk : bytes) :
  forallb harmless s = true ->
  forall out,
    parse_lhs_loop (s ++ NUL :: junk) out
    = (fst (parse_lhs_loop s out) ++ NUL :: junk, snd (parse_lhs_loop s out))
    /\ forallb harmless (fst (parse_lhs_loop s out)) = true.
Proof.
  induction s as [|c s IH]; intros H out.
  - split; reflexivity.
  - pose proof H as Hall.
    cbn [forallb] in H. apply andb_prop in H. destruct H as [Hc Hs].
    unfold harmless in Hc. apply andb_prop in Hc. destruct Hc as [Hc _].
    apply andb_prop in Hc. destruct Hc as [Hn Hq].
    apply negb_true_iff in Hn, Hq.
    cbn [app parse_lhs_loop]. rewrite Hn, Hq. cbn [orb].
    destruct (ch_eq c " ").
    + split; [reflexivity | exact Hall].
    + apply IH. exact Hs.
Qed.

Lemma parse_rhs_loop_behind
      (uri : option bytes) (home : bytes) (fl : Z) (s junk : bytes) :
  forallb harmless s = true ->
  forall out,
    parse_rhs_loop uri home fl (s ++ NUL :: junk) out
    = (fst (parse_rhs_loop uri home fl s out) ++ NUL :: junk,
       snd (parse_rhs_loop uri home fl s out))
    /\ forallb harmless (fst (parse_rhs_loop uri home fl s out)) = true.
Proof.
  induction s as [|c s IH]; intros H out.
  - split; reflexivity.
  - pose proof H as Hall.
    cbn [forallb] in H. apply andb_prop in H. destruct H as [Hc Hs].
    unfold harmless in Hc. apply andb_prop in Hc. destruct Hc as [Hc Ht].
    apply andb_prop in Hc. destruct Hc as [Hn Hq].
    apply negb_true_iff in Hn, Hq, Ht.
    cbn [app parse_rhs_loop]. rewrite Hn, Hq, Ht. cbn [orb].
    destruct (ch_eq c "010" || ch_eq c "|").
    + split; [reflexivity | exact Hall].
    + rewrite orb_false_r.
      destruct (ch_eq c "%"), (has_flag fl EX_FLAG_EXP); cbn [andb];
        apply IH; exact Hs.
Qed.

Lemma bang_step_behind (fl : Z) (s junk : bytes) (arg : ExArg) :
  forallb harmless s = true ->
  exists s' a',
    (if has_flag fl EX_FLAG_BANG then parse_bang (s ++ NUL :: junk) arg
     else ((s ++ NUL :: junk) : bytes, arg)) = (s' ++ NUL :: junk, a')
    /\ (if has_flag fl EX_FLAG_BANG then parse_bang s arg else (s, arg))
       = (s', a')
    /\ forallb harmless s' = true.
Proof.
  intros H. destruct (has_flag fl EX_FLAG_BANG).
  - exists (fst (parse_bang s arg)), (snd (parse_bang s arg)).
    rewrite parse_bang_behind. split; [reflexivity|].
    split; [destruct (parse_bang s arg); reflexivity|].
    apply parse_bang_keeps, H.
  - exists s, arg. auto.
Qed.

Lemma lhs_step_behind (fl : Z) (s junk : bytes) (arg : ExArg) :
  forallb harmless s = true ->
  exists s' a',
    (if has_flag fl EX_FLAG_LHS
     then let '(_, i, a) := parse_lhs (s ++ NUL :: junk) arg in (i, a)
     else ((s ++ NUL :: junk) : bytes, arg)) = (s' ++ NUL :: junk, a')
    /\ (if has_flag fl EX_FLAG_LHS
        then let '(_, i, a) := parse_lhs s arg in (i, a)
        else (s, arg)) = (s', a')
    /\ forallb harmless s' = true.
Proof.
  intros H. destruct (has_flag fl EX_FLAG_LHS); [|exists s, arg; auto].
  unfold parse_lhs. rewrite peek_behind.
  destruct (ch_eq (peek s) NUL).
  - exists s, arg. auto.
  - destruct (parse_lhs_loop_behind s junk H (lhs arg)) as [Heq Hk].
    rewrite Heq. destruct (parse_lhs_loop s (lhs arg)) as [i o].
    exists i, (set_lhs arg o). auto.
Qed.

Lemma rhs_step_behind
      {E : Type} (C : Collab E) (fl : Z) (s junk : bytes) (arg : ExArg)
      (w : E) :
  forallb harmless s = true ->
  exists s' a',
    (if has_flag fl EX_FLAG_RHS
     then let '(_, i, a) := parse_rhs C (s ++ NUL :: junk) arg w in (i, a)
     else ((s ++ NUL :: junk) : bytes, arg)) = (s' ++ NUL :: junk, a')
    /\ (if has_flag fl EX_FLAG_RHS
        then let '(_, i, a) := parse_rhs C s arg w in (i, a)
        else (s, arg)) = (s', a')
    /\ forallb harmless s' = true.
Proof.
  intros H. destruct (has_flag fl EX_FLAG_RHS); [|exists s, arg; auto].
  unfold parse_rhs. rewrite peek_behind.
  destruct (ch_eq (peek s) NUL).
  - exists s, arg. auto.
  - destruct (parse_rhs_loop_behind (GET_URI C w) (g_get_home_dir C w)
                (flags arg) s junk H (rhs arg)) as [Heq Hk].
    rewrite Heq.
    destruct (parse_rhs_loop (GET_URI C w) (g_get_home_dir C w) (flags arg)
                             s (rhs arg)) as [i o].
    exists i, (set_rhs arg o). auto.
Qed.

(** parse on a harmless line, with and without bytes behind the
    terminator: the same outcome, invocation and messages, and after a
    success the cursor stands at the same place inside the string. *)
Lemma parse_args_behind
      {E : Type} (C : Collab E) (fq : bool) (s junk : bytes) (arg : ExArg)
      (w : E) :
  forallb harmless s = true ->
  succeeded (parse_args C fq (s ++ NUL :: junk) arg w)
  = succeeded (parse_args C fq s arg w)
  /\ parsed (parse_args C fq (s ++ NUL :: junk) arg w)
     = parsed (parse_args C fq s arg w)
  /\ snd (parse_args C fq (s ++ NUL :: junk) arg w)
     = snd (parse_args C fq s arg w)
  /\ (succeeded (parse_args C fq s arg w) = true ->
      cursor (parse_args C fq (s ++ NUL :: junk) arg w)
      = cursor (parse_args C fq s arg w) ++ NUL :: junk
      /\ forallb harmless (cursor (parse_args C fq s arg w)) = true).
Proof.
  intros H. unfold parse_args.
  rewrite skip_prompt_behind.
  pose proof (skip_prompt_keeps harmless s H) as H1.
  rewrite parse_count_behind.
  pose proof (parse_count_keeps harmless (skip_prompt s)
                (set_rhs (set_lhs arg []) []) H1) as H2.
  destruct (parse_count (skip_prompt s) (set_rhs (set_lhs arg []) []))
    as [s2 a2].
  cbn [fst snd] in *. rewrite skip_whitespace_behind.
  pose proof (skip_whitespace_keeps harmless s2 H2) as H3.
  destruct (parse_command_name_behind C fq (skip_whitespace s2) junk a2 w)
    as (Hok & Harg & Hw & Hcur).
  pose proof (parse_command_name_keeps C fq harmless (skip_whitespace s2)
                a2 w H3) as H4.
  unfold succeeded, parsed, cursor in *.
  destruct (parse_command_name C fq (skip_whitespace s2 ++ NUL :: junk) a2 w)
    as [[[ok' c'] a'] w'].
  destruct (parse_command_name C fq (skip_whitespace s2) a2 w)
    as [[[ok c] a] w1].
  cbn [fst snd] in *. subst ok' a' w'.
  destruct ok; cbn [negb]; [|cbn [fst snd]; repeat split; discriminate].
  specialize (Hcur eq_refl). specialize (H4 eq_refl). subst c'.
  cbv beta iota zeta.
  destruct (bang_step_behind (flags a) c junk a H4)
    as (s5 & a5 & Hb1 & Hb2 & H5).
  rewrite Hb1, Hb2. cbv beta iota zeta. rewrite skip_whitespace_behind.
  pose proof (skip_whitespace_keeps harmless s5 H5) as H6.
  destruct (lhs_step_behind (flags a5) (skip_whitespace s5) junk a5 H6)
    as (s7 & a7 & Hl1 & Hl2 & H7).
  rewrite Hl1, Hl2. cbv beta iota zeta. rewrite skip_whitespace_behind.
  pose proof (skip_whitespace_keeps harmless s7 H7) as H8.
  destruct (rhs_step_behind C (flags a7) (skip_whitespace s7) junk a7 w1 H8)
    as (s9 & a9 & Hr1 & Hr2 & H9).
  rewrite Hr1, Hr2. cbn [fst snd]. repeat split. exact H9.
Qed.

Lemma step_over_behind (s junk : bytes) :
  step_over (s ++ NUL :: junk) = step_over s ++ NUL :: junk.
Proof.
  unfold step_over. rewrite peek_behind.
  destruct (ch_eq (peek s) NUL) eqn:Hn; [reflexivity|].
  destruct s as [|c s']; [discriminate Hn | reflexivity].
Qed.

Lemma step_over_keeps (P : ascii -> bool) (s : bytes) :
  forallb P s = true -> forallb P (step_over s) = true.
Proof.
  intros H. unfold step_over. destruct (negb (ch_eq (peek s) NUL)); [|exact H].
  destruct s as [|c s']; [reflexivity|].
  cbn [forallb] in H. apply andb_prop in H. apply H.
Qed.

Lemma parse_behind
      {E : Type} (C : Collab E) (fq : bool) (s junk : bytes) (arg : ExArg)
      (w : E) :
  forallb harmless s = true ->
  succeeded (parse C fq (s ++ NUL :: junk) arg w)
  = succeeded (parse C fq s arg w)
  /\ parsed (parse C fq (s ++ NUL :: junk) arg w)
     = parsed (parse C fq s arg w)
  /\ snd (parse C fq (s ++ NUL :: junk) arg w) = snd (parse C fq s arg w)
  /\ (succeeded (parse C fq s arg w) = true ->
      cursor (parse C fq (s ++ NUL :: junk) arg w)
      = cursor (parse C fq s arg w) ++ NUL :: junk
      /\ forallb harmless (cursor (parse C fq s arg w)) = true).
Proof.
  intros H. unfold parse. rewrite peek_behind.
  destruct (ch_eq (peek s) NUL).
  - unfold succeeded, parsed, cursor. cbn [fst snd]. repeat split; discriminate.
  - destruct (parse_args_behind C fq s junk arg w H)
      as (Hok & Harg & Hw & Hcur).
    unfold succeeded, parsed, cursor in *.
    destruct (parse_args C fq (s ++ NUL :: junk) arg w) as [[[ok' c'] a'] w'].
    destruct (parse_args C fq s arg w) as [[[ok c] a] w1].
    cbn [fst snd] in *. subst ok' a' w'.
    destruct ok; cbn [negb fst snd]; [|repeat split; discriminate].
    destruct (Hcur eq_refl) as [-> Hk].
    rewrite step_over_behind. repeat split.
    apply step_over_keeps, Hk.
Qed.

(** The loop of ex_run_string on a harmless line does the same with
    and without bytes behind the terminator. *)
Lemma run_loop_behind
      {E : Type} (C : Collab E) (fq : bool) (junk : bytes) (fuel : nat) :
  forall s arg w,
    forallb harmless s = true ->
    run_loop C fq fuel (s ++ NUL :: junk) arg w = run_loop C fq fuel s arg w.
Proof.
  induction fuel as [|k IH]; intros s arg w H; [reflexivity|].
  cbn [run_loop]. rewrite peek_behind.
  destruct (ch_eq (peek s) NUL); [reflexivity|].
  destruct (parse_behind C fq s junk arg w H) as (Hok & Harg & Hw & Hcur).
  unfold succeeded, parsed, cursor in *.
  destruct (parse C fq (s ++ NUL :: junk) arg w) as [[[ok' c'] a'] w'].
  destruct (parse C fq s arg w) as [[[ok c] a] w1].
  cbn [fst snd] in *. subst ok' a' w'.
  destruct ok; cbn [negb]; [|reflexivity].
  destruct (Hcur eq_refl) as [-> Hk].
  destruct (execute C fq a w1) as [[|] w2]; cbn [negb]; [|reflexivity].
  apply IH, Hk.
Qed.

(** X2.  On a line without backslash and [~] ex_run_string returns,
    whatever stands in memory behind the terminator of the line, the
    handlers being taken to return.  For the string [s] of the line,
    stored with its terminator and any bytes [junk] behind it: the loop
    makes at most one round for each character of [s] and one more, and
    its result, with every call made on the way, does not depend on
    [junk]; allowing more rounds changes nothing.  (After a backslash or
    a [~] the cursor can pass the terminator, and then the loop goes on
    with what follows.) *)
Theorem ex_run_string_finishes
        {E : Type} (C : Collab E) (fq : bool) (s junk : bytes) (w : E) :
  forallb harmless s = true ->
  exists r,
    ex_run_string C fq s w = Some r
    /\ run_loop C fq (S (List.length s)) (s ++ NUL :: junk) arg0 w = Some r
    /\ forall more,
         run_loop C fq (S (List.length s) + more) (s ++ NUL :: junk) arg0 w
         = Some r.
Proof.
  intros H.
  destruct (run_loop_returns C fq (S (List.length s)) s arg0 w
              (Nat.lt_succ_diag_r _)) as [r Hr].
  exists r. split; [exact Hr|]. split.
  - rewrite run_loop_behind; assumption.
  - intros more. rewrite run_loop_behind by assumption.
    rewrite <- Hr. apply run_loop_fuel; lia.
Qed.

(** X2 on [open a|quit] stored before the bytes [|bma]. *)
Lemma ex_run_string_finishes_witness :
  exists r,
    ex_run_string demo true (str "open a|quit") demo0 = Some r
    /\ run_loop demo true (S (List.length (str "open a|quit")))
                (str "open a|quit" ++ NUL :: str "|bma") arg0 demo0 = Some r
    /\ forall more,
         run_loop demo true (S (List.length (str "open a|quit")) + more)
                  (str "open a|quit" ++ NUL :: str "|bma") arg0 demo0
         = Some r.
Proof.
  apply (@ex_run_string_finishes Demo demo true (str "open a|quit")
           (str "|bma") demo0).
  reflexivity.
Defined.

Example bytes_behind_are_not_run :
  option_map (fun r => map name (d_calls (snd r)))
             (run_loop demo true 12 (str "open a|quit" ++ NUL :: str "|bma")
                       arg0 demo0)
  = Some [str "open"; str "quit"]
  /\ option_map (fun r => map name (d_calls (snd r)))
                (ex_run_string demo true
                   (str "save a\" ++ NUL :: str "|quit") demo0)
     = Some [str "save"; str "quit"].
Proof. split; reflexivity. Qed.

(** X3.  parse_count on a run of digits [ds] followed by something
    else: the cursor ends after the digits and the count is the digits
    read in base ten onto the count the field held; on a fresh
    invocation (count 0) that is their decimal value.  Without a digit
    under the cursor the count is set to 0 and the cursor stays. *)
Theorem parse_count_reads_decimal
        (ds rest : bytes) (arg : ExArg) :
  forallb isdigit ds = true ->
  ds <> [] ->
  isdigit (peek rest) = false ->
  (0 <= count arg)%Z ->
  (decimal_onto ds (count arg) < 2147483648)%Z ->
  parse_count (ds ++ rest) arg
  = (rest,
     mkExArg (decimal_onto ds (count arg)) (idx arg) (name arg) (code arg)
             (bang arg) (lhs arg) (rhs arg) (flags arg))
  /\ parse_count rest arg
     = (rest,
        mkExArg 0 (idx arg) (name arg) (code arg) (bang arg) (lhs arg)
                (rhs arg) (flags arg)).
Proof.
  intros Hd Hne Hr Hn Hmax. split.
  - unfold parse_count.
    destruct ds as [|d ds]; [congruence|].
    simpl in Hd. apply andb_prop in Hd. destruct Hd as [Hd0 Hd].
    assert (Hp : isdigit (peek ((d :: ds) ++ rest)) = true) by exact Hd0.
    rewrite Hp. cbn [negb].
    rewrite (parse_count_loop_onto (d :: ds) (count arg) rest); auto.
    simpl. rewrite Hd0, Hd. reflexivity.
  - unfold parse_count. rewrite Hr. reflexivity.
Qed.

(** X3 on [25o example.com] with a fresh invocation. *)
Lemma parse_count_reads_decimal_witness :
  parse_count (str "25" ++ str "o example.com") arg0
  = (str "o example.com",
     mkExArg (decimal_onto (str "25") (count arg0)) (idx arg0) (name arg0)
             (code arg0) (bang arg0) (lhs arg0) (rhs arg0) (flags arg0))
  /\ parse_count (str "o example.com") arg0
     = (str "o example.com",
        mkExArg 0 (idx arg0) (name arg0) (code arg0) (bang arg0) (lhs arg0)
                (rhs arg0) (flags arg0)).
Proof.
  apply (parse_count_reads_decimal (str "25") (str "o example.com") arg0).
  - reflexivity.
  - discriminate.
  - reflexivity.
  - simpl. lia.
  - reflexivity.
Defined.

(* ------------------------------------------------------------------ *)
(** ** The array of parse_command_name *)

(** X4.  Whatever the input, the matching loop of parse_command_name
    copies at most 17 characters to its array of 20: the longest name
    has 16 characters, and the loop ends with the first character that
    no entry continues with. *)
Theorem name_array_is_large_enough (fq : bool) (input : bytes) :
  List.length
    (snd (fst (name_loop (commands fq) (peek input) (advance input) [] 0)))
  <= 17
  /\ 17 < CMD_LENGTH.
Proof.
  split; [|unfold CMD_LENGTH; lia].
  destruct (name_loop (commands fq) (peek input) (advance input) [] 0)
    as [[[m f] b] r] eqn:Hl.
  destruct (name_loop_inv (commands fq) (commands_names_ok fq) _ _ _ _ _ _ _ _
              (eq_refl : forallb nonsep [] = true) (Nat.le_0_l 16)
              (or_introl eq_refl) Hl) as (Hlen & _).
  exact Hlen.
Qed.

Lemma name_loop_split (table : list ExInfo) (rest : bytes) :
  forall c buf first,
    snd (fst (name_loop table c rest buf first))
    ++ snd (name_loop table c rest buf first)
    = buf ++ c :: rest.
Proof.
  induction rest as [|c' rest IH]; intros c buf first.
  - rewrite name_loop_nil. destruct (scan _ _ _ _ _ _ _). simpl.
    rewrite <- app_assoc. reflexivity.
  - rewrite name_loop_cons. destruct (scan _ _ _ _ _ _ _) as [f m].
    destruct ((0 <? m) && negb (ch_eq c' NUL) && negb (ch_eq c' " ")
              && negb (ch_eq c' "!")).
    + rewrite IH, <- app_assoc. reflexivity.
    + simpl. rewrite <- app_assoc. reflexivity.
Qed.

Lemma error_token_fills : forall room input buf,
  forallb (fun c => negb (ch_eq c " ")) (firstn room input) = true ->
  List.length (snd (error_token room input buf)) = List.length buf + room.
Proof.
  induction room as [|k IH]; intros input buf Hns; simpl.
  - lia.
  - destruct input as [|c r]; simpl in *.
    + change (ch_eq NUL " ") with false. cbv iota.
      rewrite IH; [rewrite length_app; simpl; lia|].
      destruct k; reflexivity.
    + apply andb_prop in Hns. destruct Hns as [Hc Hr].
      destruct (ch_eq c " "); [discriminate|].
      rewrite IH; [rewrite length_app; simpl; lia | exact Hr].
Qed.

(** X5.  In the failure branch of parse_command_name the copy loop
    stops at a space or when [len] is the size of the array, not at the
    end of the input: when none of the first 20 bytes at the cursor is a
    space, [len] ends as 20, the size of the array, which is the index
    the closing terminator is then stored at. *)
Theorem unknown_word_fills_the_array (fq : bool) (input : bytes) :
  forallb (fun c => negb (ch_eq c " ")) (firstn CMD_LENGTH input) = true ->
  List.length (unknown_array fq input) = CMD_LENGTH.
Proof.
  intros Hns. unfold unknown_array.
  pose proof (name_loop_split (commands fq) (advance input) (peek input) [] 0)
    as Hsplit.
  destruct (name_loop (commands fq) (peek input) (advance input) [] 0)
    as [[[m f] b] r] eqn:Hl.
  destruct (name_loop_inv (commands fq) (commands_names_ok fq) _ _ _ _ _ _ _ _
              (eq_refl : forallb nonsep [] = true) (Nat.le_0_l 16)
              (or_introl eq_refl) Hl) as (Hlen & _).
  simpl in Hsplit.
  assert (Hns' : forallb (fun c => negb (ch_eq c " "))
                         (firstn CMD_LENGTH (peek input :: advance input))
                 = true).
  { destruct input; [reflexivity | exact Hns]. }
  rewrite <- Hsplit in Hns'.
  rewrite firstn_app, forallb_app in Hns'.
  apply andb_prop in Hns'. destruct Hns' as [_ Hr].
  rewrite error_token_fills by exact Hr.
  unfold CMD_LENGTH. lia.
Qed.

(** X5 on [frobnicate]. *)
Lemma unknown_word_fills_the_array_witness :
  List.length (unknown_array true (str "frobnicate")) = CMD_LENGTH.
Proof.
  apply (unknown_word_fills_the_array true (str "frobnicate")).
  reflexivity.
Defined.

(* ------------------------------------------------------------------ *)
(** ** Which names parse_command_name accepts *)


(** The name loop on the start of a registered name, as
    parse_command_name ends it. *)
Lemma parse_command_name_found
      {E : Type} (C : Collab E) (fq : bool) (X : ExInfo) (p tail : bytes)
      (arg : ExArg) (w : E) :
  In X (commands fq) ->
  g_str_has_prefix (cmd_name X) p = true ->
  p <> [] ->
  ends_name tail = true ->
  exists i A,
    nth_error (commands fq) i = Some A
    /\ g_str_has_prefix (cmd_name A) p = true
    /\ parse_command_name C fq (p ++ tail) arg w
       = (true, tail, set_command arg i A, w)
    /\ (p = cmd_name X -> A = X).
Proof.
  intros HX Hp Hne Ht.
  destruct (resolves_first_ok fq X p HX Hp Hne) as [Hr Hfirst].
  unfold resolves_first in Hr. rewrite Hfirst in Hr.
  destruct (earliest_with_prefix (commands fq) 0 p) as [[i A]|] eqn:He;
    [|discriminate].
  destruct (name_loop (commands fq) (peek p) (advance p) [] 0)
    as [[[m f] b] r] eqn:Hl.
  apply andb_prop in Hr. destruct Hr as [Hr Hsame].
  apply andb_prop in Hr. destruct Hr as [Hr Hnil].
  apply andb_prop in Hr. destruct Hr as [Hm Hf].
  apply Nat.eqb_eq in Hf. subst f.
  destruct r as [|? ?]; [|discriminate].
  apply earliest_with_prefix_spec in He.
  destruct He as (_ & Hnth & HA & _). rewrite Nat.sub_0_r in Hnth.
  exists i, A. repeat split; auto.
  - destruct p as [|c p']; [congruence|].
    unfold parse_command_name. simpl peek in *. simpl advance in *.
    rewrite (name_loop_app _ _ _ Ht). rewrite Hl.
    apply Nat.ltb_lt in Hm.
    destruct (Nat.eqb_spec m 0) as [Hz|_]; [lia|].
    rewrite (nth_error_nth _ _ _ Hnth). reflexivity.
  - intros Hwhole. unfold bytes_eqb in Hsame.
    destruct (list_eq_dec ascii_dec p (cmd_name X)); [|contradiction].
    destruct (ExInfo_eq_dec A X); [assumption | discriminate].
Qed.


(* ------------------------------------------------------------------ *)
(** ** What parse leaves in the invocation *)

Lemma parse_count_fields (i : bytes) (a : ExArg) :
  same_but_count (snd (parse_count i a)) a.
Proof.
  unfold parse_count, same_but_count.
  destruct (negb (isdigit (peek i))); [simpl; tauto|].
  destruct (parse_count_loop i (count a)). simpl. tauto.
Qed.

Lemma parse_bang_fields (i : bytes) (a : ExArg) :
  lhs (snd (parse_bang i a)) = lhs a /\ rhs (snd (parse_bang i a)) = rhs a
  /\ flags (snd (parse_bang i a)) = flags a
  /\ count (snd (parse_bang i a)) = count a
  /\ (bang a = true -> bang (snd (parse_bang i a)) = true).
Proof.
  unfold parse_bang. destruct (ch_eq (peek i) "!"); simpl; tauto.
Qed.

Lemma parse_lhs_fields (i : bytes) (a : ExArg) :
  let r := parse_lhs i a in
  rhs (snd r) = rhs a /\ flags (snd r) = flags a /\ bang (snd r) = bang a
  /\ count (snd r) = count a.
Proof.
  unfold parse_lhs. destruct (ch_eq (peek i) NUL); [simpl; tauto|].
  destruct (parse_lhs_loop i (lhs a)). simpl. tauto.
Qed.

Lemma parse_rhs_fields {E : Type} (C : Collab E) (i : bytes) (a : ExArg)
      (w : E) :
  let r := parse_rhs C i a w in
  lhs (snd r) = lhs a /\ flags (snd r) = flags a /\ bang (snd r) = bang a
  /\ count (snd r) = count a.
Proof.
  unfold parse_rhs. destruct (ch_eq (peek i) NUL); [simpl; tauto|].
  destruct (parse_rhs_loop _ _ _ _ _). simpl. tauto.
Qed.

Lemma parse_command_name_fields
      {E : Type} (C : Collab E) (fq : bool) (i : bytes) (a : ExArg) (w : E) :
  let r := parse_command_name C fq i a w in
  lhs (parsed r) = lhs a /\ rhs (parsed r) = rhs a
  /\ bang (parsed r) = bang a /\ count (parsed r) = count a.
Proof.
  unfold parse_command_name, parsed.
  destruct (name_loop _ _ _ _ _) as [[[m f] b] r].
  destruct (m =? 0); [destruct (error_token _ _ _)|]; simpl; tauto.
Qed.

(** The steps of a parse_args that succeeds. *)
Lemma parse_args_steps
      {E : Type} (C : Collab E) (fq : bool) (input : bytes) (arg : ExArg)
      (w : E) (mid : bytes) (arg' : ExArg) (w' : E) :
  parse_args C fq input arg w = (true, mid, arg', w') ->
  exists i1 a1 i2 a2 i3 a3 i4 a4,
    parse_count (skip_prompt input) (set_rhs (set_lhs arg []) []) = (i1, a1)
    /\ parse_command_name C fq (skip_whitespace i1) a1 w = (true, i2, a2, w')
    /\ (if has_flag (flags a2) EX_FLAG_BANG then parse_bang i2 a2
        else (i2, a2)) = (i3, a3)
    /\ (if has_flag (flags a3) EX_FLAG_LHS
        then (snd (fst (parse_lhs (skip_whitespace i3) a3)),
              snd (parse_lhs (skip_whitespace i3) a3))
        else (skip_whitespace i3, a3)) = (i4, a4)
    /\ (if has_flag (flags a4) EX_FLAG_RHS
        then (snd (fst (parse_rhs C (skip_whitespace i4) a4 w')),
              snd (parse_rhs C (skip_whitespace i4) a4 w'))
        else (skip_whitespace i4, a4)) = (mid, arg').
Proof.
  unfold parse_args. intros H.
  destruct (parse_count (skip_prompt input) (set_rhs (set_lhs arg []) []))
    as [i1 a1] eqn:Hc.
  destruct (parse_command_name C fq (skip_whitespace i1) a1 w)
    as [[[ok i2] a2] w2] eqn:Hn.
  destruct ok; [|discriminate]. cbn [negb] in H.
  destruct (if has_flag (flags a2) EX_FLAG_BANG then parse_bang i2 a2
            else (i2, a2)) as [i3 a3] eqn:Hb.
  destruct (if has_flag (flags a3) EX_FLAG_LHS
            then let '(_, i, a) := parse_lhs (skip_whitespace i3) a3 in (i, a)
            else (skip_whitespace i3, a3)) as [i4 a4] eqn:Hl.
  destruct (if has_flag (flags a4) EX_FLAG_RHS
            then let '(_, i, a) := parse_rhs C (skip_whitespace i4) a4 w2 in
                 (i, a)
            else (skip_whitespace i4, a4)) as [i5 a5] eqn:Hr.
  injection H as <- <- <-.
  exists i1, a1, i2, a2, i3, a3, i4, a4.
  split; [reflexivity|]. split; [exact Hn|]. split; [exact Hb|].
  split.
  - rewrite <- Hl. destruct (has_flag (flags a3) EX_FLAG_LHS); [|reflexivity].
    destruct (parse_lhs (skip_whitespace i3) a3) as [[? ?] ?]. reflexivity.
  - rewrite <- Hr. destruct (has_flag (flags a4) EX_FLAG_RHS); [|reflexivity].
    destruct (parse_rhs C (skip_whitespace i4) a4 w2) as [[? ?] ?].
    reflexivity.
Qed.

(** X7.  No parse clears the bang: an invocation that enters parse with
    the bang set leaves it with the bang set, whether the command takes
    a bang or not and whether the parse succeeds or not.  As
    ex_run_string uses one invocation for the whole line, a bang given to
    one command stays set for the commands after it. *)
Theorem bang_is_never_cleared
        {E : Type} (C : Collab E) (fq : bool) (input : bytes) (arg : ExArg)
        (w : E) :
  bang arg = true ->
  bang (parsed (parse C fq input arg w)) = true.
Proof.
  intros Hb. unfold parse, parsed.
  destruct (ch_eq (peek input) NUL); [exact Hb|].
  destruct (parse_args C fq input arg w) as [[[ok mid] a] w1] eqn:Hargs.
  destruct ok; cbn [negb]; simpl.
  - apply parse_args_steps in Hargs.
    destruct Hargs as (i1 & a1 & i2 & a2 & i3 & a3 & i4 & a4
                       & H1 & H2 & H3 & H4 & H5).
    pose proof (parse_count_fields (skip_prompt input)
                  (set_rhs (set_lhs arg []) [])) as F1.
    rewrite H1 in F1. destruct F1 as (_ & _ & _ & F1 & _).
    pose proof (parse_command_name_fields C fq (skip_whitespace i1) a1 w) as F2.
    rewrite H2 in F2. destruct F2 as (_ & _ & F2 & _).
    unfold parsed in F2. simpl in F1, F2.
    assert (B2 : bang a2 = true) by congruence.
    assert (B3 : bang a3 = true).
    { destruct (has_flag (flags a2) EX_FLAG_BANG).
      - pose proof (parse_bang_fields i2 a2) as F3. rewrite H3 in F3.
        apply F3. exact B2.
      - injection H3 as _ <-. exact B2. }
    assert (B4 : bang a4 = true).
    { destruct (has_flag (flags a3) EX_FLAG_LHS).
      - pose proof (parse_lhs_fields (skip_whitespace i3) a3) as F4.
        injection H4 as _ <-. destruct F4 as (_ & _ & F4 & _). congruence.
      - injection H4 as _ <-. exact B3. }
    destruct (has_flag (flags a4) EX_FLAG_RHS).
    + pose proof (parse_rhs_fields C (skip_whitespace i4) a4 w1) as F5.
      injection H5 as _ <-. destruct F5 as (_ & _ & F5 & _). congruence.
    + injection H5 as _ <-. exact B4.
  - unfold parse_args in Hargs.
    pose proof (parse_count_fields (skip_prompt input)
                  (set_rhs (set_lhs arg []) [])) as F1.
    destruct (parse_count (skip_prompt input) (set_rhs (set_lhs arg []) []))
      as [i1 a1].
    pose proof (parse_command_name_fields C fq (skip_whitespace i1) a1 w) as F2.
    destruct (parse_command_name C fq (skip_whitespace i1) a1 w)
      as [[[ok i2] a2] w2].
    destruct F1 as (_ & _ & _ & F1 & _). destruct F2 as (_ & _ & F2 & _).
    unfold parsed in F2. simpl in F1, F2.
    destruct ok; cbn [negb] in Hargs.
    + destruct (if has_flag (flags a2) EX_FLAG_BANG then parse_bang i2 a2
                else (i2, a2)) as [i3 a3].
      destruct (if has_flag (flags a3) EX_FLAG_LHS
                then let '(_, i, a) := parse_lhs (skip_whitespace i3) a3 in
                     (i, a)
                else (skip_whitespace i3, a3)) as [i4 a4].
      destruct (if has_flag (flags a4) EX_FLAG_RHS
                then let '(_, i, a) := parse_rhs C (skip_whitespace i4) a4 w2 in
                     (i, a)
                else (skip_whitespace i4, a4)) as [i5 a5].
      discriminate.
    + injection Hargs as _ <- _. congruence.
Qed.

(** X7 on the second command of [normal! a |normal b]: it is parsed
    with the invocation the first one left. *)
Lemma bang_is_never_cleared_witness :
  bang (parsed (parse demo false (str "normal b")
                      (parsed (parse demo false (str "normal! a |normal b")
                                     arg0 demo0))
                      demo0)) = true.
Proof.
  apply (@bang_is_never_cleared Demo demo false (str "normal b")
           (parsed (parse demo false (str "normal! a |normal b") arg0 demo0))
           demo0).
  reflexivity.
Defined.

(** The line [normal! a |normal b] run: the keys of the second command
    are replayed without mappings too. *)
Lemma bang_stays_for_the_line :
  ex_run_string recorded false (str "normal! a |normal b") []
  = Some (true, [ModeEnter "n"; MapHandleString (str "a") false;
                 ModeEnter "n"; MapHandleString (str "b") false]).
Proof. reflexivity. Qed.

(** X8.  A command that parsed gets no argument its table entry does
    not declare: without the flag for a left hand side the left hand
    side is empty, and without the flag for a right hand side the right
    hand side is empty, whatever follows the name on the line and
    whatever the command before it left in the invocation. *)
Theorem undeclared_arguments_stay_empty
        {E : Type} (C : Collab E) (fq : bool) (input : bytes) (arg : ExArg)
        (w : E) :
  succeeded (parse C fq input arg w) = true ->
  (has_flag (flags (parsed (parse C fq input arg w))) EX_FLAG_LHS = false ->
   lhs (parsed (parse C fq input arg w)) = [])
  /\ (has_flag (flags (parsed (parse C fq input arg w))) EX_FLAG_RHS = false ->
      rhs (parsed (parse C fq input arg w)) = []).
Proof.
  unfold parse, parsed, succeeded.
  destruct (ch_eq (peek input) NUL); [simpl; discriminate|].
  destruct (parse_args C fq input arg w) as [[[ok mid] a] w1] eqn:Hargs.
  destruct ok; cbn [negb]; simpl; [intros _ | discriminate].
  apply parse_args_steps in Hargs.
  destruct Hargs as (i1 & a1 & i2 & a2 & i3 & a3 & i4 & a4
                     & H1 & H2 & H3 & H4 & H5).
  pose proof (parse_count_fields (skip_prompt input)
                (set_rhs (set_lhs arg []) [])) as F1.
  rewrite H1 in F1. destruct F1 as (_ & _ & _ & _ & L1 & R1 & _).
  pose proof (parse_command_name_fields C fq (skip_whitespace i1) a1 w) as F2.
  rewrite H2 in F2. destruct F2 as (L2 & R2 & _).
  unfold parsed in L2, R2. simpl in L1, R1, L2, R2.
  assert (F3 : lhs a3 = [] /\ rhs a3 = [] /\ flags a3 = flags a2).
  { destruct (has_flag (flags a2) EX_FLAG_BANG).
    - pose proof (parse_bang_fields i2 a2) as F3. rewrite H3 in F3.
      simpl in F3. destruct F3 as (L3 & R3 & G3 & _).
      repeat split; congruence.
    - injection H3 as _ <-. repeat split; congruence. }
  destruct F3 as (L3 & R3 & G3).
  assert (F4 : (has_flag (flags a4) EX_FLAG_LHS = false -> lhs a4 = [])
               /\ rhs a4 = [] /\ flags a4 = flags a3).
  { destruct (has_flag (flags a3) EX_FLAG_LHS) eqn:Hl.
    - pose proof (parse_lhs_fields (skip_whitespace i3) a3) as F4.
      injection H4 as _ <-. destruct F4 as (R4 & G4 & _).
      split; [|split; congruence]. rewrite G4, Hl. discriminate.
    - injection H4 as _ <-. repeat split; congruence. }
  destruct F4 as (L4 & R4 & G4).
  destruct (has_flag (flags a4) EX_FLAG_RHS) eqn:Hr.
  - pose proof (parse_rhs_fields C (skip_whitespace i4) a4 w1) as F5.
    injection H5 as _ <-. destruct F5 as (L5 & G5 & _).
    split.
    + rewrite G5, L5. exact L4.
    + rewrite G5, Hr. discriminate.
  - injection H5 as _ <-. split; [exact L4 | intros _; exact R4].
Qed.

(** X8 on [quit now] after a command that left arguments. *)
Lemma undeclared_arguments_stay_empty_witness :
  (has_flag (flags (parsed (parse demo false (str "quit now")
                                  (set_rhs (set_lhs arg0 (str "x")) (str "y"))
                                  demo0))) EX_FLAG_LHS = false ->
   lhs (parsed (parse demo false (str "quit now")
                      (set_rhs (set_lhs arg0 (str "x")) (str "y")) demo0)) = [])
  /\ (has_flag (flags (parsed (parse demo false (str "quit now")
                                     (set_rhs (set_lhs arg0 (str "x")) (str "y"))
                                     demo0))) EX_FLAG_RHS = false ->
      rhs (parsed (parse demo false (str "quit now")
                         (set_rhs (set_lhs arg0 (str "x")) (str "y")) demo0))
      = []).
Proof.
  apply (@undeclared_arguments_stay_empty Demo demo false (str "quit now")
           (set_rhs (set_lhs arg0 (str "x")) (str "y")) demo0).
  reflexivity.
Defined.

(* ------------------------------------------------------------------ *)
(** ** Plain text in the arguments *)

Lemma parse_rhs_loop_plain
      (uri : option bytes) (home : bytes) (fl : Z) (t tail out : bytes) :
  forallb (plain_rhs fl) t = true ->
  ends_rhs (peek tail) = true ->
  parse_rhs_loop uri home fl (t ++ tail) out = (tail, out ++ t).
Proof.
  intros Ht Htail. revert out.
  induction t as [|c t IH]; intros out.
  - rewrite app_nil_r. simpl. destruct tail as [|d tail]; [reflexivity|].
    cbn [parse_rhs_loop]. unfold ends_rhs in Htail. simpl in Htail.
    rewrite Htail. reflexivity.
  - simpl in Ht. apply andb_prop in Ht. destruct Ht as [Hc Ht].
    unfold plain_rhs, ends_rhs in Hc.
    apply andb_prop in Hc. destruct Hc as [Hc Hexp].
    apply andb_prop in Hc. destruct Hc as [Hend Hq].
    simpl app. cbn [parse_rhs_loop].
    destruct (ch_eq c NUL || ch_eq c "010" || ch_eq c "|"); [discriminate|].
    destruct (ch_eq c "\"); [discriminate|].
    destruct (has_flag fl EX_FLAG_EXP && (ch_eq c "%" || ch_eq c "~"));
      [discriminate|].
    rewrite (IH Ht), <- app_assoc. reflexivity.
Qed.

(** X9.  The loop of parse_rhs takes plain text as it is: text without
    terminator, newline, bar and backslash (and, for an entry marked
    expandable, without [%] and [~]), followed by the end of the input,
    a newline or a bar, is appended to the right hand side unchanged, and
    the cursor is left on what follows it. *)
Theorem plain_text_is_the_rhs
        (uri : option bytes) (home : bytes) (fl : Z) (t tail out : bytes) :
  forallb (plain_rhs fl) t = true ->
  ends_rhs (peek tail) = true ->
  parse_rhs_loop uri home fl (t ++ tail) out = (tail, out ++ t).
Proof. apply parse_rhs_loop_plain. Qed.

(** X9 on [example.com|q] for the flags of save. *)
Lemma plain_text_is_the_rhs_witness :
  parse_rhs_loop None (str "/home/user") (Z.lor EX_FLAG_RHS EX_FLAG_EXP)
                 (str "example.com" ++ str "|q") []
  = (str "|q", [] ++ str "example.com").
Proof.
  apply (plain_text_is_the_rhs None (str "/home/user")
           (Z.lor EX_FLAG_RHS EX_FLAG_EXP) (str "example.com") (str "|q") []).
  - reflexivity.
  - reflexivity.
Defined.

Lemma parse_lhs_loop_plain (t tail out : bytes) :
  forallb plain_lhs t = true ->
  ch_eq (peek tail) NUL || ch_eq (peek tail) " " = true ->
  parse_lhs_loop (t ++ tail) out = (tail, out ++ t).
Proof.
  intros Ht Htail. revert out.
  induction t as [|c t IH]; intros out.
  - rewrite app_nil_r. simpl. destruct tail as [|d tail]; [reflexivity|].
    cbn [parse_lhs_loop]. simpl in Htail. rewrite Htail. reflexivity.
  - simpl in Ht. apply andb_prop in Ht. destruct Ht as [Hc Ht].
    unfold plain_lhs in Hc. apply andb_prop in Hc. destruct Hc as [Hend Hq].
    simpl app. cbn [parse_lhs_loop].
    destruct (ch_eq c NUL || ch_eq c " "); [discriminate|].
    destruct (ch_eq c "\"); [discriminate|].
    rewrite (IH Ht), <- app_assoc. reflexivity.
Qed.

(** X10.  The loop of parse_lhs takes a plain word as it is: characters
    other than terminator, space and backslash, followed by the end of
    the input or a space, are appended to the left hand side unchanged,
    and the cursor is left on what follows them. *)
Theorem plain_word_is_the_lhs (t tail out : bytes) :
  forallb plain_lhs t = true ->
  ch_eq (peek tail) NUL || ch_eq (peek tail) " " = true ->
  parse_lhs_loop (t ++ tail) out = (tail, out ++ t).
Proof. apply parse_lhs_loop_plain. Qed.

(** X10 on [gg :open] . *)
Lemma plain_word_is_the_lhs_witness :
  parse_lhs_loop (str "gg" ++ str " :open") [] = (str " :open", [] ++ str "gg").
Proof.
  apply (plain_word_is_the_lhs (str "gg") (str " :open") []).
  - reflexivity.
  - reflexivity.
Defined.

(* ------------------------------------------------------------------ *)
(** ** A whole command *)

Lemma commands_plain_start (fq : bool) :
  forallb plain_start (map cmd_name (commands fq)) = true.
Proof. destruct fq; vm_compute; reflexivity. Qed.

Lemma has_prefix_refl (n : bytes) : g_str_has_prefix n n = true.
Proof.
  induction n as [|c n IH]; [reflexivity|].
  cbn [g_str_has_prefix]. rewrite ch_eq_refl. exact IH.
Qed.

Lemma skip_prompt_stays (i : bytes) :
  ch_eq (peek i) ":" = false -> ch_eq (peek i) " " = false ->
  skip_prompt i = i.
Proof.
  destruct i as [|c r]; [reflexivity|]. simpl. intros H1 H2.
  rewrite H1, H2, andb_false_r. reflexivity.
Qed.

Lemma skip_whitespace_stays (i : bytes) :
  ch_eq (peek i) " " = false -> skip_whitespace i = i.
Proof.
  destruct i as [|c r]; [reflexivity|]. simpl. intros H.
  rewrite H, andb_false_r. reflexivity.
Qed.

(** The parse of a full command name, one space and plain text. *)
Lemma plain_command_parse
        {E : Type} (C : Collab E) (fq : bool) (X : ExInfo) (t tail : bytes)
        (arg : ExArg) (w : E) :
  In X (commands fq) ->
  has_flag (cmd_flags X) EX_FLAG_RHS = true ->
  has_flag (cmd_flags X) EX_FLAG_LHS = false ->
  forallb (plain_rhs (cmd_flags X)) t = true ->
  t <> [] ->
  ch_eq (peek t) " " = false ->
  ends_rhs (peek tail) = true ->
  exists i,
    nth_error (commands fq) i = Some X
    /\ parse C fq (cmd_name X ++ " "%char :: t ++ tail) arg w
       = (true, step_over tail,
          mkExArg 0 i (cmd_name X) (cmd_code X) (bang arg) [] t (cmd_flags X),
          w).
Proof.
  intros HX Hrhs Hlhs Ht Hne Hsp Htail.
  pose proof (commands_plain_start fq) as Hstart.
  rewrite forallb_forall in Hstart.
  specialize (Hstart (cmd_name X) (in_map cmd_name _ _ HX)).
  unfold plain_start in Hstart.
  apply andb_prop in Hstart. destruct Hstart as [Hstart Hnul].
  apply andb_prop in Hstart. destruct Hstart as [Hstart Hdig].
  apply andb_prop in Hstart. destruct Hstart as [Hcolon Hspace].
  apply negb_true_iff in Hnul, Hdig, Hcolon, Hspace.
  assert (Hname : cmd_name X <> []).
  { intros Hnil. rewrite Hnil in Hnul. discriminate. }
  set (input := cmd_name X ++ " "%char :: t ++ tail).
  assert (Hpeek : peek input = peek (cmd_name X)).
  { unfold input. destruct (cmd_name X); [congruence | reflexivity]. }
  set (a0 := set_rhs (set_lhs arg []) []).
  destruct (parse_command_name_found C fq X (cmd_name X)
              (" "%char :: t ++ tail) (set_count a0 0) w HX
              (has_prefix_refl _) Hname eq_refl)
    as (i & A & Hnth & _ & Hparse & HA).
  specialize (HA eq_refl). subst A.
  exists i. split; [exact Hnth|].
  assert (Hskip : skip_whitespace (" "%char :: t ++ tail) = t ++ tail).
  { destruct t as [|c t']; [congruence|]. simpl in Hsp. simpl.
    rewrite Hsp, andb_false_r. reflexivity. }
  assert (Hstay : skip_whitespace (t ++ tail) = t ++ tail).
  { apply skip_whitespace_stays. destruct t; [congruence | exact Hsp]. }
  assert (Hfirst : ch_eq (peek (t ++ tail)) NUL = false).
  { destruct t as [|c t']; [congruence|]. simpl in Ht. simpl.
    apply andb_prop in Ht. destruct Ht as [Hc _]. unfold plain_rhs, ends_rhs in Hc.
    destruct (ch_eq c NUL); [discriminate | reflexivity]. }
  unfold parse. fold input. rewrite Hpeek, Hnul.
  unfold parse_args. fold a0.
  rewrite (skip_prompt_stays input) by (rewrite Hpeek; assumption).
  unfold parse_count. rewrite Hpeek, Hdig. cbn [negb].
  rewrite (skip_whitespace_stays input) by (rewrite Hpeek; assumption).
  unfold input. rewrite Hparse. cbn [negb].
  cbn [flags set_command].
  assert (Hbang : parse_bang (" "%char :: t ++ tail)
                             (set_command (set_count a0 0) i X)
                  = (" "%char :: t ++ tail, set_command (set_count a0 0) i X))
    by reflexivity.
  rewrite Hbang.
  destruct (has_flag (cmd_flags X) EX_FLAG_BANG);
    cbv beta iota zeta; cbn [flags set_command]; rewrite Hlhs, Hskip;
    cbv beta iota zeta; cbn [flags set_command]; rewrite Hstay, Hrhs;
    unfold parse_rhs; rewrite Hfirst;
    cbn [flags set_command rhs set_count set_rhs set_lhs]; unfold a0;
    cbn [flags set_command rhs set_count set_rhs set_lhs];
    rewrite (parse_rhs_loop_plain _ _ _ _ _ _ Ht Htail);
    reflexivity.
Qed.

(** X11.  A full command name, one space and plain text parse to that
    command with the text as right hand side.  For every entry [X] of
    the table that takes a right hand side and no left hand side, and
    every plain text [t] that is not empty and does not start with a
    space, the input [name t] followed by the end of the input, a
    newline or a bar parses to the invocation of [X] with count 0, no
    left hand side and the right hand side [t]; no message is shown, and
    the cursor is left past the separator. *)
Theorem plain_command_parses
        {E : Type} (C : Collab E) (fq : bool) (X : ExInfo) (t tail : bytes)
        (arg : ExArg) (w : E) :
  In X (commands fq) ->
  has_flag (cmd_flags X) EX_FLAG_RHS = true ->
  has_flag (cmd_flags X) EX_FLAG_LHS = false ->
  forallb (plain_rhs (cmd_flags X)) t = true ->
  t <> [] ->
  ch_eq (peek t) " " = false ->
  ends_rhs (peek tail) = true ->
  exists i,
    nth_error (commands fq) i = Some X
    /\ parse C fq (cmd_name X ++ " "%char :: t ++ tail) arg w
       = (true, step_over tail,
          mkExArg 0 i (cmd_name X) (cmd_code X) (bang arg) [] t (cmd_flags X),
          w).
Proof.
  exact (plain_command_parse C fq X t tail arg w).
Qed.

(** X11 on [set foo=bar|q]. *)
Lemma plain_command_parses_witness :
  exists i,
    nth_error (commands true) i = Some (cmd "set" EX_SET F_set EX_FLAG_RHS)
    /\ parse demo true
             (cmd_name (cmd "set" EX_SET F_set EX_FLAG_RHS)
              ++ " "%char :: str "foo=bar" ++ str "|q") arg0 demo0
       = (true, step_over (str "|q"),
          mkExArg 0 i (cmd_name (cmd "set" EX_SET F_set EX_FLAG_RHS))
                  (cmd_code (cmd "set" EX_SET F_set EX_FLAG_RHS)) (bang arg0)
                  [] (str "foo=bar")
                  (cmd_flags (cmd "set" EX_SET F_set EX_FLAG_RHS)),
          demo0).
Proof.
  apply (@plain_command_parses Demo demo true
           (cmd "set" EX_SET F_set EX_FLAG_RHS) (str "foo=bar") (str "|q")
           arg0 demo0).
  - simpl. tauto.
  - reflexivity.
  - reflexivity.
  - reflexivity.
  - discriminate.
  - reflexivity.
  - reflexivity.
Defined.

(* ------------------------------------------------------------------ *)
(** ** Placeholders in the right hand side (C1, C5) *)

Lemma parse_rhs_loop_at_end
      (uri : option bytes) (home : bytes) (fl : Z) (tail out : bytes) :
  ends_rhs (peek tail) = true ->
  parse_rhs_loop uri home fl tail out = (tail, out).
Proof.
  intros Htail. destruct tail as [|e tail']; [reflexivity|].
  cbn [parse_rhs_loop]. unfold ends_rhs in Htail. cbn [peek hd] in Htail.
  rewrite Htail. reflexivity.
Qed.

(** The loop of parse_rhs on a closed text, for an entry marked
    expandable: the text is read to its end and what is appended is
    what the text stands for. *)
Lemma parse_rhs_loop_expanded
      (uri : option bytes) (home : bytes) (fl : Z) (tail : bytes) :
  has_flag fl EX_FLAG_EXP = true ->
  ends_rhs (peek tail) = true ->
  forall n t out,
    List.length t <= n ->
    closed_text t = true ->
    parse_rhs_loop uri home fl (t ++ tail) out
    = (tail, out ++ expanded uri home t).
Proof.
  intros Hexp Htail.
  induction n as [|n IH]; intros t out Hlen Ht.
  - destruct t; [|simpl in Hlen; lia].
    cbn [app expanded]. rewrite app_nil_r.
    apply parse_rhs_loop_at_end. exact Htail.
  - destruct t as [|c r].
    + cbn [app expanded]. rewrite app_nil_r.
      apply parse_rhs_loop_at_end. exact Htail.
    + cbn [closed_text] in Ht. apply andb_prop in Ht.
      destruct Ht as [Hend Ht]. apply negb_true_iff in Hend.
      unfold ends_rhs in Hend. cbn [List.length] in Hlen.
      cbn [app parse_rhs_loop expanded]. rewrite Hend, Hexp. cbn [andb].
      destruct (ch_eq c "\"%char) eqn:Hq.
      * cbn [orb] in Ht. destruct r as [|c2 r2]; [discriminate|].
        apply andb_prop in Ht. destruct Ht as [_ Ht].
        cbn [List.length] in Hlen. apply ch_eq_true in Hq. subst c.
        cbn [app].
        destruct (ch_eq c2 "|"%char);
          rewrite (IH r2 _ ltac:(lia) Ht), <- app_assoc; reflexivity.
      * cbn [orb] in Ht. destruct (ch_eq c "%"%char) eqn:Hpc.
        -- cbn [orb].
           assert (Hti : ch_eq c "~"%char = false).
           { apply ch_eq_true in Hpc. subst c. reflexivity. }
           rewrite Hti in Ht.
           rewrite (IH r _ ltac:(lia) Ht).
           destruct uri as [u|]; [rewrite <- app_assoc|]; reflexivity.
        -- cbn [orb]. destruct (ch_eq c "~"%char) eqn:Hti.
           ++ destruct r as [|c2 r2]; [discriminate|].
              apply andb_prop in Ht. destruct Ht as [_ Ht].
              cbn [List.length] in Hlen. cbn [app].
              rewrite (IH r2 _ ltac:(lia) Ht).
              destruct (ch_eq c2 "/"%char);
                [rewrite <- !app_assoc | rewrite app_nil_l]; reflexivity.
           ++ rewrite (IH r _ ltac:(lia) Ht), <- app_assoc. reflexivity.
Qed.

(** The parse of a full command name, one space and the text of a
    right hand side, for an entry without left hand side, given what
    the loop of parse_rhs makes of the text. *)
Lemma rhs_command_parse
      {E : Type} (C : Collab E) (fq : bool) (X : ExInfo) (t tail r : bytes)
      (arg : ExArg) (w : E) :
  In X (commands fq) ->
  has_flag (cmd_flags X) EX_FLAG_RHS = true ->
  has_flag (cmd_flags X) EX_FLAG_LHS = false ->
  ch_eq (peek (t ++ tail)) NUL = false ->
  ch_eq (peek (t ++ tail)) " " = false ->
  parse_rhs_loop (GET_URI C w) (g_get_home_dir C w) (cmd_flags X)
                 (t ++ tail) []
  = (tail, r) ->
  exists i,
    nth_error (commands fq) i = Some X
    /\ parse C fq (cmd_name X ++ " "%char :: t ++ tail) arg w
       = (true, step_over tail,
          mkExArg 0 i (cmd_name X) (cmd_code X) (bang arg) [] r (cmd_flags X),
          w).
Proof.
  intros HX Hrhs Hlhs Hfirst Hsp Hloop.
  pose proof (commands_plain_start fq) as Hstart.
  rewrite forallb_forall in Hstart.
  specialize (Hstart (cmd_name X) (in_map cmd_name _ _ HX)).
  unfold plain_start in Hstart.
  apply andb_prop in Hstart. destruct Hstart as [Hstart Hnul].
  apply andb_prop in Hstart. destruct Hstart as [Hstart Hdig].
  apply andb_prop in Hstart. destruct Hstart as [Hcolon Hspace].
  apply negb_true_iff in Hnul, Hdig, Hcolon, Hspace.
  assert (Hname : cmd_name X <> []).
  { intros Hnil. rewrite Hnil in Hnul. discriminate. }
  set (input := cmd_name X ++ " "%char :: t ++ tail).
  assert (Hpeek : peek input = peek (cmd_name X)).
  { unfold input. destruct (cmd_name X); [congruence | reflexivity]. }
  set (a0 := set_rhs (set_lhs arg []) []).
  destruct (parse_command_name_found C fq X (cmd_name X)
              (" "%char :: t ++ tail) (set_count a0 0) w HX
              (has_prefix_refl _) Hname eq_refl)
    as (i & A & Hnth & _ & Hparse & HA).
  specialize (HA eq_refl). subst A.
  exists i. split; [exact Hnth|].
  assert (Hskip : skip_whitespace (" "%char :: t ++ tail) = t ++ tail).
  { cbn [skip_whitespace]. rewrite ch_eq_refl.
    replace (negb (ch_eq " " NUL)) with true by reflexivity. cbn [andb].
    apply skip_whitespace_stays. exact Hsp. }
  assert (Hstay : skip_whitespace (t ++ tail) = t ++ tail).
  { apply skip_whitespace_stays. exact Hsp. }
  unfold parse. fold input. rewrite Hpeek, Hnul.
  unfold parse_args. fold a0.
  rewrite (skip_prompt_stays input) by (rewrite Hpeek; assumption).
  unfold parse_count. rewrite Hpeek, Hdig. cbn [negb].
  rewrite (skip_whitespace_stays input) by (rewrite Hpeek; assumption).
  unfold input. rewrite Hparse. cbn [negb].
  cbn [flags set_command].
  assert (Hbang : parse_bang (" "%char :: t ++ tail)
                             (set_command (set_count a0 0) i X)
                  = (" "%char :: t ++ tail, set_command (set_count a0 0) i X))
    by reflexivity.
  rewrite Hbang.
  destruct (has_flag (cmd_flags X) EX_FLAG_BANG);
    cbv beta iota zeta; cbn [flags set_command]; rewrite Hlhs, Hskip;
    cbv beta iota zeta; cbn [flags set_command]; rewrite Hstay, Hrhs;
    unfold parse_rhs; rewrite Hfirst;
    cbn [flags set_command rhs set_count set_rhs set_lhs]; unfold a0;
    cbn [flags set_command rhs set_count set_rhs set_lhs];
    rewrite Hloop; reflexivity.
Qed.


Lemma closed_text_first (t tail : bytes) :
  closed_text t = true -> t <> [] ->
  ch_eq (peek (t ++ tail)) NUL = false.
Proof.
  intros Ht Hne. destruct t as [|c r]; [congruence|].
  cbn [closed_text] in Ht. apply andb_prop in Ht. destruct Ht as [Hend _].
  apply negb_true_iff in Hend. unfold ends_rhs in Hend.
  cbn [app peek hd]. destruct (ch_eq c NUL); [discriminate | reflexivity].
Qed.

Lemma peek_app (t tail : bytes) : t <> [] -> peek (t ++ tail) = peek t.
Proof. destruct t; [congruence | reflexivity]. Qed.

(** Plain text before a closed text: it stands for itself. *)
Lemma expanded_after_plain
      (uri : option bytes) (home : bytes) (fl : Z) (t1 t' : bytes) :
  has_flag fl EX_FLAG_EXP = true ->
  forallb (plain_rhs fl) t1 = true ->
  expanded uri home (t1 ++ t') = t1 ++ expanded uri home t'
  /\ closed_text (t1 ++ t') = closed_text t'.
Proof.
  intros Hexp. induction t1 as [|c t1 IH]; intros Ht1; [split; reflexivity|].
  cbn [forallb] in Ht1. apply andb_prop in Ht1. destruct Ht1 as [Hc Ht1].
  destruct (IH Ht1) as [IHe IHc].
  unfold plain_rhs in Hc. rewrite Hexp in Hc. cbn [andb] in Hc.
  apply andb_prop in Hc. destruct Hc as [Hc Hph].
  apply andb_prop in Hc. destruct Hc as [Hend Hq].
  apply negb_true_iff in Hq, Hph. apply orb_false_iff in Hph.
  destruct Hph as [Hpc Hti].
  cbn [app expanded closed_text]. rewrite Hq, Hpc, Hti, Hend, IHe, IHc.
  split; reflexivity.
Qed.



(** The entries marked expandable take a right hand side and no left
    hand side. *)
Lemma expandable_flags (fq : bool) (X : ExInfo) :
  In X (commands fq) ->
  has_flag (cmd_flags X) EX_FLAG_EXP = true ->
  has_flag (cmd_flags X) EX_FLAG_RHS = true
  /\ has_flag (cmd_flags X) EX_FLAG_LHS = false
  /\ (cmd_code X = EX_SAVE \/ cmd_code X = EX_SHELLCMD).
Proof.
  intros HX Hexp. destruct fq; simpl in HX;
    repeat (destruct HX as [HX | HX];
            [subst X; first [discriminate Hexp
                           | repeat split; (reflexivity || (left; reflexivity)
                                            || (right; reflexivity))]|]);
    contradiction.
Qed.

(** The parse of the full name of an entry marked expandable, one
    space and a closed text. *)
Lemma expandable_command_parse
      {E : Type} (C : Collab E) (fq : bool) (X : ExInfo) (t tail : bytes)
      (arg : ExArg) (w : E) :
  In X (commands fq) ->
  has_flag (cmd_flags X) EX_FLAG_EXP = true ->
  closed_text t = true ->
  t <> [] ->
  ch_eq (peek t) " " = false ->
  ends_rhs (peek tail) = true ->
  exists i,
    nth_error (commands fq) i = Some X
    /\ parse C fq (cmd_name X ++ " "%char :: t ++ tail) arg w
       = (true, step_over tail,
          mkExArg 0 i (cmd_name X) (cmd_code X) (bang arg) []
                  (expanded (GET_URI C w) (g_get_home_dir C w) t)
                  (cmd_flags X),
          w).
Proof.
  intros HX Hexp Ht Hne Hsp Htail.
  destruct (expandable_flags fq X HX Hexp) as (Hrhs & Hlhs & _).
  apply (rhs_command_parse C fq X t tail _ arg w HX Hrhs Hlhs).
  - apply closed_text_first; assumption.
  - rewrite (peek_app t tail Hne). exact Hsp.
  - rewrite (parse_rhs_loop_expanded _ _ _ tail Hexp Htail
               (List.length t) t [] (le_n _) Ht).
    reflexivity.
Qed.



(** C1, amended, on lines: every [%] of [:save a%b%], the escaped one
    of [:shellcmd echo \% %] kept, and the [%] of [:nmap ,p :open %]
    and [:tabopen %] copied. *)
Example percent_lines :
  rhs (parsed (parse demo true (str ":save a%b%") arg0 demo0))
  = str "ahttp://example.org/bhttp://example.org/"
  /\ rhs (parsed (parse demo true (str ":shellcmd echo \% %") arg0 demo0))
     = str "echo \% http://example.org/"
  /\ rhs (parsed (parse demo true (str ":nmap ,p :open %") arg0 demo0))
     = str ":open %"
  /\ rhs (parsed (parse demo true (str ":tabopen %") arg0 demo0)) = str "%".
Proof. repeat split; reflexivity. Qed.

(** C5, amended.  For every entry [X] marked expandable (save and
    shellcmd), on the line made of its name, a space, plain text [t1]
    (which may be empty), a tilde and more text: when a slash follows
    the tilde, the right hand side is [t1], the home directory that
    g_get_home_dir returns, the slash, and what the rest of the text
    stands for, so a [~/] is replaced wherever it stands; when another
    character follows, nothing is put for the tilde, and the home
    directory is not.  In general the right hand side of a closed text
    [t] is [expanded uri home t], in which every [~/] whose tilde is
    reached as an unescaped character stands for the home directory
    and the slash. *)
Theorem tilde_slash_expands_anywhere
        {E : Type} (C : Collab E) (fq : bool) (X : ExInfo)
        (t1 t2 tail : bytes) (arg : ExArg) (w : E) :
  In X (commands fq) ->
  has_flag (cmd_flags X) EX_FLAG_EXP = true ->
  forallb (plain_rhs (cmd_flags X)) t1 = true ->
  ch_eq (peek t1) " " = false ->
  closed_text t2 = true ->
  ends_rhs (peek tail) = true ->
  (succeeded (parse C fq (cmd_name X ++ " "%char :: t1
                          ++ "~"%char :: "/"%char :: t2 ++ tail) arg w)
   = true
   /\ code (parsed (parse C fq (cmd_name X ++ " "%char :: t1
                                ++ "~"%char :: "/"%char :: t2 ++ tail) arg w))
      = cmd_code X
   /\ rhs (parsed (parse C fq (cmd_name X ++ " "%char :: t1
                               ++ "~"%char :: "/"%char :: t2 ++ tail) arg w))
      = t1 ++ g_get_home_dir C w
           ++ "/"%char :: expanded (GET_URI C w) (g_get_home_dir C w) t2)
  /\ (forall c,
        ch_eq c "/" = false ->
        ch_eq c NUL = false ->
        succeeded (parse C fq (cmd_name X ++ " "%char :: t1
                               ++ "~"%char :: c :: t2 ++ tail) arg w)
        = true
        /\ rhs (parsed (parse C fq (cmd_name X ++ " "%char :: t1
                                    ++ "~"%char :: c :: t2 ++ tail) arg w))
           = t1 ++ expanded (GET_URI C w) (g_get_home_dir C w) t2)
  /\ (forall t,
        closed_text t = true ->
        t <> [] ->
        ch_eq (peek t) " " = false ->
        rhs (parsed (parse C fq (cmd_name X ++ " "%char :: t ++ tail) arg w))
        = expanded (GET_URI C w) (g_get_home_dir C w) t).
Proof.
  intros HX Hexp Ht1 Hsp Ht2 Htail.
  assert (Hgen : forall c,
            ch_eq c NUL = false ->
            exists i,
              parse C fq (cmd_name X ++ " "%char :: t1
                          ++ "~"%char :: c :: t2 ++ tail) arg w
              = (true, step_over tail,
                 mkExArg 0 i (cmd_name X) (cmd_code X) (bang arg) []
                         (t1 ++ (if ch_eq c "/"
                                 then g_get_home_dir C w ++ [c] else [])
                             ++ expanded (GET_URI C w) (g_get_home_dir C w) t2)
                         (cmd_flags X),
                 w)).
  { intros c Hc.
    destruct (expanded_after_plain (GET_URI C w) (g_get_home_dir C w)
                (cmd_flags X) t1 ("~"%char :: c :: t2) Hexp Ht1)
      as [Hexpd Hclosed].
    destruct (expandable_command_parse C fq X (t1 ++ "~"%char :: c :: t2)
                tail arg w HX Hexp) as (i & _ & Hparse).
    - rewrite Hclosed. cbn [closed_text]. rewrite Hc, Ht2. reflexivity.
    - destruct t1; discriminate.
    - destruct t1 as [|c1 t1']; [reflexivity | exact Hsp].
    - exact Htail.
    - exists i. rewrite <- app_assoc in Hparse. cbn [app] in Hparse.
      rewrite Hparse, Hexpd. reflexivity. }
  split; [|split].
  - destruct (Hgen "/"%char eq_refl) as (i & Hparse).
    rewrite Hparse. unfold succeeded, parsed. cbn [fst snd code rhs].
    rewrite ch_eq_refl, <- app_assoc. repeat split; reflexivity.
  - intros c Hslash Hc. destruct (Hgen c Hc) as (i & Hparse).
    rewrite Hparse. unfold succeeded, parsed. cbn [fst snd rhs].
    rewrite Hslash. split; reflexivity.
  - intros t Ht Hne Hspt.
    destruct (expandable_command_parse C fq X t tail arg w HX Hexp Ht Hne
                Hspt Htail) as (i & _ & Hparse).
    rewrite Hparse. reflexivity.
Qed.

(** C5, amended, on [save a ~/b]. *)
Lemma tilde_slash_expands_anywhere_witness :
  (succeeded (parse demo false
                (cmd_name (cmd "save" EX_SAVE F_save
                               (Z.lor EX_FLAG_RHS EX_FLAG_EXP))
                 ++ " "%char :: str "a "
                 ++ "~"%char :: "/"%char :: str "b" ++ []) arg0 demo0)
   = true
   /\ code (parsed (parse demo false
                      (cmd_name (cmd "save" EX_SAVE F_save
                                     (Z.lor EX_FLAG_RHS EX_FLAG_EXP))
                       ++ " "%char :: str "a "
                       ++ "~"%char :: "/"%char :: str "b" ++ []) arg0 demo0))
      = cmd_code (cmd "save" EX_SAVE F_save (Z.lor EX_FLAG_RHS EX_FLAG_EXP))
   /\ rhs (parsed (parse demo false
                     (cmd_name (cmd "save" EX_SAVE F_save
                                    (Z.lor EX_FLAG_RHS EX_FLAG_EXP))
                      ++ " "%char :: str "a "
                      ++ "~"%char :: "/"%char :: str "b" ++ []) arg0 demo0))
      = str "a " ++ g_get_home_dir demo demo0
           ++ "/"%char :: expanded (GET_URI demo demo0)
                                   (g_get_home_dir demo demo0) (str "b"))
  /\ (forall c,
        ch_eq c "/" = false ->
        ch_eq c NUL = false ->
        succeeded (parse demo false
                     (cmd_name (cmd "save" EX_SAVE F_save
                                    (Z.lor EX_FLAG_RHS EX_FLAG_EXP))
                      ++ " "%char :: str "a "
                      ++ "~"%char :: c :: str "b" ++ []) arg0 demo0)
        = true
        /\ rhs (parsed (parse demo false
                          (cmd_name (cmd "save" EX_SAVE F_save
                                         (Z.lor EX_FLAG_RHS EX_FLAG_EXP))
                           ++ " "%char :: str "a "
                           ++ "~"%char :: c :: str "b" ++ []) arg0 demo0))
           = str "a " ++ expanded (GET_URI demo demo0)
                                  (g_get_home_dir demo demo0) (str "b"))
  /\ (forall t,
        closed_text t = true ->
        t <> [] ->
        ch_eq (peek t) " " = false ->
        rhs (parsed (parse demo false
                       (cmd_name (cmd "save" EX_SAVE F_save
                                      (Z.lor EX_FLAG_RHS EX_FLAG_EXP))
                        ++ " "%char :: t ++ []) arg0 demo0))
        = expanded (GET_URI demo demo0) (g_get_home_dir demo demo0) t).
Proof.
  apply (@tilde_slash_expands_anywhere Demo demo false
           (cmd "save" EX_SAVE F_save (Z.lor EX_FLAG_RHS EX_FLAG_EXP))
           (str "a ") (str "b") [] arg0 demo0).
  - simpl. tauto.
  - reflexivity.
  - reflexivity.
  - reflexivity.
  - reflexivity.
  - reflexivity.
Defined.

(** C5, amended, on lines: a leading [~/], one inside the argument,
    two of them, and one behind an escaped character. *)
Example tilde_lines :
  rhs (parsed (parse demo false (str ":save ~/b") arg0 demo0))
  = str "/home/user/b"
  /\ rhs (parsed (parse demo false (str ":save a ~/b") arg0 demo0))
     = str "a /home/user/b"
  /\ rhs (parsed (parse demo false (str ":shellcmd cp ~/a ~/b") arg0 demo0))
     = str "cp /home/user/a /home/user/b"
  /\ rhs (parsed (parse demo false (str ":save \~~/b") arg0 demo0))
     = str "\~/home/user/b".
Proof. repeat split; reflexivity. Qed.

(* ------------------------------------------------------------------ *)
(** ** The handlers *)

Lemma strchr_split_found (c : ascii) (key value : bytes) :
  ch_eq c NUL = false ->
  forallb (fun d => negb (ch_eq d NUL) && negb (ch_eq d c)) key = true ->
  strchr_split (key ++ c :: value) c = Some (key, value).
Proof.
  intros Hc. induction key as [|d key IH]; intros Hk; simpl.
  - rewrite Hc, ch_eq_refl. reflexivity.
  - simpl in Hk. apply andb_prop in Hk. destruct Hk as [Hd Hk].
    apply andb_prop in Hd. destruct Hd as [Hn He].
    apply negb_true_iff in Hn, He. rewrite Hn, He, (IH Hk). reflexivity.
Qed.

Lemma strchr_split_none (c : ascii) (s : bytes) :
  forallb (fun d => negb (ch_eq d c)) (cstr s) = true ->
  strchr_split s c = None.
Proof.
  induction s as [|d s IH]; simpl; intros Hs; [reflexivity|].
  destruct (ch_eq d NUL); [reflexivity|].
  simpl in Hs. apply andb_prop in Hs. destruct Hs as [Hd Hs].
  apply negb_true_iff in Hd. rewrite Hd, (IH Hs). reflexivity.
Qed.

(** X12.  ex_set cuts the right hand side at its first [=]: with the
    right hand side [key=value], where [key] holds no [=], the setting
    collaborator is called with [key] and the value [value], which may
    itself hold more [=]; a right hand side without [=] is passed whole
    with no value; and an empty one makes the handler return false
    without any call. *)
Theorem set_cuts_at_first_equals
        {E : Type} (H : Handlers E) (arg : ExArg) (w : E)
        (key value : bytes) :
  forallb (fun d => negb (ch_eq d NUL) && negb (ch_eq d "=")) key = true ->
  (rhs arg = key ++ "="%char :: value ->
   ex_set H arg w = setting_run H key (Some (cstr value)) w)
  /\ (rhs arg = key -> key <> [] ->
      ex_set H arg w = setting_run H key None w)
  /\ (rhs arg = [] -> ex_set H arg w = (false, w)).
Proof.
  intros Hkey. split; [|split].
  - intros Hr. unfold ex_set. rewrite Hr.
    rewrite (strchr_split_found "=" key value eq_refl Hkey).
    destruct key; reflexivity.
  - intros Hr Hne. unfold ex_set. rewrite Hr.
    assert (Hc : cstr key = key).
    { clear Hr Hne. induction key as [|d key IH]; [reflexivity|].
      simpl in Hkey. apply andb_prop in Hkey. destruct Hkey as [Hd Hk].
      apply andb_prop in Hd. destruct Hd as [Hn _].
      apply negb_true_iff in Hn. simpl. rewrite Hn, (IH Hk). reflexivity. }
    rewrite strchr_split_none, Hc.
    + destruct key; [congruence | reflexivity].
    + rewrite Hc. clear Hr Hne Hc.
      induction key as [|d key IH]; [reflexivity|].
      simpl in Hkey. apply andb_prop in Hkey. destruct Hkey as [Hd Hk].
      apply andb_prop in Hd. destruct Hd as [_ He].
      simpl. rewrite He, (IH Hk). reflexivity.
  - intros Hr. unfold ex_set. rewrite Hr. reflexivity.
Qed.

(** X12 on [:set a=b=c], [:set a] and [:set], run as lines. *)
Lemma set_cuts_at_first_equals_witness :
  (rhs (set_rhs arg0 (str "a=b=c")) = str "a" ++ "="%char :: str "b=c" ->
   ex_set recording_handlers (set_rhs arg0 (str "a=b=c")) []
   = setting_run recording_handlers (str "a") (Some (cstr (str "b=c"))) [])
  /\ (rhs (set_rhs arg0 (str "a=b=c")) = str "a" -> str "a" <> [] ->
      ex_set recording_handlers (set_rhs arg0 (str "a=b=c")) []
      = setting_run recording_handlers (str "a") None [])
  /\ (rhs (set_rhs arg0 (str "a=b=c")) = [] ->
      ex_set recording_handlers (set_rhs arg0 (str "a=b=c")) [] = (false, [])).
Proof.
  apply (@set_cuts_at_first_equals (list Call) recording_handlers
           (set_rhs arg0 (str "a=b=c")) [] (str "a") (str "b=c")).
  reflexivity.
Defined.

Lemma set_lines_example :
  ex_run_string recorded false (str "set a=b=c") []
  = Some (true, [SettingRun (str "a") (Some (str "b=c"))])
  /\ ex_run_string recorded false (str "set a") []
     = Some (true, [SettingRun (str "a") None])
  /\ ex_run_string recorded false (str "set") [] = Some (false, []).
Proof. repeat split; reflexivity. Qed.

(** X13.  ex_shortcut: shortcut-add needs a right hand side with a [=]
    and passes what stands before the first [=] as key and what follows
    it as address; without a [=] it returns false and calls nothing.
    shortcut-remove and shortcut-default pass the right hand side whole,
    also when it is empty. *)
Theorem shortcut_add_needs_equals
        {E : Type} (H : Handlers E) (arg : ExArg) (w : E)
        (key uri : bytes) :
  forallb (fun d => negb (ch_eq d NUL) && negb (ch_eq d "=")) key = true ->
  (code arg = EX_SCA -> rhs arg = key ++ "="%char :: uri ->
   ex_shortcut H arg w = shortcut_add H key (cstr uri) w)
  /\ (code arg = EX_SCA -> rhs arg = key ->
      ex_shortcut H arg w = (false, w))
  /\ (code arg = EX_SCR ->
      ex_shortcut H arg w = shortcut_remove H (cstr (rhs arg)) w)
  /\ (code arg = EX_SCD ->
      ex_shortcut H arg w = shortcut_set_default H (cstr (rhs arg)) w).
Proof.
  intros Hkey. split; [|split; [|split]].
  - intros Hc Hr. unfold ex_shortcut. rewrite Hc, Hr.
    rewrite (strchr_split_found "=" key uri eq_refl Hkey).
    destruct key; reflexivity.
  - intros Hc Hr. unfold ex_shortcut. rewrite Hc, Hr.
    rewrite strchr_split_none; [destruct (negb _); reflexivity|].
    clear Hr. induction key as [|d key IH]; [reflexivity|].
    simpl in Hkey. apply andb_prop in Hkey. destruct Hkey as [Hd Hk].
    apply andb_prop in Hd. destruct Hd as [Hn He].
    apply negb_true_iff in Hn. simpl. rewrite Hn. simpl.
    rewrite He, (IH Hk). reflexivity.
  - intros Hc. unfold ex_shortcut. rewrite Hc. reflexivity.
  - intros Hc. unfold ex_shortcut. rewrite Hc. reflexivity.
Qed.

(** X13 on the key [dd] and an address with a [=] of its own. *)
Lemma shortcut_add_needs_equals_witness :
  let arg := mkExArg 0 0 (str "shortcut-add") EX_SCA false []
                     (str "dd=http://d.d/?q=$0") EX_FLAG_RHS in
  (code arg = EX_SCA -> rhs arg = str "dd" ++ "="%char :: str "http://d.d/?q=$0" ->
   ex_shortcut recording_handlers arg []
   = shortcut_add recording_handlers (str "dd")
                  (cstr (str "http://d.d/?q=$0")) [])
  /\ (code arg = EX_SCA -> rhs arg = str "dd" ->
      ex_shortcut recording_handlers arg [] = (false, []))
  /\ (code arg = EX_SCR ->
      ex_shortcut recording_handlers arg []
      = shortcut_remove recording_handlers (cstr (rhs arg)) [])
  /\ (code arg = EX_SCD ->
      ex_shortcut recording_handlers arg []
      = shortcut_set_default recording_handlers (cstr (rhs arg)) []).
Proof.
  apply (@shortcut_add_needs_equals (list Call) recording_handlers
           (mkExArg 0 0 (str "shortcut-add") EX_SCA false []
                    (str "dd=http://d.d/?q=$0") EX_FLAG_RHS)
           [] (str "dd") (str "http://d.d/?q=$0")).
  reflexivity.
Defined.

(** X14.  ex_map reads the mode and the kind of mapping off the name of
    the command, and for every map entry of the table this agrees with
    its code: cmap and cnoremap insert for mode [c], imap and inoremap
    for [i], nmap and nnoremap for [n], and the mapping is a noremap
    exactly for the three noremap commands.  With an empty left or right
    hand side nothing is inserted and the handler returns false. *)
Theorem map_mode_follows_the_name
        {E : Type} (H : Handlers E) (fq : bool) (X : ExInfo) (arg : ExArg)
        (w : E) :
  In X (commands fq) ->
  cmd_func X = F_map ->
  name arg = cmd_name X ->
  ex_map H arg w
  = if Nat.eqb (List.length (lhs arg)) 0 || Nat.eqb (List.length (rhs arg)) 0
    then (false, w)
    else (true,
          map_insert H (cstr (lhs arg)) (cstr (rhs arg)) (map_mode (cmd_code X))
                     (map_remaps (cmd_code X)) w).
Proof.
  intros HX Hf Hn. unfold ex_map. rewrite Hn.
  destruct fq; simpl in HX;
    repeat (destruct HX as [HX | HX];
            [subst X; cbv in Hf; try discriminate Hf; reflexivity|]);
    contradiction.
Qed.

(** X14 on [nnoremap]. *)
Lemma map_mode_follows_the_name_witness :
  let X := cmd "nnoremap" EX_NNOREMAP F_map (Z.lor EX_FLAG_LHS EX_FLAG_RHS) in
  let arg := mkExArg 0 11 (cmd_name X) EX_NNOREMAP false (str "gg") (str "G")
                     (cmd_flags X) in
  ex_map recording_handlers arg []
  = if Nat.eqb (List.length (lhs arg)) 0 || Nat.eqb (List.length (rhs arg)) 0
    then (false, [])
    else (true,
          map_insert recording_handlers (cstr (lhs arg)) (cstr (rhs arg))
                     (map_mode (cmd_code X)) (map_remaps (cmd_code X)) []).
Proof.
  apply (@map_mode_follows_the_name (list Call) recording_handlers false
           (cmd "nnoremap" EX_NNOREMAP F_map (Z.lor EX_FLAG_LHS EX_FLAG_RHS))).
  - simpl. tauto.
  - reflexivity.
  - reflexivity.
Defined.

(** X15.  ex_unmap picks the mode by the code, and for every unmap entry
    of the table that is the mode ex_map reads off the name of the map
    command with the same first letter: cunmap deletes where cmap and
    cnoremap insert, iunmap where imap and inoremap do, nunmap where nmap
    and nnoremap do.  With an empty left hand side nothing is deleted and
    the handler returns false. *)
Theorem unmap_deletes_where_map_inserts
        {E : Type} (H : Handlers E) (fq : bool) (X : ExInfo) (arg : ExArg)
        (w : E) :
  In X (commands fq) ->
  cmd_func X = F_unmap ->
  code arg = cmd_code X ->
  ex_unmap H arg w
  = (if Nat.eqb (List.length (lhs arg)) 0 then (false, w)
     else (true, map_delete H (cstr (lhs arg)) (nth 0 (cmd_name X) NUL) w))
  /\ nth 0 (cmd_name X) NUL = map_mode (cmd_code X).
Proof.
  intros HX Hf Hc. unfold ex_unmap. rewrite Hc.
  destruct fq; simpl in HX;
    repeat (destruct HX as [HX | HX];
            [subst X; cbv in Hf;
             first [discriminate Hf
                   | split; [destruct (lhs arg); reflexivity | reflexivity]]|]);
    contradiction.
Qed.

(** X15 on [cunmap]. *)
Lemma unmap_deletes_where_map_inserts_witness :
  let X := cmd "cunmap" EX_CUNMAP F_unmap EX_FLAG_LHS in
  let arg := mkExArg 0 4 (cmd_name X) EX_CUNMAP false (str "gg") []
                     (cmd_flags X) in
  ex_unmap recording_handlers arg []
  = (if Nat.eqb (List.length (lhs arg)) 0 then (false, [])
     else (true, map_delete recording_handlers (cstr (lhs arg))
                            (nth 0 (cmd_name X) NUL) []))
  /\ nth 0 (cmd_name X) NUL = map_mode (cmd_code X).
Proof.
  apply (@unmap_deletes_where_map_inserts (list Call) recording_handlers false
           (cmd "cunmap" EX_CUNMAP F_unmap EX_FLAG_LHS)).
  - simpl. tauto.
  - reflexivity.
  - reflexivity.
Defined.

(** X16.  A command that needs an argument and is submitted without one
    fails silently: for eval, the map and unmap commands, set,
    shellcmd and shortcut-add, the line made of the command name alone
    parses, the
    handler returns false before any call, and ex_run_string returns
    false with the collaborators left as they were, no message shown. *)
Theorem bare_command_fails_silently
        {E : Type} (C : Collab E) (H : Handlers E) (fq : bool) (X : ExInfo)
        (w : E) :
  In X (commands fq) ->
  needs_argument X = true ->
  succeeded (parse (with_handlers C H) fq (cmd_name X) arg0 w) = true
  /\ ex_run_string (with_handlers C H) fq (cmd_name X) w = Some (false, w).
Proof.
  intros HX Hneed.
  destruct fq; simpl in HX;
    repeat (destruct HX as [HX | HX];
            [subst X; cbv in Hneed; try discriminate Hneed;
             split; reflexivity|]);
    contradiction.
Qed.

(** X16 on [nmap]. *)
Lemma bare_command_fails_silently_witness :
  succeeded (parse recorded false
                   (cmd_name (cmd "nmap" EX_NMAP F_map
                                  (Z.lor EX_FLAG_LHS EX_FLAG_RHS))) arg0 [])
  = true
  /\ ex_run_string recorded false
                   (cmd_name (cmd "nmap" EX_NMAP F_map
                                  (Z.lor EX_FLAG_LHS EX_FLAG_RHS))) []
     = Some (false, []).
Proof.
  apply (@bare_command_fails_silently (list Call) recording recording_handlers
           false (cmd "nmap" EX_NMAP F_map (Z.lor EX_FLAG_LHS EX_FLAG_RHS)) []).
  - simpl. tauto.
  - reflexivity.
Defined.

(** X17.  Every entry of the table carries a code its handler has a
    case for, for both settings of FEATURE_QUEUE, so the branches that
    the handlers keep for the codes they do not name are taken by one
    code only, or by none.  On an invocation with the code of the
    entry: ex_queue never takes its default branch, it calls
    command_queue, with no address when the right hand side is empty;
    ex_shortcut never takes its default branch, the entry being
    shortcut-add, shortcut-remove or shortcut-default; the last branch
    of ex_unmap, which deletes for mode [i], is taken by iunmap only;
    the else branch of ex_open, which loads in the current tab, is
    taken by open only; and the else branch of ex_bookmark, which adds,
    is taken by bma only. *)
Theorem table_names_the_right_handler
        {E : Type} (C : Collab E) (H : Handlers E) (fq : bool) (X : ExInfo) :
  In X (commands fq) ->
  (cmd_func X = F_queue ->
   exists a, forall arg w,
     code arg = cmd_code X ->
     ex_queue H arg w
     = command_queue H a
         (if negb (Nat.eqb (List.length (rhs arg)) 0)
          then Some (cstr (rhs arg)) else None) w)
  /\ (cmd_func X = F_shortcut ->
      forall arg w,
        code arg = cmd_code X ->
        (cmd_code X = EX_SCA
         /\ ex_shortcut H arg w
            = if negb (Nat.eqb (List.length (rhs arg)) 0)
              then match strchr_split (rhs arg) "=" with
                   | Some (key, uri) => shortcut_add H key (cstr uri) w
                   | None => (false, w)
                   end
              else (false, w))
        \/ (cmd_code X = EX_SCR
            /\ ex_shortcut H arg w = shortcut_remove H (cstr (rhs arg)) w)
        \/ (cmd_code X = EX_SCD
            /\ ex_shortcut H arg w
               = shortcut_set_default H (cstr (rhs arg)) w))
  /\ (cmd_func X = F_unmap ->
      forall arg w,
        code arg = cmd_code X ->
        lhs arg <> [] ->
        (cmd_code X = EX_NUNMAP
         /\ ex_unmap H arg w
            = (true, map_delete H (cstr (lhs arg)) "n" w))
        \/ (cmd_code X = EX_CUNMAP
            /\ ex_unmap H arg w
               = (true, map_delete H (cstr (lhs arg)) "c" w))
        \/ (cmd_code X = EX_IUNMAP
            /\ ex_unmap H arg w
               = (true, map_delete H (cstr (lhs arg)) "i" w)))
  /\ (cmd_func X = F_open ->
      forall arg w,
        code arg = cmd_code X ->
        (cmd_code X = EX_TABOPEN
         /\ ex_open H arg w = vb_load_uri H VB_TARGET_NEW (cstr (rhs arg)) w)
        \/ (cmd_code X = EX_OPEN
            /\ ex_open H arg w
               = vb_load_uri H VB_TARGET_CURRENT (cstr (rhs arg)) w))
  /\ (cmd_func X = F_bookmark ->
      forall arg w,
        code arg = cmd_code X ->
        cmd_code X = EX_BMR
        \/ (cmd_code X = EX_BMA
            /\ ex_bookmark C arg w
               = (let '(added, w1) :=
                    bookmark_add C (GET_URI C w)
                                 (webkit_web_view_get_title C w)
                                 (cstr (rhs arg)) w in
                  if added
                  then (true,
                        vb_echo_force C VB_MSG_NORMAL false
                                      (str "  Bookmark added") w1)
                  else (false, w1)))).
Proof.
  intros HX.
  destruct fq; simpl in HX;
    repeat (destruct HX as [HX | HX];
            [subst X; repeat split; intros Hf; cbv in Hf;
             first
               [ discriminate Hf
               | eexists; intros arg w Hc; unfold ex_queue; rewrite Hc;
                 reflexivity
               | intros arg w Hc; unfold ex_shortcut; rewrite Hc;
                 first [ left; split; reflexivity
                       | right; left; split; reflexivity
                       | right; right; split; reflexivity ]
               | intros arg w Hc Hl; unfold ex_unmap; rewrite Hc;
                 destruct (lhs arg) as [|l0 ls]; [congruence|];
                 first [ left; split; reflexivity
                       | right; left; split; reflexivity
                       | right; right; split; reflexivity ]
               | intros arg w Hc; unfold ex_open; rewrite Hc;
                 first [ left; split; reflexivity
                       | right; split; reflexivity ]
               | intros arg w Hc; unfold ex_bookmark; rewrite Hc;
                 first [ left; reflexivity
                       | right; split; reflexivity ] ]|]);
    contradiction.
Qed.

(** X17 on [iunmap]. *)
Lemma table_names_the_right_handler_witness :
  (cmd_func (cmd "iunmap" EX_IUNMAP F_unmap EX_FLAG_LHS) = F_queue ->
   exists a, forall arg w,
     code arg = cmd_code (cmd "iunmap" EX_IUNMAP F_unmap EX_FLAG_LHS) ->
     ex_queue recording_handlers arg w
     = command_queue recording_handlers a
         (if negb (Nat.eqb (List.length (rhs arg)) 0)
          then Some (cstr (rhs arg)) else None) w)
  /\ (cmd_func (cmd "iunmap" EX_IUNMAP F_unmap EX_FLAG_LHS) = F_shortcut ->
      forall arg w,
        code arg = cmd_code (cmd "iunmap" EX_IUNMAP F_unmap EX_FLAG_LHS) ->
        (cmd_code (cmd "iunmap" EX_IUNMAP F_unmap EX_FLAG_LHS) = EX_SCA
         /\ ex_shortcut recording_handlers arg w
            = if negb (Nat.eqb (List.length (rhs arg)) 0)
              then match strchr_split (rhs arg) "=" with
                   | Some (key, uri) =>
                       shortcut_add recording_handlers key (cstr uri) w
                   | None => (false, w)
                   end
              else (false, w))
        \/ (cmd_code (cmd "iunmap" EX_IUNMAP F_unmap EX_FLAG_LHS) = EX_SCR
            /\ ex_shortcut recording_handlers arg w
               = shortcut_remove recording_handlers (cstr (rhs arg)) w)
        \/ (cmd_code (cmd "iunmap" EX_IUNMAP F_unmap EX_FLAG_LHS) = EX_SCD
            /\ ex_shortcut recording_handlers arg w
               = shortcut_set_default recording_handlers (cstr (rhs arg)) w))
  /\ (cmd_func (cmd "iunmap" EX_IUNMAP F_unmap EX_FLAG_LHS) = F_unmap ->
      forall arg w,
        code arg = cmd_code (cmd "iunmap" EX_IUNMAP F_unmap EX_FLAG_LHS) ->
        lhs arg <> [] ->
        (cmd_code (cmd "iunmap" EX_IUNMAP F_unmap EX_FLAG_LHS) = EX_NUNMAP
         /\ ex_unmap recording_handlers arg w
            = (true, map_delete recording_handlers (cstr (lhs arg)) "n" w))
        \/ (cmd_code (cmd "iunmap" EX_IUNMAP F_unmap EX_FLAG_LHS) = EX_CUNMAP
            /\ ex_unmap recording_handlers arg w
               = (true, map_delete recording_handlers (cstr (lhs arg)) "c" w))
        \/ (cmd_code (cmd "iunmap" EX_IUNMAP F_unmap EX_FLAG_LHS) = EX_IUNMAP
            /\ ex_unmap recording_handlers arg w
               = (true, map_delete recording_handlers (cstr (lhs arg)) "i" w)))
  /\ (cmd_func (cmd "iunmap" EX_IUNMAP F_unmap EX_FLAG_LHS) = F_open ->
      forall arg w,
        code arg = cmd_code (cmd "iunmap" EX_IUNMAP F_unmap EX_FLAG_LHS) ->
        (cmd_code (cmd "iunmap" EX_IUNMAP F_unmap EX_FLAG_LHS) = EX_TABOPEN
         /\ ex_open recording_handlers arg w
            = vb_load_uri recording_handlers VB_TARGET_NEW (cstr (rhs arg)) w)
        \/ (cmd_code (cmd "iunmap" EX_IUNMAP F_unmap EX_FLAG_LHS) = EX_OPEN
            /\ ex_open recording_handlers arg w
               = vb_load_uri recording_handlers VB_TARGET_CURRENT
                             (cstr (rhs arg)) w))
  /\ (cmd_func (cmd "iunmap" EX_IUNMAP F_unmap EX_FLAG_LHS) = F_bookmark ->
      forall arg w,
        code arg = cmd_code (cmd "iunmap" EX_IUNMAP F_unmap EX_FLAG_LHS) ->
        cmd_code (cmd "iunmap" EX_IUNMAP F_unmap EX_FLAG_LHS) = EX_BMR
        \/ (cmd_code (cmd "iunmap" EX_IUNMAP F_unmap EX_FLAG_LHS) = EX_BMA
            /\ ex_bookmark recording arg w
               = (let '(added, w1) :=
                    bookmark_add recording (GET_URI recording w)
                                 (webkit_web_view_get_title recording w)
                                 (cstr (rhs arg)) w in
                  if added
                  then (true,
                        vb_echo_force recording VB_MSG_NORMAL false
                                      (str "  Bookmark added") w1)
                  else (false, w1)))).
Proof.
  apply (@table_names_the_right_handler (list Call) recording
           recording_handlers true
           (cmd "iunmap" EX_IUNMAP F_unmap EX_FLAG_LHS)).
  simpl. tauto.
Defined.

Example iunmap_takes_the_last_branch :
  forall arg w,
    code arg = EX_IUNMAP -> lhs arg <> [] ->
    ex_unmap recording_handlers arg w
    = (true, w ++ [MapDelete (cstr (lhs arg)) "i"%char]).
Proof.
  intros arg w Hc Hl. unfold ex_unmap. rewrite Hc.
  destruct (lhs arg); [congruence | reflexivity].
Qed.

(* ------------------------------------------------------------------ *)
(** ** More on history stepping *)

(** X18.  With no session active, a step fails and changes nothing (no
    session is started, nothing is written to the input box) when the
    text of the input box does not start, after spaces, with one of
    [:], [/] and [?], and also when it does but the history
    collaborator has no entry for it. *)
Theorem history_step_fails_quietly
        {E : Type} (C : Collab E) (prev : bool) (st : State E) :
  exhist_active (exhist st) = None ->
  (ch_eq (peek (skip_whitespace (vb_get_input_text C (ext st)))) ":" = false
   /\ ch_eq (peek (skip_whitespace (vb_get_input_text C (ext st)))) "/" = false
   /\ ch_eq (peek (skip_whitespace (vb_get_input_text C (ext st)))) "?" = false)
  \/ (forall t,
        history_get_list C t
          (cstr (advance (skip_whitespace (vb_get_input_text C (ext st)))))
          (ext st) = []) ->
  history C prev st = (false, st).
Proof.
  intros Hnone Hwhy. unfold history, history_fetch. cbv zeta.
  rewrite Hnone. cbv beta iota. rewrite Hnone.
  destruct Hwhy as [(H1 & H2 & H3) | Hempty].
  - rewrite H1, H2, H3. reflexivity.
  - destruct (if ch_eq _ ":" then _ else _) as [t|]; [|reflexivity].
    rewrite Hempty. reflexivity.
Qed.

(** X18 on the text [abc], which has no sigil. *)
Lemma history_step_fails_quietly_witness :
  history demo true
          (mkState (demo_set_input (str "abc") demo0) (mkExComp 0 None None)
                   (mkExHist None None None))
  = (false,
     mkState (demo_set_input (str "abc") demo0) (mkExComp 0 None None)
             (mkExHist None None None)).
Proof.
  apply (@history_step_fails_quietly Demo demo true
           (mkState (demo_set_input (str "abc") demo0) (mkExComp 0 None None)
                    (mkExHist None None None))).
  - reflexivity.
  - left. repeat split; reflexivity.
Defined.

Lemma strcmp_eq_refl (a : bytes) : strcmp_eq a a = true.
Proof.
  unfold strcmp_eq. destruct (list_eq_dec ascii_dec (cstr a) (cstr a));
    [reflexivity | congruence].
Qed.

Lemma g_list_next_previous (n n' : GList) :
  g_list_next n = Some n' -> g_list_previous n' = Some n.
Proof.
  unfold g_list_next, g_list_previous. destruct n as [b d a].
  simpl. destruct a as [|y ys]; [discriminate|].
  intros Heq. injection Heq as <-. reflexivity.
Qed.

Lemma g_list_previous_next (n n' : GList) :
  g_list_previous n = Some n' -> g_list_next n' = Some n.
Proof.
  unfold g_list_next, g_list_previous. destruct n as [b d a].
  simpl. destruct b as [|y ys]; [discriminate|].
  intros Heq. injection Heq as <-. reflexivity.
Qed.

(** X19.  At either end of the list a step is no error and moves
    nothing: with the session on its last entry a step towards older
    entries, and with the session on its first entry a step towards newer
    ones, returns true, leaves the history state as it is and writes the
    entry shown once more. *)
Theorem history_stops_at_the_ends
        {E : Type} (C : Collab E) (prev : bool) (st : State E) (node : GList) :
  exhist_active (exhist st) = Some node ->
  strcmp_eq (vb_get_input_text C (ext st))
            (concat_prefix (exhist_prefix (exhist st)) (g_data node)) = true ->
  (if prev then g_after node else g_before node) = [] ->
  history C prev st
  = (true,
     mkState (vb_echo_force C VB_MSG_NORMAL false
                (concat_prefix (exhist_prefix (exhist st)) (g_data node))
                (ext st))
             (excomp st) (exhist st)).
Proof.
  intros Hact Hsame Hend.
  rewrite (history_continues C prev st node Hact Hsame).
  assert (Hmove : history_move prev node = node).
  { unfold history_move, g_list_next, g_list_previous.
    destruct prev; rewrite Hend; reflexivity. }
  rewrite Hmove. destruct st as [e c [p q a]]. simpl in *. subst a.
  reflexivity.
Qed.

(** X19 on the session of [edited_after_step], its text put back to the
    entry shown: that entry is the last of its list. *)
Lemma history_stops_at_the_ends_witness :
  let st := set_ext edited_after_step
                    (demo_set_input (str ":abc2") (ext edited_after_step)) in
  history demo true st
  = (true,
     mkState (vb_echo_force demo VB_MSG_NORMAL false
                (concat_prefix (exhist_prefix (exhist st))
                               (g_data (mkGList [str "abc1"] (str "abc2") [])))
                (ext st))
             (excomp st) (exhist st)).
Proof.
  apply (@history_stops_at_the_ends Demo demo true
           (set_ext edited_after_step
                    (demo_set_input (str ":abc2") (ext edited_after_step)))
           (mkGList [str "abc1"] (str "abc2") [])).
  - reflexivity.
  - reflexivity.
  - reflexivity.
Defined.

(** X20.  A step and the step back return to the same entry, and
    nothing is fetched again.  The input box is assumed to show what
    vb_echo_force wrote last.  Then, from a session whose entry is the
    one shown and which has a neighbour in the direction of the step, the
    step followed by a step in the other direction leaves the history
    state exactly as it was. *)
Theorem history_step_and_back
        {E : Type} (C : Collab E) (prev : bool) (st : State E)
        (node node' : GList) :
  (forall t hide m w, vb_get_input_text C (vb_echo_force C t hide m w) = m) ->
  exhist_active (exhist st) = Some node ->
  strcmp_eq (vb_get_input_text C (ext st))
            (concat_prefix (exhist_prefix (exhist st)) (g_data node)) = true ->
  (if prev then g_list_next node else g_list_previous node) = Some node' ->
  fst (history C prev st) = true
  /\ exhist_active (exhist (snd (history C prev st))) = Some node'
  /\ fst (history C (negb prev) (snd (history C prev st))) = true
  /\ exhist (snd (history C (negb prev) (snd (history C prev st)))) = exhist st.
Proof.
  intros Hbox Hact Hsame Hnext.
  assert (Hmove : history_move prev node = node').
  { unfold history_move. destruct prev; rewrite Hnext; reflexivity. }
  assert (Hback : history_move (negb prev) node' = node).
  { unfold history_move. destruct prev; simpl.
    - rewrite (g_list_next_previous _ _ Hnext). reflexivity.
    - rewrite (g_list_previous_next _ _ Hnext). reflexivity. }
  rewrite (history_continues C prev st node Hact Hsame), Hmove.
  cbn [fst snd exhist exhist_active].
  split; [reflexivity|]. split; [reflexivity|].
  rewrite (history_continues C (negb prev) _ node').
  - rewrite Hback. cbn [fst snd exhist exhist_prefix exhist_query].
    split; [reflexivity|]. destruct st as [e c [p q a]]. simpl in *.
    subst a. reflexivity.
  - reflexivity.
  - cbn [ext exhist exhist_prefix]. rewrite Hbox. apply strcmp_eq_refl.
Qed.

(** X20 on the session of [typed_abc] after its first step, shown on
    its second entry: one step towards newer entries and back. *)
Lemma history_step_and_back_witness :
  let st := snd (history demo true typed_abc) in
  fst (history demo false st) = true
  /\ exhist_active (exhist (snd (history demo false st)))
     = Some (mkGList [] (str "abc1") [str "abc2"])
  /\ fst (history demo (negb false) (snd (history demo false st))) = true
  /\ exhist (snd (history demo (negb false) (snd (history demo false st))))
     = exhist st.
Proof.
  apply (@history_step_and_back Demo demo false
           (snd (history demo true typed_abc))
           (mkGList [str "abc1"] (str "abc2") [])
           (mkGList [] (str "abc1") [str "abc2"])).
  - reflexivity.
  - reflexivity.
  - reflexivity.
  - reflexivity.
Defined.

(* ------------------------------------------------------------------ *)
(** ** Completion of command names *)

Local Open Scope char_scope.

Lemma cstr_nonsep (p : bytes) : forallb nonsep p = true -> cstr p = p.
Proof.
  induction p as [|c p IH]; intros H; simpl in *.
  - reflexivity.
  - apply andb_prop in H. destruct H as [Hc Hp].
    rewrite (nonsep_not_NUL c Hc). f_equal. exact (IH Hp).
Qed.

Lemma forallb_firstn {A : Type} (f : A -> bool) (l : list A) :
  forallb f l = true -> forall n, forallb f (firstn n l) = true.
Proof.
  induction l as [|a l IH]; intros H [|n]; simpl in *; auto.
  apply andb_prop in H. destruct H as [Ha Hl].
  rewrite Ha. exact (IH Hl n).
Qed.

(** The start of a registered name holds no character that ends a name. *)
Lemma start_of_name_nonsep (fq : bool) (X : ExInfo) (p : bytes) :
  In X (commands fq) -> g_str_has_prefix (cmd_name X) p = true ->
  forallb nonsep p = true.
Proof.
  intros HX Hp.
  destruct (has_prefix_firstn _ _ Hp) as [Heq _]. rewrite Heq.
  apply forallb_firstn.
  pose proof (commands_names_ok fq) as Hall.
  rewrite forallb_forall in Hall.
  specialize (Hall (cmd_name X) (in_map cmd_name _ _ HX)).
  unfold name_ok in Hall. apply andb_prop in Hall. tauto.
Qed.

(** The names kept by the loop of ex_fill_completion start with the
    earliest entry that has the prefix. *)
Lemma filter_starts_with_earliest (p : bytes) (table : list ExInfo) :
  forall base i A,
    earliest_with_prefix table base p = Some (i, A) ->
    exists more,
      filter (fun n => g_str_has_prefix n p) (map cmd_name table)
      = cmd_name A :: more.
Proof.
  induction table as [|ci more IH]; intros base i A H; simpl in H.
  - discriminate.
  - simpl. destruct (g_str_has_prefix (cmd_name ci) p) eqn:Hp.
    + injection H as _ HA. subst ci. eexists. reflexivity.
    + exact (IH _ _ _ H).
Qed.

(** parse_command_name on the start of a registered name, with the
    entry it stores named as the earliest of the table. *)
Lemma parse_command_name_earliest
      {E : Type} (C : Collab E) (fq : bool) (X : ExInfo) (p tail : bytes)
      (arg : ExArg) (w : E) :
  In X (commands fq) ->
  g_str_has_prefix (cmd_name X) p = true ->
  p <> [] ->
  ends_name tail = true ->
  exists i A,
    earliest_with_prefix (commands fq) 0 p = Some (i, A)
    /\ nth_error (commands fq) i = Some A
    /\ parse_command_name C fq (p ++ tail) arg w
       = (true, tail, set_command arg i A, w).
Proof.
  intros HX Hp Hne Ht.
  destruct (resolves_first_ok fq X p HX Hp Hne) as [Hr Hfirst].
  unfold resolves_first in Hr. rewrite Hfirst in Hr.
  destruct (earliest_with_prefix (commands fq) 0 p) as [[i A]|] eqn:He;
    [|discriminate].
  destruct (name_loop (commands fq) (peek p) (advance p) [] 0)
    as [[[m f] b] r] eqn:Hl.
  apply andb_prop in Hr. destruct Hr as [Hr _].
  apply andb_prop in Hr. destruct Hr as [Hr Hnil].
  apply andb_prop in Hr. destruct Hr as [Hm Hf].
  apply Nat.eqb_eq in Hf. subst f.
  destruct r as [|? ?]; [|discriminate].
  pose proof (earliest_with_prefix_spec _ _ _ _ _ He) as (_ & Hnth & _ & _).
  rewrite Nat.sub_0_r in Hnth.
  exists i, A. repeat split; auto.
  destruct p as [|c p']; [congruence|].
  unfold parse_command_name. simpl peek in *. simpl advance in *.
  rewrite (name_loop_app _ _ _ Ht). rewrite Hl.
  apply Nat.ltb_lt in Hm.
  destruct (Nat.eqb_spec m 0) as [Hz|_]; [lia|].
  rewrite (nth_error_nth _ _ _ Hnth). reflexivity.
Qed.

(** ex_fill_completion on the start of a registered name. *)
Lemma ex_fill_completion_start (fq : bool) (X : ExInfo) (p : bytes) (i : nat)
      (A : ExInfo) :
  In X (commands fq) ->
  g_str_has_prefix (cmd_name X) p = true ->
  p <> [] ->
  earliest_with_prefix (commands fq) 0 p = Some (i, A) ->
  exists more,
    ex_fill_completion fq p = (true, cmd_name A :: more)
    /\ snd (ex_fill_completion fq p)
       = filter (fun n => g_str_has_prefix n p) (map cmd_name (commands fq)).
Proof.
  intros HX Hp Hne He.
  pose proof (start_of_name_nonsep fq X p HX Hp) as Hns.
  destruct (filter_starts_with_earliest _ _ _ _ _ He) as (more & Hf).
  exists more. unfold ex_fill_completion.
  destruct p as [|c p']; [congruence|].
  simpl in Hns. apply andb_prop in Hns. destruct Hns as [Hc Hp'].
  cbn [peek hd]. rewrite (nonsep_not_NUL c Hc).
  assert (Hcs : cstr (c :: p') = c :: p').
  { apply cstr_nonsep. simpl. rewrite Hc. exact Hp'. }
  rewrite Hcs, Hf. split; reflexivity.
Qed.

(** X21.  Completion and resolution agree on an abbreviation.  For the
    start [p] of a registered name, typed up to the end of the input,
    the first candidate ex_fill_completion puts in the store is the name
    of the entry that parse_command_name resolves [p] to; the store
    holds exactly the names of the table that start with [p], in table
    order, and so contains every name [p] abbreviates. *)
Theorem first_candidate_is_the_command
        {E : Type} (C : Collab E) (fq : bool) (X : ExInfo) (p : bytes)
        (arg : ExArg) (w : E) :
  In X (commands fq) ->
  g_str_has_prefix (cmd_name X) p = true ->
  p <> [] ->
  exists i A more,
    parse_command_name C fq p arg w
    = (true, [],
       mkExArg (count arg) i (cmd_name A) (cmd_code A) (bang arg) (lhs arg)
               (rhs arg) (cmd_flags A),
       w)
    /\ nth_error (commands fq) i = Some A
    /\ ex_fill_completion fq p = (true, cmd_name A :: more)
    /\ cmd_name A :: more
       = filter (fun n => g_str_has_prefix n p) (map cmd_name (commands fq))
    /\ In (cmd_name X) (cmd_name A :: more).
Proof.
  intros HX Hp Hne.
  destruct (parse_command_name_earliest C fq X p [] arg w HX Hp Hne eq_refl)
    as (i & A & He & Hnth & Hparse).
  destruct (ex_fill_completion_start fq X p i A HX Hp Hne He)
    as (more & Hfill & Hall).
  rewrite app_nil_r in Hparse.
  exists i, A, more. rewrite Hfill in Hall. cbn [snd] in Hall.
  repeat split; auto.
  rewrite Hall. apply filter_In. split; [|exact Hp].
  apply in_map. exact HX.
Qed.

(** X21 on [q] with the queue commands compiled in: the candidates are
    the four names in [q], and [quit] comes first. *)
Lemma first_candidate_is_the_command_witness :
  exists i A more,
    parse_command_name demo true (str "q") arg0 demo0
    = (true, [],
       mkExArg (count arg0) i (cmd_name A) (cmd_code A) (bang arg0) (lhs arg0)
               (rhs arg0) (cmd_flags A),
       demo0)
    /\ nth_error (commands true) i = Some A
    /\ ex_fill_completion true (str "q") = (true, cmd_name A :: more)
    /\ cmd_name A :: more
       = filter (fun n => g_str_has_prefix n (str "q"))
                (map cmd_name (commands true))
    /\ In (cmd_name (cmd "qpush" EX_QPUSH F_queue EX_FLAG_RHS))
          (cmd_name A :: more).
Proof.
  apply (@first_candidate_is_the_command Demo demo true
           (cmd "qpush" EX_QPUSH F_queue EX_FLAG_RHS) (str "q") arg0 demo0).
  - simpl. tauto.
  - reflexivity.
  - discriminate.
Defined.

Lemma isdigit_not_space (c : ascii) : isdigit c = true -> ch_eq c " " = false.
Proof.
  intros H. destruct (ch_eq c " ") eqn:Hc; [|reflexivity].
  apply ch_eq_true in Hc. subst c. vm_compute in H. discriminate.
Qed.

(** The first character of the start of a registered name. *)
Lemma start_of_name_plain (fq : bool) (X : ExInfo) (p : bytes) :
  In X (commands fq) -> g_str_has_prefix (cmd_name X) p = true -> p <> [] ->
  plain_start p = true.
Proof.
  intros HX Hp Hne.
  pose proof (commands_plain_start fq) as Hall.
  rewrite forallb_forall in Hall.
  specialize (Hall (cmd_name X) (in_map cmd_name _ _ HX)).
  destruct p as [|c p']; [congruence|].
  destruct (cmd_name X) as [|d n']; [discriminate|].
  cbn [g_str_has_prefix] in Hp. apply andb_prop in Hp. destruct Hp as [Hc _].
  apply ch_eq_true in Hc. subst d. exact Hall.
Qed.

(** parse_count of a fresh invocation on digits, none included. *)
Lemma parse_count_fresh (ds rest : bytes) :
  forallb isdigit ds = true ->
  isdigit (peek rest) = false ->
  (decimal_onto ds 0 < 2147483648)%Z ->
  parse_count (ds ++ rest) arg0 = (rest, set_count arg0 (decimal_onto ds 0)).
Proof.
  intros Hd Hr Hmax. unfold parse_count.
  destruct ds as [|d ds].
  - cbn [app]. rewrite Hr. reflexivity.
  - assert (Hp : isdigit (peek ((d :: ds) ++ rest)) = true).
    { simpl in Hd. apply andb_prop in Hd. tauto. }
    rewrite Hp. cbn [negb].
    rewrite (parse_count_loop_onto (d :: ds) (count arg0) rest Hd Hr
               (Z.le_refl 0) Hmax).
    reflexivity.
Qed.

(** The cursor of complete after the colon, on digits and the start of
    a name. *)
Lemma skip_whitespace_digits_name (ds p rest : bytes) :
  forallb isdigit ds = true -> plain_start p = true ->
  skip_whitespace (ds ++ p ++ rest) = ds ++ p ++ rest.
Proof.
  intros Hd Hp. apply skip_whitespace_stays.
  destruct ds as [|d ds].
  - cbn [app]. destruct p as [|c p'].
    + vm_compute in Hp. discriminate.
    + unfold plain_start in Hp. cbn [peek hd app] in *.
      destruct (ch_eq c " "); [|reflexivity].
      rewrite andb_false_r in Hp. simpl in Hp. discriminate.
  - simpl in Hd. apply andb_prop in Hd. destruct Hd as [Hd0 _].
    exact (isdigit_not_space d Hd0).
Qed.

Lemma plain_start_not_digit (p rest : bytes) :
  plain_start p = true -> isdigit (peek (p ++ rest)) = false.
Proof.
  intros Hp. destruct p as [|c p']; [vm_compute in Hp; discriminate|].
  unfold plain_start in Hp. cbn [peek hd app] in *.
  destruct (isdigit c); [|reflexivity].
  rewrite andb_false_r in Hp. simpl in Hp. discriminate.
Qed.

(** X22.  Completion of a command name keeps the count that was typed.
    On the input [:], digits [ds] and the start [p] of a registered
    name, the part of complete that builds the store finds the names
    that start with [p], asks for no sorting, shows no message, and
    leaves in excomp the prefix [:] and the value of the digits as
    count.  completion_select then writes the colon, the count in
    decimal when it is not 0, and the selected name: leading zeros of
    the typed count are not kept. *)
Theorem name_completion_keeps_the_count
        {E : Type} (C : Collab E) (fq : bool) (X : ExInfo) (ds p m : bytes)
        (st : State E) :
  In X (commands fq) ->
  g_str_has_prefix (cmd_name X) p = true ->
  p <> [] ->
  forallb isdigit ds = true ->
  (decimal_onto ds 0 < 2147483648)%Z ->
  complete_fill C fq (":" :: ds ++ p) st
  = (true, false,
     filter (fun n => g_str_has_prefix n p) (map cmd_name (commands fq)),
     mkState (ext st)
             (mkExComp (decimal_onto ds 0) (Some (str ":"))
                       (excomp_current (excomp st)))
             (exhist st))
  /\ excomp_current
       (excomp (completion_select C m (snd (complete_fill C fq (":" :: ds ++ p) st))))
     = Some (if (decimal_onto ds 0 =? 0)%Z then ":" :: m
             else ":" :: decimal (decimal_onto ds 0) ++ m).
Proof.
  intros HX Hp Hne Hd Hmax.
  pose proof (start_of_name_plain fq X p HX Hp Hne) as Hplain.
  assert (Hfill :
    complete_fill C fq (":" :: ds ++ p) st
    = (true, false,
       filter (fun n => g_str_has_prefix n p) (map cmd_name (commands fq)),
       mkState (ext st)
               (mkExComp (decimal_onto ds 0) (Some (str ":"))
                         (excomp_current (excomp st)))
               (exhist st))).
  { unfold complete_fill. cbn [peek hd advance tl].
    rewrite ch_eq_refl.
    pose proof (skip_whitespace_digits_name ds p [] Hd Hplain) as Hsk.
    rewrite app_nil_r in Hsk. rewrite Hsk.
    pose proof (plain_start_not_digit p [] Hplain) as Hnd.
    rewrite app_nil_r in Hnd.
    rewrite (parse_count_fresh ds p Hd Hnd Hmax).
    destruct (parse_command_name_earliest C fq X p []
                (set_count arg0 (decimal_onto ds 0)) (ext st) HX Hp Hne eq_refl)
      as (i & A & He & _ & Hparse).
    rewrite app_nil_r in Hparse. rewrite Hparse.
    destruct (ex_fill_completion_start fq X p i A HX Hp Hne He)
      as (more & Hf & Hall).
    rewrite Hf in Hall. cbn [snd] in Hall.
    cbn [peek hd andb]. 
    replace (ch_eq NUL " ") with false by reflexivity.
    cbv beta iota zeta. rewrite Hf. rewrite Hall. reflexivity. }
  split; [exact Hfill|].
  rewrite Hfill. unfold completion_select.
  cbn [snd excomp excomp_count excomp_prefix concat_prefix str list_ascii_of_string app].
  destruct (decimal_onto ds 0 =? 0)%Z; reflexivity.
Qed.

(** X22 on [:007q]: the candidates are the names in [q], and selecting
    [quit] writes [:7quit]. *)
Lemma name_completion_keeps_the_count_witness :
  complete_fill demo true (":" :: str "007" ++ str "q")
                (mkState demo0 (mkExComp 0 None None) (mkExHist None None None))
  = (true, false,
     filter (fun n => g_str_has_prefix n (str "q"))
            (map cmd_name (commands true)),
     mkState demo0 (mkExComp (decimal_onto (str "007") 0) (Some (str ":")) None)
             (mkExHist None None None))
  /\ excomp_current
       (excomp (completion_select demo (str "quit")
                  (snd (complete_fill demo true (":" :: str "007" ++ str "q")
                          (mkState demo0 (mkExComp 0 None None)
                                   (mkExHist None None None))))))
     = Some (if (decimal_onto (str "007") 0 =? 0)%Z then ":" :: str "quit"
             else ":" :: decimal (decimal_onto (str "007") 0) ++ str "quit").
Proof.
  apply (@name_completion_keeps_the_count Demo demo true
           (cmd "quit" EX_QUIT F_quit EX_FLAG_NONE) (str "007") (str "q")
           (str "quit")
           (mkState demo0 (mkExComp 0 None None) (mkExHist None None None))).
  - simpl. tauto.
  - reflexivity.
  - discriminate.
  - reflexivity.
  - reflexivity.
Defined.

Example name_completion_drops_zeros :
  excomp_current
    (excomp (completion_select demo (str "quit")
               (snd (complete_fill demo true (str ":007q")
                       (mkState demo0 (mkExComp 0 None None)
                                (mkExHist None None None))))))
  = Some (str ":7quit").
Proof. vm_compute. reflexivity. Qed.

Lemma cstr_no_NUL (l : bytes) :
  forallb (fun c => negb (ch_eq c NUL)) l = true -> cstr l = l.
Proof.
  induction l as [|c l IH]; intros H; simpl in *.
  - reflexivity.
  - apply andb_prop in H. destruct H as [Hc Hl].
    destruct (ch_eq c NUL); [discriminate|]. f_equal. exact (IH Hl).
Qed.

Lemma isdigit_not_NUL (c : ascii) : isdigit c = true -> negb (ch_eq c NUL) = true.
Proof.
  intros H. destruct (ch_eq c NUL) eqn:Hc; [|reflexivity].
  apply ch_eq_true in Hc. subst c. vm_compute in H. discriminate.
Qed.

Lemma forallb_impl {A : Type} (f g : A -> bool) (l : list A) :
  (forall a, f a = true -> g a = true) ->
  forallb f l = true -> forallb g l = true.
Proof.
  intros Hfg. induction l as [|a l IH]; simpl; intros H; [reflexivity|].
  apply andb_prop in H. destruct H as [Ha Hl].
  rewrite (Hfg a Ha). exact (IH Hl).
Qed.

(** The prefix that complete keeps for the completion of an argument:
    the input up to and including the space after the name. *)
Lemma prefix_up_to_the_space (ds p rest : bytes) :
  forallb isdigit ds = true -> forallb nonsep p = true ->
  cstr (firstn (List.length (":" :: ds ++ p ++ " " :: rest)
                - List.length (" " :: rest) + 1)
               (":" :: ds ++ p ++ " " :: rest))
  = ":" :: ds ++ p ++ [" "].
Proof.
  intros Hd Hp.
  assert (Hin : ":" :: ds ++ p ++ " " :: rest
                = (":" :: ds ++ p ++ [" "]) ++ rest).
  { simpl. rewrite <- !app_assoc. reflexivity. }
  assert (Hlen : List.length (":" :: ds ++ p ++ " " :: rest)
                 - List.length (" " :: rest) + 1
                 = List.length (":" :: ds ++ p ++ [" "])).
  { simpl. rewrite !length_app. simpl. lia. }
  rewrite Hlen, Hin, firstn_app, Nat.sub_diag, firstn_all.
  cbn [firstn]. rewrite app_nil_r.
  apply cstr_no_NUL. cbn [forallb].
  replace (negb (ch_eq ":" NUL)) with true by reflexivity. cbn [andb].
  rewrite !forallb_app. cbn [forallb].
  replace (negb (ch_eq " " NUL)) with true by reflexivity.
  rewrite (forallb_impl _ _ ds isdigit_not_NUL Hd).
  rewrite (forallb_impl nonsep _ p); [reflexivity| |exact Hp].
  intros a Ha. rewrite (nonsep_not_NUL a Ha). reflexivity.
Qed.

(** X23.  Completion of an argument keeps what was typed before it and
    never sets the count.  On the input [:], digits [ds], the start [p]
    of a registered name, a space and any text, the part of complete
    that builds the store shows no message, takes as prefix the input up
    to and including that space, and leaves excomp.count as it was;
    candidates can only be found for the commands open, tabopen, set and
    bma.  completion_select then writes the prefix, the count left in
    excomp by an earlier name completion when that is not 0, and the
    match. *)
Theorem argument_completion_keeps_the_input
        {E : Type} (C : Collab E) (fq : bool) (X : ExInfo)
        (ds p rest m : bytes) (st : State E) :
  In X (commands fq) ->
  g_str_has_prefix (cmd_name X) p = true ->
  p <> [] ->
  forallb isdigit ds = true ->
  (decimal_onto ds 0 < 2147483648)%Z ->
  snd (complete_fill C fq (":" :: ds ++ p ++ " " :: rest) st)
  = mkState (ext st)
            (mkExComp (excomp_count (excomp st))
                      (Some (":" :: ds ++ p ++ [" "]))
                      (excomp_current (excomp st)))
            (exhist st)
  /\ excomp_current
       (excomp (completion_select C m
                  (snd (complete_fill C fq (":" :: ds ++ p ++ " " :: rest) st))))
     = Some (if (excomp_count (excomp st) =? 0)%Z
             then (":" :: ds ++ p ++ [" "]) ++ m
             else (":" :: ds ++ p ++ [" "])
                    ++ decimal (excomp_count (excomp st)) ++ m)
  /\ (fst (fst (fst (complete_fill C fq (":" :: ds ++ p ++ " " :: rest) st)))
      = true ->
      In (code (parsed (parse_command_name C fq p arg0 (ext st))))
         [EX_OPEN; EX_TABOPEN; EX_SET; EX_BMA]).
Proof.
  intros HX Hp Hne Hd Hmax.
  pose proof (start_of_name_plain fq X p HX Hp Hne) as Hplain.
  pose proof (start_of_name_nonsep fq X p HX Hp) as Hns.
  destruct (parse_command_name_earliest C fq X p (" " :: rest)
              (set_count arg0 (decimal_onto ds 0)) (ext st) HX Hp Hne eq_refl)
    as (i & A & He & _ & Hparse).
  destruct (parse_command_name_earliest C fq X p [] arg0 (ext st)
              HX Hp Hne eq_refl) as (i0 & A0 & He0 & _ & Hparse0).
  rewrite He in He0. injection He0 as <- <-.
  rewrite app_nil_r in Hparse0. rewrite Hparse0.
  unfold parsed. cbn [fst snd set_command code].
  assert (Hshape : exists found sort store,
    complete_fill C fq (":" :: ds ++ p ++ " " :: rest) st
    = (found, sort, store,
       mkState (ext st)
               (mkExComp (excomp_count (excomp st))
                         (Some (":" :: ds ++ p ++ [" "]))
                         (excomp_current (excomp st)))
               (exhist st))
    /\ (found = true ->
        In (cmd_code A) [EX_OPEN; EX_TABOPEN; EX_SET; EX_BMA])).
  { unfold complete_fill.
    cbn [peek hd advance tl]. rewrite ch_eq_refl.
    rewrite (skip_whitespace_digits_name ds p (" " :: rest) Hd Hplain).
    rewrite (parse_count_fresh ds (p ++ " " :: rest) Hd
               (plain_start_not_digit p (" " :: rest) Hplain) Hmax).
    rewrite Hparse. cbn [peek hd andb]. rewrite ch_eq_refl.
    cbv beta iota zeta.
    rewrite (prefix_up_to_the_space ds p rest Hd Hns).
    unfold set_excomp_prefix, set_ext.
    cbn [ext excomp exhist excomp_count excomp_current code set_command].
    destruct (cmd_code A).
    all: try (eexists _, _, _; split; [reflexivity | discriminate]).
    all: try destruct (ch_eq (peek (skip_whitespace (" " :: rest))) "!").
    all: match goal with
         | |- context [bookmark_fill_completion ?c ?q ?w] =>
             destruct (bookmark_fill_completion c q w) as [f s]
         | |- context [history_fill_completion ?c ?t ?q ?w] =>
             destruct (history_fill_completion c t q w) as [f s]
         | |- context [setting_fill_completion ?c ?q ?w] =>
             destruct (setting_fill_completion c q w) as [f s]
         | |- context [bookmark_fill_tag_completion ?c ?q ?w] =>
             destruct (bookmark_fill_tag_completion c q w) as [f s]
         end.
    all: eexists _, _, _; split; [reflexivity | simpl; tauto]. }
  destruct Hshape as (found & sort & store & Hfill & Hcodes).
  rewrite Hfill. cbn [fst snd].
  split; [reflexivity|]. split; [|exact Hcodes].
  unfold completion_select.
  cbn [excomp excomp_count excomp_prefix excomp_current concat_prefix].
  destruct (excomp_count (excomp st) =? 0)%Z; reflexivity.
Qed.

(** X23 on [:set ho] after a name completion that left the count 2:
    selecting [home-page] writes [:set 2home-page]. *)
Lemma argument_completion_keeps_the_input_witness :
  snd (complete_fill demo true (":" :: [] ++ str "set" ++ " " :: str "ho")
         (mkState demo0 (mkExComp 2 (Some (str ":")) None)
                  (mkExHist None None None)))
  = mkState demo0
            (mkExComp 2 (Some (":" :: [] ++ str "set" ++ [" "])) None)
            (mkExHist None None None)
  /\ excomp_current
       (excomp (completion_select demo (str "home-page")
                  (snd (complete_fill demo true
                          (":" :: [] ++ str "set" ++ " " :: str "ho")
                          (mkState demo0 (mkExComp 2 (Some (str ":")) None)
                                   (mkExHist None None None))))))
     = Some (if (2 =? 0)%Z
             then (":" :: [] ++ str "set" ++ [" "]) ++ str "home-page"
             else (":" :: [] ++ str "set" ++ [" "])
                    ++ decimal 2 ++ str "home-page")
  /\ (fst (fst (fst (complete_fill demo true
                       (":" :: [] ++ str "set" ++ " " :: str "ho")
                       (mkState demo0 (mkExComp 2 (Some (str ":")) None)
                                (mkExHist None None None)))))
      = true ->
      In (code (parsed (parse_command_name demo true (str "set") arg0 demo0)))
         [EX_OPEN; EX_TABOPEN; EX_SET; EX_BMA]).
Proof.
  apply (@argument_completion_keeps_the_input Demo demo true
           (cmd "set" EX_SET F_set EX_FLAG_RHS) [] (str "set") (str "ho")
           (str "home-page")
           (mkState demo0 (mkExComp 2 (Some (str ":")) None)
                    (mkExHist None None None))).
  - simpl. tauto.
  - reflexivity.
  - discriminate.
  - reflexivity.
  - reflexivity.
Defined.

Example stale_count_is_written :
  excomp_current
    (excomp (completion_select demo (str "home-page")
               (snd (complete_fill demo true (str ":set ho")
                       (mkState demo0 (mkExComp 2 (Some (str ":")) None)
                                (mkExHist None None None))))))
  = Some (str ":set 2home-page").
Proof. vm_compute. reflexivity. Qed.

(* ------------------------------------------------------------------ *)
(** ** The callback of the completion widget *)

(** completion_select writes excomp.current and the input box only. *)
Lemma completion_select_keeps {E : Type} (C : Collab E) (m : bytes)
      (st : State E) :
  excomp_count (excomp (completion_select C m st)) = excomp_count (excomp st)
  /\ excomp_prefix (excomp (completion_select C m st))
     = excomp_prefix (excomp st)
  /\ exhist (completion_select C m st) = exhist st.
Proof. unfold completion_select. simpl. tauto. Qed.

Lemma run_callbacks_keeps {E : Type} (C : Collab E) (ms : list bytes) :
  forall st : State E,
    excomp_count (excomp (run_callbacks C ms st)) = excomp_count (excomp st)
    /\ excomp_prefix (excomp (run_callbacks C ms st))
       = excomp_prefix (excomp st)
    /\ exhist (run_callbacks C ms st) = exhist st.
Proof.
  unfold run_callbacks.
  induction ms as [|m ms IH]; intros st; simpl.
  - tauto.
  - destruct (IH (completion_select C m st)) as (H1 & H2 & H3).
    destruct (completion_select_keeps C m st) as (K1 & K2 & K3).
    rewrite H1, H2, H3. tauto.
Qed.

Lemma run_callbacks_last {E : Type} (C : Collab E) (ms : list bytes)
      (m : bytes) (st : State E) :
  run_callbacks C (ms ++ [m]) st
  = completion_select C m (run_callbacks C ms st).
Proof. unfold run_callbacks. rewrite fold_left_app. reflexivity. Qed.

(** X24.  However many matches the widget reports, the callbacks leave
    the prefix, the count and the history session as they were, and the
    input box and excomp.current hold the last match reported, written
    after the prefix and, when the count is not 0, the count in
    decimal. *)
Theorem callbacks_show_the_last_match
        {E : Type} (C : Collab E) (ms : list bytes) (m p : bytes)
        (st : State E) :
  excomp_prefix (excomp st) = Some p ->
  excomp_count (excomp (run_callbacks C ms st)) = excomp_count (excomp st)
  /\ excomp_prefix (excomp (run_callbacks C ms st)) = Some p
  /\ exhist (run_callbacks C ms st) = exhist st
  /\ excomp_current (excomp (run_callbacks C (ms ++ [m]) st))
     = Some (if (excomp_count (excomp st) =? 0)%Z then p ++ m
             else p ++ decimal (excomp_count (excomp st)) ++ m)
  /\ ext (run_callbacks C (ms ++ [m]) st)
     = vb_set_input_text C
         (if (excomp_count (excomp st) =? 0)%Z then p ++ m
          else p ++ decimal (excomp_count (excomp st)) ++ m)
         (ext (run_callbacks C ms st)).
Proof.
  intros Hp.
  destruct (run_callbacks_keeps C ms st) as (H1 & H2 & H3).
  split; [exact H1|]. split; [rewrite H2; exact Hp|]. split; [exact H3|].
  rewrite run_callbacks_last. unfold completion_select.
  cbn [excomp ext excomp_current]. rewrite H1, H2, Hp.
  cbn [concat_prefix].
  destruct (excomp_count (excomp st) =? 0)%Z; cbn [negb]; split; reflexivity.
Qed.

(** X24 on two matches reported after a name completion with the count
    2: the box shows the second. *)
Lemma callbacks_show_the_last_match_witness :
  excomp_count
    (excomp (run_callbacks demo [str "quit"]
               (mkState demo0 (mkExComp 2 (Some (str ":")) None)
                        (mkExHist None None None)))) = 2%Z
  /\ excomp_prefix
       (excomp (run_callbacks demo [str "quit"]
                  (mkState demo0 (mkExComp 2 (Some (str ":")) None)
                           (mkExHist None None None)))) = Some (str ":")
  /\ exhist (run_callbacks demo [str "quit"]
               (mkState demo0 (mkExComp 2 (Some (str ":")) None)
                        (mkExHist None None None)))
     = mkExHist None None None
  /\ excomp_current
       (excomp (run_callbacks demo ([str "quit"] ++ [str "qpop"])
                  (mkState demo0 (mkExComp 2 (Some (str ":")) None)
                           (mkExHist None None None))))
     = Some (str ":2qpop")
  /\ ext (run_callbacks demo ([str "quit"] ++ [str "qpop"])
            (mkState demo0 (mkExComp 2 (Some (str ":")) None)
                     (mkExHist None None None)))
     = vb_set_input_text demo (str ":2qpop")
         (ext (run_callbacks demo [str "quit"]
                 (mkState demo0 (mkExComp 2 (Some (str ":")) None)
                          (mkExHist None None None)))).
Proof.
  apply (@callbacks_show_the_last_match Demo demo [str "quit"] (str "qpop")
           (str ":")
           (mkState demo0 (mkExComp 2 (Some (str ":")) None)
                    (mkExHist None None None))).
  reflexivity.
Defined.

(** X25.  A key press for the next candidate right after a selection
    only steps.  When the callbacks have just written a match, the box
    returns the text written to it and the completion is still shown,
    complete with a direction builds no store, shows no message and
    cleans nothing: it asks the widget for the next item (the previous
    one for a negative direction) and runs the callbacks on what the
    widget reports.  The prefix and the count stay as they were. *)
Theorem next_after_selection_steps
        {E : Type} (C : Collab E) (fq : bool) (d : Z) (ms : list bytes)
        (m p : bytes) (st : State E) :
  d <> 0%Z ->
  (forall t w, vb_get_input_text C (vb_set_input_text C t w) = t) ->
  excomp_prefix (excomp st) = Some p ->
  in_completion C (ext (run_callbacks C (ms ++ [m]) st)) = true ->
  complete C fq d (run_callbacks C (ms ++ [m]) st)
  = (true,
     run_callbacks C
       (snd (completion_next C (d <? 0)%Z
               (ext (run_callbacks C (ms ++ [m]) st))))
       (set_ext (run_callbacks C (ms ++ [m]) st)
                (fst (completion_next C (d <? 0)%Z
                        (ext (run_callbacks C (ms ++ [m]) st))))))
  /\ excomp_count
       (excomp (snd (complete C fq d (run_callbacks C (ms ++ [m]) st))))
     = excomp_count (excomp st)
  /\ excomp_prefix
       (excomp (snd (complete C fq d (run_callbacks C (ms ++ [m]) st))))
     = Some p.
Proof.
  intros Hd Hget Hp Hin.
  destruct (run_callbacks_keeps C (ms ++ [m]) st) as (H1 & H2 & _).
  assert (Hstep :
    complete C fq d (run_callbacks C (ms ++ [m]) st)
    = (true,
       run_callbacks C
         (snd (completion_next C (d <? 0)%Z
                 (ext (run_callbacks C (ms ++ [m]) st))))
         (set_ext (run_callbacks C (ms ++ [m]) st)
                  (fst (completion_next C (d <? 0)%Z
                          (ext (run_callbacks C (ms ++ [m]) st))))))).
  { assert (Hcur : exists cur,
              excomp_current (excomp (run_callbacks C (ms ++ [m]) st))
              = Some cur
              /\ vb_get_input_text C (ext (run_callbacks C (ms ++ [m]) st))
                 = cur).
    { rewrite run_callbacks_last. unfold completion_select.
      cbn [ext excomp excomp_current]. eexists. split; [reflexivity|].
      apply Hget. }
    destruct Hcur as (cur & Hcur & Htext).
    unfold complete.
    destruct (Z.eqb_spec d 0) as [Hz|_]; [contradiction|].
    rewrite Hin, Hcur, Htext, strcmp_eq_refl. cbn [andb].
    destruct (completion_next C (d <? 0)%Z
                (ext (run_callbacks C (ms ++ [m]) st))) as [w sel].
    reflexivity. }
  split; [exact Hstep|]. rewrite Hstep. cbn [snd].
  destruct (run_callbacks_keeps C
              (snd (completion_next C (d <? 0)%Z
                      (ext (run_callbacks C (ms ++ [m]) st))))
              (set_ext (run_callbacks C (ms ++ [m]) st)
                       (fst (completion_next C (d <? 0)%Z
                               (ext (run_callbacks C (ms ++ [m]) st))))))
    as (K1 & K2 & _).
  rewrite K1, K2. unfold set_ext. cbn [excomp]. rewrite H1, H2.
  split; [reflexivity | exact Hp].
Qed.

(** X25 on the demo widget holding [quit] and [qpop] after [quit] was
    selected: the next key press selects [qpop]. *)
Lemma next_after_selection_steps_witness :
  complete demo true 1
    (run_callbacks demo ([] ++ [str "quit"])
       (mkState (demo_widget true [str "quit"; str "qpop"] 0 demo0)
                (mkExComp 0 (Some (str ":")) None) (mkExHist None None None)))
  = (true,
     run_callbacks demo
       (snd (completion_next demo (1 <? 0)%Z
               (ext (run_callbacks demo ([] ++ [str "quit"])
                       (mkState (demo_widget true [str "quit"; str "qpop"] 0 demo0)
                                (mkExComp 0 (Some (str ":")) None)
                                (mkExHist None None None))))))
       (set_ext (run_callbacks demo ([] ++ [str "quit"])
                   (mkState (demo_widget true [str "quit"; str "qpop"] 0 demo0)
                            (mkExComp 0 (Some (str ":")) None)
                            (mkExHist None None None)))
                (fst (completion_next demo (1 <? 0)%Z
                        (ext (run_callbacks demo ([] ++ [str "quit"])
                                (mkState (demo_widget true [str "quit"; str "qpop"] 0 demo0)
                                         (mkExComp 0 (Some (str ":")) None)
                                         (mkExHist None None None))))))))
  /\ excomp_count
       (excomp (snd (complete demo true 1
                       (run_callbacks demo ([] ++ [str "quit"])
                          (mkState (demo_widget true [str "quit"; str "qpop"] 0 demo0)
                                   (mkExComp 0 (Some (str ":")) None)
                                   (mkExHist None None None))))))
     = 0%Z
  /\ excomp_prefix
       (excomp (snd (complete demo true 1
                       (run_callbacks demo ([] ++ [str "quit"])
                          (mkState (demo_widget true [str "quit"; str "qpop"] 0 demo0)
                                   (mkExComp 0 (Some (str ":")) None)
                                   (mkExHist None None None))))))
     = Some (str ":").
Proof.
  apply (@next_after_selection_steps Demo demo true 1 [] (str "quit") (str ":")
           (mkState (demo_widget true [str "quit"; str "qpop"] 0 demo0)
                    (mkExComp 0 (Some (str ":")) None)
                    (mkExHist None None None))).
  - discriminate.
  - intros t w. reflexivity.
  - reflexivity.
  - reflexivity.
Defined.

Example next_after_selection_example :
  d_input (ext (snd (complete demo true 1
    (run_callbacks demo [str "quit"]
       (mkState (demo_widget true [str "quit"; str "qpop"] 0 demo0)
                (mkExComp 0 (Some (str ":")) None)
                (mkExHist None None None))))))
  = str ":qpop".
Proof. vm_compute. reflexivity. Qed.

(* ------------------------------------------------------------------ *)
(** ** Lines of several commands *)

Lemma run_loop_round
      {E : Type} (C : Collab E) (fq : bool) (k : nat) (input : bytes)
      (arg : ExArg) (w : E) :
  run_loop C fq (S k) input arg w
  = if ch_eq (peek input) NUL then Some (true, w)
    else
      let '(ok, input', arg', w1) := parse C fq input arg w in
      if negb ok then Some (false, w1)
      else
        let '(done, w2) := execute C fq arg' w1 in
        if negb done then Some (false, w2)
        else run_loop C fq k input' arg' w2.
Proof. reflexivity. Qed.

Lemma commands_NoDup (fq : bool) : NoDup (commands fq).
Proof.
  assert (H : nodup ExInfo_eq_dec (commands fq) = commands fq)
    by (destruct fq; vm_compute; reflexivity).
  rewrite <- H. apply NoDup_nodup.
Qed.

(** X26.  A line is run command by command and ends at the first
    handler that fails.  For a command [X] with a plain right hand side
    [t]: submitted alone, the line returns what the handler
    returns; followed by a bar and more text, a handler that fails ends
    the line with its result and state, nothing of the rest being parsed
    or run, while after a handler that succeeds the loop goes on with
    the rest, the state the handler left and the same invocation
    record. *)
Theorem line_stops_at_first_failure
        {E : Type} (C : Collab E) (fq : bool) (X : ExInfo) (t rest : bytes)
        (w : E) :
  In X (commands fq) ->
  has_flag (cmd_flags X) EX_FLAG_RHS = true ->
  has_flag (cmd_flags X) EX_FLAG_LHS = false ->
  forallb (plain_rhs (cmd_flags X)) t = true ->
  t <> [] ->
  ch_eq (peek t) " " = false ->
  exists i,
    nth_error (commands fq) i = Some X
    /\ ex_run_string C fq (cmd_name X ++ " " :: t) w
       = Some (execute C fq
                 (mkExArg 0 i (cmd_name X) (cmd_code X) false [] t (cmd_flags X))
                 w)
    /\ ex_run_string C fq (cmd_name X ++ " " :: t ++ "|" :: rest) w
       = if fst (execute C fq
                   (mkExArg 0 i (cmd_name X) (cmd_code X) false [] t
                            (cmd_flags X)) w)
         then run_loop C fq (S (List.length rest)) rest
                (mkExArg 0 i (cmd_name X) (cmd_code X) false [] t (cmd_flags X))
                (snd (execute C fq
                        (mkExArg 0 i (cmd_name X) (cmd_code X) false [] t
                                 (cmd_flags X)) w))
         else Some (execute C fq
                      (mkExArg 0 i (cmd_name X) (cmd_code X) false [] t
                               (cmd_flags X)) w).
Proof.
  intros HX Hrhs Hlhs Ht Hne Hsp.
  destruct (plain_command_parse C fq X t [] arg0 w HX Hrhs Hlhs Ht Hne Hsp
              eq_refl) as (i & Hnth & Hend).
  destruct (plain_command_parse C fq X t ("|" :: rest) arg0 w HX Hrhs Hlhs
              Ht Hne Hsp eq_refl) as (i' & Hnth' & Hbar).
  assert (Hi : i' = i).
  { apply (proj1 (NoDup_nth_error (commands fq)) (commands_NoDup fq)).
    - apply nth_error_Some. rewrite Hnth'. discriminate.
    - rewrite Hnth, Hnth'. reflexivity. }
  subst i'. exists i. split; [exact Hnth|].
  pose proof (commands_plain_start fq) as Hplain.
  rewrite forallb_forall in Hplain.
  specialize (Hplain (cmd_name X) (in_map cmd_name _ _ HX)).
  assert (Hnul : forall more,
             ch_eq (peek (cmd_name X ++ more)) NUL = false).
  { intros more. destruct (cmd_name X) as [|c n];
      [vm_compute in Hplain; discriminate|].
    unfold plain_start in Hplain. cbn [peek hd app] in *.
    destruct (ch_eq c NUL); [|reflexivity].
    rewrite andb_false_r in Hplain. discriminate. }
  cbn [bang arg0] in Hend, Hbar. rewrite app_nil_r in Hend.
  split.
  - unfold ex_run_string. rewrite run_loop_round, Hnul, Hend.
    cbn [negb].
    destruct (execute C fq _ w) as [[|] w2]; cbn [negb]; [|reflexivity].
    rewrite length_app. cbn [List.length].
    rewrite Nat.add_succ_r. reflexivity.
  - unfold ex_run_string. rewrite run_loop_round, Hnul, Hbar.
    cbn [negb].
    destruct (execute C fq _ w) as [[|] w2]; cbn [negb fst snd];
      [|reflexivity].
    apply run_loop_fuel.
    + unfold step_over. cbn [peek hd advance tl].
      replace (ch_eq "|" NUL) with false by reflexivity.
      rewrite !length_app. cbn [List.length]. rewrite length_app.
      cbn [List.length]. lia.
    + unfold step_over. cbn [peek hd advance tl].
      replace (ch_eq "|" NUL) with false by reflexivity. lia.
Qed.

(** X26 on [bmr http://none/|open x] with no bookmark stored. *)
Lemma line_stops_at_first_failure_witness :
  exists i,
    nth_error (commands true) i = Some (cmd "bmr" EX_BMR F_bookmark EX_FLAG_RHS)
    /\ ex_run_string demo true
         (cmd_name (cmd "bmr" EX_BMR F_bookmark EX_FLAG_RHS)
          ++ " " :: str "http://none/") demo0
       = Some (execute demo true
                 (mkExArg 0 i (cmd_name (cmd "bmr" EX_BMR F_bookmark EX_FLAG_RHS))
                          (cmd_code (cmd "bmr" EX_BMR F_bookmark EX_FLAG_RHS))
                          false [] (str "http://none/")
                          (cmd_flags (cmd "bmr" EX_BMR F_bookmark EX_FLAG_RHS)))
                 demo0)
    /\ ex_run_string demo true
         (cmd_name (cmd "bmr" EX_BMR F_bookmark EX_FLAG_RHS)
          ++ " " :: str "http://none/" ++ "|" :: str "open x") demo0
       = if fst (execute demo true
                   (mkExArg 0 i
                      (cmd_name (cmd "bmr" EX_BMR F_bookmark EX_FLAG_RHS))
                      (cmd_code (cmd "bmr" EX_BMR F_bookmark EX_FLAG_RHS))
                      false [] (str "http://none/")
                      (cmd_flags (cmd "bmr" EX_BMR F_bookmark EX_FLAG_RHS)))
                   demo0)
         then run_loop demo true (S (List.length (str "open x"))) (str "open x")
                (mkExArg 0 i
                   (cmd_name (cmd "bmr" EX_BMR F_bookmark EX_FLAG_RHS))
                   (cmd_code (cmd "bmr" EX_BMR F_bookmark EX_FLAG_RHS))
                   false [] (str "http://none/")
                   (cmd_flags (cmd "bmr" EX_BMR F_bookmark EX_FLAG_RHS)))
                (snd (execute demo true
                        (mkExArg 0 i
                           (cmd_name (cmd "bmr" EX_BMR F_bookmark EX_FLAG_RHS))
                           (cmd_code (cmd "bmr" EX_BMR F_bookmark EX_FLAG_RHS))
                           false [] (str "http://none/")
                           (cmd_flags (cmd "bmr" EX_BMR F_bookmark EX_FLAG_RHS)))
                        demo0))
         else Some (execute demo true
                      (mkExArg 0 i
                         (cmd_name (cmd "bmr" EX_BMR F_bookmark EX_FLAG_RHS))
                         (cmd_code (cmd "bmr" EX_BMR F_bookmark EX_FLAG_RHS))
                         false [] (str "http://none/")
                         (cmd_flags (cmd "bmr" EX_BMR F_bookmark EX_FLAG_RHS)))
                      demo0).
Proof.
  apply (@line_stops_at_first_failure Demo demo true
           (cmd "bmr" EX_BMR F_bookmark EX_FLAG_RHS) (str "http://none/")
           (str "open x") demo0).
  - simpl. tauto.
  - reflexivity.
  - reflexivity.
  - reflexivity.
  - discriminate.
  - reflexivity.
Defined.

Example failed_removal_ends_the_line :
  ex_run_string demo true (str "bmr http://none/|open x") demo0
  = Some (false, demo0).
Proof. vm_compute. reflexivity. Qed.
